(** * Live Signal Lab: signal generator and analyser

    A shallow embedding of the JavaScript classes [SignalGenerator]
    (generators, noise, direct DFT) and [SignalAnalyzer] (bandwidth and SNR
    estimates), with the properties of the specification stated over it;
    then of [SignalVisualizer] (the data handed to the charts) and of the
    handler of the Generate button, with their edge cases and invariants.
    Of the page, an element is its class list and its [style.display];
    the charting library is outside the model.

    Numbers are IEEE-754 binary64 values, as in JavaScript: Rocq's primitive
    [float] with its own [+], [-], [*], [/] and [sqrt].  The transcendental
    functions of the [Math] object and the stream of [Math.random] results
    are supplied by an [Engine].  Array lengths, loop counters and array
    indices are natural numbers; integer arithmetic on them ([Math.floor]
    of a quotient of two integers, [%]) is done in [Z], where the
    binary64 result is exact for the magnitudes an array index can take. *)

From Stdlib Require Import Floats ZArith String Bool Arith Lia Uint63 List Sorted.
Import ListNotations.

Set Implicit Arguments.

(** ** JavaScript numbers *)

Module JS.

Definition ofNat (n : nat) : float := PrimFloat.of_uint63 (Uint63.of_Z (Z.of_nat n)).

(** [ToBoolean] on a number: [+0], [-0] and [NaN] are falsy. *)
Definition truthy (x : float) : bool := negb (PrimFloat.is_zero x || PrimFloat.is_nan x).

(** A property that may be missing ([undefined]). *)
Definition value := option float.

Definition truthyV (v : value) : bool :=
  match v with
  | Some x => truthy x
  | None => false
  end.

(** [ToNumber]: [undefined] converts to [NaN]. *)
Definition toNumber (v : value) : float :=
  match v with
  | Some x => x
  | None => nan
  end.

(** [v || d] where [d] is a number. *)
Definition orElse (v : value) (d : float) : float :=
  match v with
  | Some x => if truthy x then x else d
  | None => d
  end.

(** [arr[i]] read as a number. *)
Definition getNum (arr : list float) (i : nat) : float := nth i arr nan.

(** [Math.max(a, b)] and [Math.min(a, b)]: [NaN] if either is [NaN];
    [+0] counts as larger than [-0]. *)
Definition isNegZero (x : float) : bool :=
  PrimFloat.is_zero x && (1 / x <? 0)%float.

Definition Math_max (a b : float) : float :=
  if PrimFloat.is_nan a then nan
  else if PrimFloat.is_nan b then nan
  else if (a <? b)%float then b
  else if (b <? a)%float then a
  else if isNegZero a then b else a.

Definition Math_min (a b : float) : float :=
  if PrimFloat.is_nan a then nan
  else if PrimFloat.is_nan b then nan
  else if (a <? b)%float then a
  else if (b <? a)%float then b
  else if isNegZero a then a else b.

(** [Math.max(...arr)]: [-Infinity] for no argument. *)
Definition Math_maxAll (arr : list float) : float :=
  fold_left Math_max arr neg_infinity.

(** *** Integer-valued numbers

    The result of [Math.floor]: an integer, or one of the values that
    [Math.floor] leaves alone. *)
Inductive jsint : Type :=
| JNaN
| JInf (neg : bool)
| JNegZero
| JZ (z : Z).

Definition Math_floor (x : float) : jsint :=
  match Prim2SF x with
  | S754_nan => JNaN
  | S754_infinity s => JInf s
  | S754_zero s => if s then JNegZero else JZ 0
  | S754_finite s m e => JZ (Z.shiftl (if s then Z.neg m else Z.pos m) e)
  end.

(** [Math.floor(i / d)] for an array index or length [i] and an
    integer-valued [d]. *)
Definition floorDiv (i : nat) (d : jsint) : jsint :=
  match d with
  | JNaN => JNaN
  | JInf neg => if neg then JNegZero else JZ 0
  | JNegZero => if (i =? 0)%nat then JNaN else JInf true
  | JZ 0 => if (i =? 0)%nat then JNaN else JInf false
  | JZ z => if (i =? 0)%nat then (if (z <? 0)%Z then JNegZero else JZ 0)
            else JZ (Z.of_nat i / z)
  end.

(** [i % d === 0] for an array index [i] and an integer-valued [d]. *)
Definition remIsZero (i : nat) (d : jsint) : bool :=
  match d with
  | JNaN => false
  | JInf _ => (i =? 0)%nat
  | JNegZero => false
  | JZ 0 => false
  | JZ z => (Z.rem (Z.of_nat i) z =? 0)%Z
  end.

(** [j < len] for an integer-valued [j] and an array length. *)
Definition ltLength (j : jsint) (len : nat) : bool :=
  match j with
  | JNaN => false
  | JInf neg => neg
  | JNegZero => (0 <? len)%nat
  | JZ z => (z <? Z.of_nat len)%Z
  end.

(** [arr[j]] for an integer-valued [j]: [undefined] unless [j] is an
    index of the array. *)
Definition getAt {A : Type} (arr : list A) (j : jsint) : option A :=
  match j with
  | JNegZero => nth_error arr 0
  | JZ z => if (z <? 0)%Z then None else nth_error arr (Z.to_nat z)
  | _ => None
  end.

(** Exceptions the modelled code can raise. *)
Inductive exn : Type := RangeError | TypeError.

Inductive result (A : Type) : Type :=
| Returns (a : A)
| Throws (e : exn).
Arguments Throws {A} e.

(** The largest array length, [2^32 - 1]. *)
Definition maxArrayLength : Z := 4294967295.

(** The length [new Array(x)] gives for a number [x]: [x] must be an
    integer in [0, 2^32 - 1], otherwise a [RangeError] is raised. *)
Definition arrayLengthZ (x : float) : result Z :=
  match Prim2SF x with
  | S754_zero _ => Returns 0%Z
  | S754_finite false m e =>
      let z := Z.shiftl (Z.pos m) e in
      if ((Z.shiftl z (- e) =? Z.pos m) && (z <=? maxArrayLength))%Z
      then Returns z else Throws RangeError
  | _ => Throws RangeError
  end.

Definition arrayLength (x : float) : result nat :=
  match arrayLengthZ x with
  | Returns z => Returns (Z.to_nat z)
  | Throws e => Throws e
  end.

(** [Array.from({length: x}, ...)] for an integer-valued [x]: the length
    is [ToLength(x)], and creating the array fails beyond [2^32 - 1]. *)
Definition arrayFromLength (x : jsint) : result nat :=
  match x with
  | JNaN => Returns 0%nat
  | JInf neg => if neg then Returns 0%nat else Throws RangeError
  | JNegZero => Returns 0%nat
  | JZ z => if (z <=? 0)%Z then Returns 0%nat
            else if (z <=? maxArrayLength)%Z then Returns (Z.to_nat z)
            else Throws RangeError
  end.

End JS.

Import JS.


(** ** The engine

    What the JavaScript engine supplies: the functions of [Math] that
    binary64 arithmetic does not define, and the successive results of
    [Math.random()].  The laws are what ECMAScript fixes: the range
    [0, 1) of [Math.random], and the results of [Math.log] at 0 and of
    [Math.log10] at [NaN]. *)

Class Engine : Type := {
  Math_cos : float -> float;
  Math_sin : float -> float;
  Math_log : float -> float;
  Math_log10 : float -> float;
  Math_pow : float -> float -> float;
  (** The result of the [k]-th call of [Math.random()] (from 0). *)
  Math_random : nat -> float;
  Math_random_range :
    forall k, (0 <=? Math_random k)%float = true /\ (Math_random k <? 1)%float = true;
  Math_log_zero : Math_log 0%float = neg_infinity;
  Math_log10_nan : Math_log10 nan = nan
}.

(** [Math.PI], the binary64 value nearest to pi. *)
Definition Math_PI : float := 0x1.921fb54442d18p+1%float.

(** ** Computations that call [Math.random]

    The state is the number of calls made so far. *)

Definition Rand (A : Type) : Type := nat -> A * nat.

Definition ret {A : Type} (a : A) : Rand A := fun k => (a, k).

Definition bind {A B : Type} (m : Rand A) (f : A -> Rand B) : Rand B :=
  fun k => let (a, k') := m k in f a k'.

Notation "x <- m ;; f" := (bind m (fun x => f))
  (at level 61, m at next level, right associativity).

Definition random `{Engine} : Rand float := fun k => (Math_random k, S k).

(** [arr.map(f)] for a callback that draws random numbers: elements are
    visited in index order. *)
Fixpoint mapR {A B : Type} (f : A -> Rand B) (arr : list A) : Rand (list B) :=
  match arr with
  | [] => ret []
  | a :: arr' => b <- f a ;; bs <- mapR f arr' ;; ret (b :: bs)
  end.

(** [Array.from({length: n}, f)]. *)
Definition arrayFromR {B : Type} (n : nat) (f : Rand B) : Rand (list B) :=
  mapR (fun _ => f) (seq 0 n).

(** [arr.map((x, i) => f(x, i))]. *)
Definition mapi {A B : Type} (f : A -> nat -> B) (arr : list A) : list B :=
  map (fun ix => f (snd ix) (fst ix)) (combine (seq 0 (length arr)) arr).

(** [new Array(n)] followed by [for (let i = 0; i < n; i++) a[i] = f(i)]. *)
Definition tabulate {B : Type} (n : nat) (f : nat -> B) : list B :=
  map f (seq 0 n).

(** A computation that draws random numbers and may raise an exception. *)
Definition Gen (A : Type) : Type := Rand (result A).

Definition retG {A : Type} (a : A) : Gen A := ret (Returns a).

Definition bindG {A B : Type} (m : Gen A) (f : A -> Gen B) : Gen B :=
  fun k => match m k with
           | (Returns a, k') => f a k'
           | (Throws e, k') => (Throws e, k')
           end.

Definition liftRand {A : Type} (m : Rand A) : Gen A := a <- m ;; retG a.

Definition liftResult {A : Type} (r : result A) : Gen A := ret r.

Notation "x <-- m ;; f" := (bindG m (fun x => f))
  (at level 61, m at next level, right associativity).

(** A loop body run for [i = 0 .. n-1] that may raise: the first exception
    ends the loop. *)
Fixpoint forEach {B : Type} (f : nat -> result B) (idx : list nat) : result (list B) :=
  match idx with
  | [] => Returns []
  | i :: idx' =>
      match f i with
      | Throws e => Throws e
      | Returns b =>
          match forEach f idx' with
          | Throws e => Throws e
          | Returns bs => Returns (b :: bs)
          end
      end
  end.

(** ** The signal generator *)

Set Warnings "-inexact-float".

(** The fields of a [SignalGenerator] object. *)
Record SignalGenerator : Type := {
  sampleRate : float;
  duration : float;
  numSamples : float;
  carrierFreq : float;
  symbolRate : float;
  snr : float;
  modulationIndex : float;
  messageFreq : float;
  frequencyDeviation : float
}.

(** The argument of [updateParameters]: each property is a number or is
    missing. *)
Record Params : Type := {
  p_carrierFreq : value;
  p_symbolRate : value;
  p_snr : value;
  p_modulationIndex : value;
  p_messageFreq : value;
  p_frequencyDeviation : value
}.

(** A constellation point [{x, y}]. *)
Record point : Type := { x : value; y : value }.

(** A symbol of the QPSK alphabet, [{i, q}]. *)
Record iq : Type := { iq_i : float; iq_q : float }.

(** The object a generator returns.  An array element that was never
    assigned (a hole) is [None]; [constellation] is [None] for [null]. *)
Record Signal : Type := {
  time : list float;
  realSignal : list float;
  imagSignal : list value;
  constellation : option (list point)
}.

Section Generator.

Context `{Engine}.
Local Open Scope float_scope.

Definition constructor : SignalGenerator :=
  {| sampleRate := 44100;
     duration := 1;
     numSamples := 44100 * 1;
     carrierFreq := 1000;
     symbolRate := 100;
     snr := 20;
     modulationIndex := 0.5;
     messageFreq := 100;
     frequencyDeviation := 100 |}.

Definition updateParameters (this : SignalGenerator) (params : Params) : SignalGenerator :=
  {| sampleRate := sampleRate this;
     duration := duration this;
     numSamples := numSamples this;
     carrierFreq := orElse (p_carrierFreq params) (carrierFreq this);
     symbolRate := orElse (p_symbolRate params) (symbolRate this);
     snr := orElse (p_snr params) (snr this);
     modulationIndex := orElse (p_modulationIndex params) (modulationIndex this);
     messageFreq := orElse (p_messageFreq params) (messageFreq this);
     frequencyDeviation := orElse (p_frequencyDeviation params) (frequencyDeviation this) |}.

Variable this : SignalGenerator.

Definition generateTimeArray : result (list float) :=
  match arrayLength (numSamples this) with
  | Throws e => Throws e
  | Returns n => Returns (tabulate n (fun i => ofNat i / sampleRate this))
  end.

(** [new Array(this.numSamples).fill(v)]. *)
Definition newArrayFill {A : Type} (v : A) : result (list A) :=
  match arrayLength (numSamples this) with
  | Throws e => Throws e
  | Returns n => Returns (repeat v n)
  end.

Definition signalPower (signal : list float) : float :=
  fold_left (fun sum val => sum + val * val) signal 0 / ofNat (length signal).

Definition noiseAmplitude (signal : list float) (snrDb : float) : float :=
  let snrLinear := Math_pow 10 (snrDb / 10) in
  let noisePower := signalPower signal / snrLinear in
  PrimFloat.sqrt noisePower.

(** The Box-Muller sample added to one element. *)
Definition boxMuller (amplitude u1 u2 : float) : float :=
  amplitude * PrimFloat.sqrt (-2 * Math_log u1) * Math_cos (2 * Math_PI * u2).

Definition addNoise (signal : list float) (snrDb : float) : Rand (list float) :=
  let amplitude := noiseAmplitude signal snrDb in
  mapR (fun sample =>
          u1 <- random ;;
          u2 <- random ;;
          ret (sample + boxMuller amplitude u1 u2))
       signal.

Definition generateAM : Gen Signal :=
  timeArray <-- liftResult generateTimeArray ;;
  let carrier := map (fun t => Math_cos (2 * Math_PI * carrierFreq this * t)) timeArray in
  let message := map (fun t => Math_cos (2 * Math_PI * messageFreq this * t)) timeArray in
  let modulatedSignal :=
    mapi (fun t i => (1 + modulationIndex this * getNum message i) * getNum carrier i)
         timeArray in
  noisySignal <-- liftRand (addNoise modulatedSignal (snr this)) ;;
  zeros <-- liftResult (newArrayFill (Some 0)) ;;
  retG {| time := timeArray;
          realSignal := noisySignal;
          imagSignal := zeros;
          constellation := None |}.

(** The callback of [generateFM]'s [map], which updates the running
    integral [integratedMessage]. *)
Fixpoint fmLoop (message : list float) (dt : float) (its : list (nat * float))
    (integratedMessage : float) : list float :=
  match its with
  | [] => []
  | (i, t) :: its' =>
      let integratedMessage := integratedMessage + getNum message i * dt in
      let instantPhase :=
        2 * Math_PI * carrierFreq this * t
        + 2 * Math_PI * frequencyDeviation this * modulationIndex this * integratedMessage in
      Math_cos instantPhase :: fmLoop message dt its' integratedMessage
  end.

Definition generateFM : Gen Signal :=
  timeArray <-- liftResult generateTimeArray ;;
  let message := map (fun t => Math_cos (2 * Math_PI * messageFreq this * t)) timeArray in
  let dt := 1 / sampleRate this in
  let modulatedSignal :=
    fmLoop message dt (combine (seq 0 (length timeArray)) timeArray) 0 in
  noisySignal <-- liftRand (addNoise modulatedSignal (snr this)) ;;
  zeros <-- liftResult (newArrayFill (Some 0)) ;;
  retG {| time := timeArray;
          realSignal := noisySignal;
          imagSignal := zeros;
          constellation := None |}.

(** [Math.floor(this.sampleRate / this.symbolRate)]. *)
Definition samplesPerSymbol : jsint :=
  Math_floor (sampleRate this / symbolRate this).

(** [Math.floor(this.numSamples / samplesPerSymbol)], the length handed
    to [Array.from]. *)
Definition numSymbols (n : nat) : result nat :=
  arrayFromLength (floorDiv n samplesPerSymbol).

(** [symbolIndex < symbols.length ? symbols[symbolIndex] : dflt], with
    [symbolIndex = Math.floor(i / samplesPerSymbol)]. *)
Definition symbolAt {A : Type} (symbols : list A) (dflt : A) (i : nat) : option A :=
  let symbolIndex := floorDiv i samplesPerSymbol in
  if ltLength symbolIndex (length symbols) then getAt symbols symbolIndex
  else Some dflt.

(** [i % samplesPerSymbol === 0 && symbolIndex < symbols.length]. *)
Definition startsSymbol {A : Type} (symbols : list A) (i : nat) : bool :=
  remIsZero i samplesPerSymbol
  && ltLength (floorDiv i samplesPerSymbol) (length symbols).

(** The points pushed by a loop over [i = 0 .. n-1]. *)
Definition pushed {A : Type} (symbols : list A) (pt : nat -> point) (n : nat) : list point :=
  flat_map (fun i => if startsSymbol symbols i then [pt i] else []) (seq 0 n).

Definition generateBPSK : Gen Signal :=
  timeArray <-- liftResult generateTimeArray ;;
  let n := length timeArray in
  len <-- liftResult (numSymbols n) ;;
  bits <-- liftRand (arrayFromR len (u <- random ;; ret (if 0.5 <? u then 1 else -1))) ;;
  let bit i := symbolAt bits 1 i in
  let modulatedReal :=
    tabulate n (fun i =>
      let carrier := Math_cos (2 * Math_PI * carrierFreq this * getNum timeArray i) in
      toNumber (bit i) * carrier) in
  let modulatedImag := tabulate n (fun _ => Some 0) in
  let constellation := pushed bits (fun i => {| x := bit i; y := Some 0 |}) n in
  noisyReal <-- liftRand (addNoise modulatedReal (snr this)) ;;
  retG {| time := timeArray;
          realSignal := noisyReal;
          imagSignal := modulatedImag;
          constellation := Some constellation |}.

(** The callback of [generateQPSK]'s [Array.from]: a [switch] on the
    dibit with no [default], so any other value gives [undefined]. *)
Definition qpskSymbol (u : float) : option iq :=
  match Math_floor (u * 4) with
  | JZ 0 | JNegZero => Some {| iq_i := 1 / PrimFloat.sqrt 2; iq_q := 1 / PrimFloat.sqrt 2 |}
  | JZ 1 => Some {| iq_i := -1 / PrimFloat.sqrt 2; iq_q := 1 / PrimFloat.sqrt 2 |}
  | JZ 2 => Some {| iq_i := -1 / PrimFloat.sqrt 2; iq_q := -1 / PrimFloat.sqrt 2 |}
  | JZ 3 => Some {| iq_i := 1 / PrimFloat.sqrt 2; iq_q := -1 / PrimFloat.sqrt 2 |}
  | _ => None
  end.

Definition qpskDefault : option iq :=
  Some {| iq_i := 1 / PrimFloat.sqrt 2; iq_q := 1 / PrimFloat.sqrt 2 |}.

(** The symbol used at sample [i]; [None] when it is [undefined]. *)
Definition qpskSymbolAt (symbols : list (option iq)) (i : nat) : option iq :=
  match symbolAt symbols qpskDefault i with
  | Some (Some s) => Some s
  | _ => None
  end.

Definition generateQPSK : Gen Signal :=
  timeArray <-- liftResult generateTimeArray ;;
  let n := length timeArray in
  len <-- liftResult (numSymbols n) ;;
  symbols <-- liftRand (arrayFromR len (u <- random ;; ret (qpskSymbol u))) ;;
  (* reading [symbol.i] of an undefined symbol raises a TypeError *)
  modulated <-- liftResult (forEach (fun i =>
      match qpskSymbolAt symbols i with
      | None => Throws TypeError
      | Some symbol =>
          let carrierI := Math_cos (2 * Math_PI * carrierFreq this * getNum timeArray i) in
          let carrierQ := Math_sin (2 * Math_PI * carrierFreq this * getNum timeArray i) in
          Returns (iq_i symbol * carrierI, iq_q symbol * carrierQ)
      end) (seq 0 n)) ;;
  let modulatedReal := map fst modulated in
  let modulatedImag := map snd modulated in
  let constellation :=
    pushed symbols (fun i => match qpskSymbolAt symbols i with
                             | Some symbol => {| x := Some (iq_i symbol); y := Some (iq_q symbol) |}
                             | None => {| x := None; y := None |}
                             end) n in
  let combinedSignal := mapi (fun real idx => real - getNum modulatedImag idx) modulatedReal in
  noisySignal <-- liftRand (addNoise combinedSignal (snr this)) ;;
  retG {| time := timeArray;
          realSignal := noisySignal;
          imagSignal := map Some modulatedImag;
          constellation := Some constellation |}.

Definition generateFSK : Gen Signal :=
  timeArray <-- liftResult generateTimeArray ;;
  let n := length timeArray in
  len <-- liftResult (numSymbols n) ;;
  bits <-- liftRand (arrayFromR len (u <- random ;; ret (if 0.5 <? u then 1 else 0))) ;;
  let freq0 := carrierFreq this - frequencyDeviation this in
  let freq1 := carrierFreq this + frequencyDeviation this in
  let bit i := symbolAt bits 0 i in
  let modulatedSignal :=
    tabulate n (fun i =>
      let freq := if truthyV (bit i) then freq1 else freq0 in
      Math_cos (2 * Math_PI * freq * getNum timeArray i)) in
  let constellation :=
    pushed bits (fun i => {| x := Some (if truthyV (bit i) then 1 else -1); y := Some 0 |}) n in
  noisySignal <-- liftRand (addNoise modulatedSignal (snr this)) ;;
  zeros <-- liftResult (newArrayFill (Some 0)) ;;
  retG {| time := timeArray;
          realSignal := noisySignal;
          imagSignal := zeros;
          constellation := Some constellation |}.

Definition generateVoiceLikeSignal (timeArray : list float) : list float :=
  map (fun t =>
         0.5 * Math_sin (2 * Math_PI * messageFreq this * t)
         + 0.3 * Math_sin (2 * Math_PI * (messageFreq this * 1.5) * t)
         + 0.15 * Math_sin (2 * Math_PI * (messageFreq this * 2.2) * t)
         + 0.05 * Math_sin (2 * Math_PI * (messageFreq this * 3.7) * t))
      timeArray.

(** [new Array(signal.length)] with the elements from index 3 assigned:
    indices 0, 1 and 2 stay holes. *)
Definition approximateHilbertTransform (signal : list float) : list value :=
  tabulate (length signal) (fun i =>
    if (i <? 3)%nat then None
    else Some (0.5 * (getNum signal i - getNum signal (i - 2)))).

(** [arr[i]] of an array with holes, used as a number. *)
Definition getHole (arr : list value) (i : nat) : float :=
  toNumber (nth i arr None).

Definition generateLSB : Gen Signal :=
  timeArray <-- liftResult generateTimeArray ;;
  let message := generateVoiceLikeSignal timeArray in
  let hilbertMessage := approximateHilbertTransform message in
  let carrier := map (fun t => Math_cos (2 * Math_PI * carrierFreq this * t)) timeArray in
  let carrierShifted := map (fun t => Math_sin (2 * Math_PI * carrierFreq this * t)) timeArray in
  let modulatedSignal :=
    mapi (fun t i => getNum message i * getNum carrier i
                     - getHole hilbertMessage i * getNum carrierShifted i)
         timeArray in
  noisySignal <-- liftRand (addNoise modulatedSignal (snr this)) ;;
  retG {| time := timeArray;
          realSignal := noisySignal;
          imagSignal := hilbertMessage;
          constellation := None |}.

Definition generateUSB : Gen Signal :=
  timeArray <-- liftResult generateTimeArray ;;
  let message := generateVoiceLikeSignal timeArray in
  let hilbertMessage := approximateHilbertTransform message in
  let carrier := map (fun t => Math_cos (2 * Math_PI * carrierFreq this * t)) timeArray in
  let carrierShifted := map (fun t => Math_sin (2 * Math_PI * carrierFreq this * t)) timeArray in
  let modulatedSignal :=
    mapi (fun t i => getNum message i * getNum carrier i
                     + getHole hilbertMessage i * getNum carrierShifted i)
         timeArray in
  noisySignal <-- liftRand (addNoise modulatedSignal (snr this)) ;;
  retG {| time := timeArray;
          realSignal := noisySignal;
          imagSignal := hilbertMessage;
          constellation := None |}.

Definition generateSSB (isLSB : bool) : Gen Signal :=
  timeArray <-- liftResult generateTimeArray ;;
  let message := generateVoiceLikeSignal timeArray in
  let hilbertMessage := approximateHilbertTransform message in
  let carrier := map (fun t => Math_cos (2 * Math_PI * carrierFreq this * t)) timeArray in
  let carrierShifted := map (fun t => Math_sin (2 * Math_PI * carrierFreq this * t)) timeArray in
  let modulatedSignal :=
    mapi (fun t i => getNum message i * getNum carrier i
                     + (if isLSB then -1 else 1) * getHole hilbertMessage i
                       * getNum carrierShifted i)
         timeArray in
  noisySignal <-- liftRand (addNoise modulatedSignal (snr this)) ;;
  retG {| time := timeArray;
          realSignal := noisySignal;
          imagSignal := hilbertMessage;
          constellation := None |}.

(** The [switch] of [generateSignal]; its [default] branch is
    [generateAM]. *)
Definition generateSignal (modulationType : string) : Gen Signal :=
  if String.eqb modulationType "am" then generateAM
  else if String.eqb modulationType "fm" then generateFM
  else if String.eqb modulationType "bpsk" then generateBPSK
  else if String.eqb modulationType "qpsk" then generateQPSK
  else if String.eqb modulationType "fsk" then generateFSK
  else if String.eqb modulationType "lsb" then generateLSB
  else if String.eqb modulationType "usb" then generateUSB
  else if String.eqb modulationType "ssb" then generateSSB false
  else generateAM.

(** *** computeFFT *)

Definition fftSize : nat := 1024.

(** The analysis window [fft]: filled with 0, then
    [fft[i] = signal[i * downsampleFactor]] where that index exists. *)
Definition fftWindow (signal : list float) : list float :=
  let downsampleFactor := (length signal / fftSize)%nat in
  tabulate fftSize (fun i =>
    let originalIndex := (i * downsampleFactor)%nat in
    if (originalIndex <? length signal)%nat then getNum signal originalIndex else 0).

(** Bin [k]: the sums [real] and [imag] over the window. *)
Definition dftBin (fft : list float) (k : nat) : float * float :=
  fold_left (fun acc n =>
               let angle := -2 * Math_PI * ofNat k * ofNat n / ofNat fftSize in
               (fst acc + getNum fft n * Math_cos angle,
                snd acc + getNum fft n * Math_sin angle))
            (seq 0 fftSize) (0, 0).

Record Spectrum : Type := { magnitude : list float; frequencies : list float }.

Definition computeFFT (signal : list float) : Spectrum :=
  let fft := fftWindow signal in
  {| magnitude :=
       tabulate (fftSize / 2) (fun k =>
         let (real, imag) := dftBin fft k in
         PrimFloat.sqrt (real * real + imag * imag) / ofNat fftSize);
     frequencies :=
       tabulate (fftSize / 2) (fun k => ofNat k * sampleRate this / ofNat fftSize) |}.

End Generator.

(** ** The signal analyser *)

(** The [params] object handed to [analyzeSignal]: the values read from
    the page, the same object [updateParameters] receives. *)
Record AnalysisParams : Type := {
  a_modulationType : string;
  a_carrierFreq : float;
  a_symbolRate : float;
  a_snr : float;
  a_messageFreq : float;
  a_frequencyDeviation : float
}.

Section Analyzer.

Context `{Engine}.
Local Open Scope float_scope.

(** The [switch] of [estimateBandwidth], which sets [bandwidth]. *)
Definition theoreticalBandwidth (modulationType : string) (symbolRate : float) : float :=
  if String.eqb modulationType "am" then 2 * orElse (Some symbolRate) 100
  else if String.eqb modulationType "fm" then 2 * (100 + orElse (Some symbolRate) 100)
  else if String.eqb modulationType "bpsk" || String.eqb modulationType "qpsk"
  then symbolRate
  else if String.eqb modulationType "fsk" then 2 * 100 + symbolRate
  else if String.eqb modulationType "lsb" || String.eqb modulationType "usb"
          || String.eqb modulationType "ssb"
  then orElse (Some symbolRate) 100
  else orElse (Some symbolRate) 100.

(** The loop of [estimateBandwidth] over the bins, from the state
    [(minFreq, maxFreq)]. *)
Definition spanLoop (threshold : float) (fftData : Spectrum) (start : float * float)
  : float * float :=
  fold_left (fun mm i =>
               if threshold <? getNum (magnitude fftData) i
               then (Math_min (fst mm) (getNum (frequencies fftData) i),
                     Math_max (snd mm) (getNum (frequencies fftData) i))
               else mm)
            (seq 0 (length (magnitude fftData))) start.

Definition measuredBandwidth (fftData : Spectrum) : float :=
  let peakMagnitude := Math_maxAll (magnitude fftData) in
  let threshold := peakMagnitude / 10 in
  let (minFreq, maxFreq) :=
    spanLoop threshold fftData
             (getNum (frequencies fftData) 0, getNum (frequencies fftData) 0) in
  maxFreq - minFreq.

(** [frequencies[frequencies.length - 1]] as a number. *)
Definition lastFrequency (fftData : Spectrum) : float :=
  match length (frequencies fftData) with
  | O => nan
  | S k => getNum (frequencies fftData) k
  end.

(** [fftData] is [None] for [null] or [undefined]. *)
Definition estimateBandwidth (fftData : option Spectrum) (modulationType : string)
    (symbolRate : float) : float :=
  let bandwidth := theoreticalBandwidth modulationType symbolRate in
  match fftData with
  | Some fftData =>
      let measured := measuredBandwidth fftData in
      if (0 <? measured) && (measured <? lastFrequency fftData / 2)
      then measured
      else bandwidth
  | None => bandwidth
  end.

(** The array [detrended]: indices below 4 and the last 4 stay holes. *)
Definition detrend (signal : list float) : list value :=
  let n := length signal in
  tabulate n (fun i =>
    if ((4 <=? i) && (i <? n - 4))%nat then
      let avg := (getNum signal (i - 4) + getNum signal (i - 2) + getNum signal i
                  + getNum signal (i + 2) + getNum signal (i + 4)) / 5 in
      Some (getNum signal i - avg)
    else None).

(** [arr.reduce((sum, val) => sum + val * val, 0)]: [reduce] skips
    holes. *)
Definition sumSquares (arr : list value) : float :=
  fold_left (fun sum v => match v with
                          | Some val => sum + val * val
                          | None => sum
                          end) arr 0.

(** The argument of [Math.log10] in [estimateSnr]. *)
Definition snrRatio (signal : list float) : float :=
  let signalPower := sumSquares (map Some signal) / ofNat (length signal) in
  let signalRms := PrimFloat.sqrt signalPower in
  let detrended := detrend signal in
  let noisePower := sumSquares detrended / ofNat (length detrended) in
  let noiseRms := PrimFloat.sqrt noisePower in
  signalRms / (noiseRms + 1e-10).

Definition estimateSnr (signal : list float) : float :=
  let snrDb := 20 * Math_log10 (snrRatio signal) in
  Math_max 0 (Math_min 30 snrDb).

(** The two estimates of [analyzeSignal], before they are formatted with
    [toFixed(1)]. *)
Definition analyzeSignal (signal : Signal) (fftData : option Spectrum)
    (params : AnalysisParams) : float * float :=
  let bandwidth := estimateBandwidth fftData (a_modulationType params) (a_symbolRate params) in
  let measuredSnr := estimateSnr (realSignal signal) in
  (bandwidth, measuredSnr).

End Analyzer.

(** *** The knowledge base and the insights text

    Strings are sequences of bytes, in UTF-8 as the source file has
    them. *)

(** An entry of [signalInfo]. *)
Record Info : Type := {
  name : string;
  description : string;
  bandwidth : string;
  applications : string;
  advantages : string;
  disadvantages : string
}.

Definition signalInfo : list (string * Info) :=
  [("am",
     {| name := "Amplitude Modulation (AM)";
        description := "Amplitude modulation varies the amplitude of the carrier wave in proportion to the message signal. It's one of the oldest and simplest modulation techniques.";
        bandwidth := "Twice the highest frequency in the message signal (2 × fm)";
        applications := "AM radio broadcasting (535-1705 kHz), aircraft communication";
        advantages := "Simple to implement and demodulate, requires less precise frequency control";
        disadvantages := "Inefficient power usage, susceptible to noise and interference" |});
   ("fm",
     {| name := "Frequency Modulation (FM)";
        description := "Frequency modulation varies the frequency of the carrier wave in proportion to the message signal, while keeping the amplitude constant.";
        bandwidth := "Typically 2 × (Δf + fm) where Δf is the peak frequency deviation and fm is the maximum message frequency";
        applications := "FM radio broadcasting (88-108 MHz), police and emergency services communications";
        advantages := "Better noise immunity than AM, higher fidelity audio reproduction";
        disadvantages := "Requires more bandwidth than AM, more complex demodulation" |});
   ("bpsk",
     {| name := "Binary Phase Shift Keying (BPSK)";
        description := "BPSK changes the phase of the carrier wave between two values (0° and 180°) to represent binary data (0s and 1s).";
        bandwidth := "Approximately equal to the symbol rate";
        applications := "Satellite communications, low-rate wireless systems, deep space telemetry";
        advantages := "Most power-efficient form of PSK, robust against noise and interference";
        disadvantages := "Low spectral efficiency (1 bit per symbol)" |});
   ("qpsk",
     {| name := "Quadrature Phase Shift Keying (QPSK)";
        description := "QPSK uses four different phase states (45°, 135°, 225°, and 315°) to represent dibits (00, 01, 10, 11).";
        bandwidth := "Approximately equal to the symbol rate";
        applications := "Satellite communications, cellular systems, Wi-Fi, cable modems";
        advantages := "Twice the data rate of BPSK for the same bandwidth, good balance of performance and complexity";
        disadvantages := "More sensitive to phase noise than BPSK" |});
   ("fsk",
     {| name := "Frequency Shift Keying (FSK)";
        description := "FSK varies the frequency of the carrier wave between two discrete values to represent binary data (0s and 1s).";
        bandwidth := "Approximately 2 × (Δf + symbol rate/2) where Δf is the frequency deviation";
        applications := "Low-frequency radio systems, RFID, early computer modems";
        advantages := "Simple implementation, robust against amplitude variations and distortion";
        disadvantages := "Less spectral efficiency compared to phase-based modulations" |});
   ("lsb",
     {| name := "Lower Sideband (LSB)";
        description := "LSB is a form of single-sideband modulation that transmits only the lower sideband of the AM signal, suppressing the carrier and upper sideband.";
        bandwidth := "Equal to the bandwidth of the message signal";
        applications := "Amateur radio voice communications, maritime and aviation communications";
        advantages := "More power-efficient than full AM, reduced bandwidth requirements";
        disadvantages := "More complex to generate and demodulate than AM" |});
   ("usb",
     {| name := "Upper Sideband (USB)";
        description := "USB is a form of single-sideband modulation that transmits only the upper sideband of the AM signal, suppressing the carrier and lower sideband.";
        bandwidth := "Equal to the bandwidth of the message signal";
        applications := "Amateur radio voice communications, military radio, shortwave broadcasting";
        advantages := "More power-efficient than full AM, reduced bandwidth requirements";
        disadvantages := "More complex to generate and demodulate than AM" |});
   ("ssb",
     {| name := "Single Sideband (SSB)";
        description := "SSB is a form of amplitude modulation that transmits only one sideband (either upper or lower) of the AM signal, suppressing the carrier and the other sideband.";
        bandwidth := "Equal to the bandwidth of the message signal";
        applications := "Amateur radio, maritime and aviation communications, point-to-point radio links";
        advantages := "Most power-efficient form of AM, halves the bandwidth requirement";
        disadvantages := "Requires more complex equipment, receiver must have accurate frequency control" |})]%string.

(** The members of [Object.prototype], which an object literal inherits:
    each is a function whose [name] is given here, except [__proto__],
    which yields the prototype object itself (an object without a
    [name]). *)
Definition Object_prototype : list (string * option string) :=
  [("constructor", Some "Object");
   ("__defineGetter__", Some "__defineGetter__");
   ("__defineSetter__", Some "__defineSetter__");
   ("hasOwnProperty", Some "hasOwnProperty");
   ("__lookupGetter__", Some "__lookupGetter__");
   ("__lookupSetter__", Some "__lookupSetter__");
   ("isPrototypeOf", Some "isPrototypeOf");
   ("propertyIsEnumerable", Some "propertyIsEnumerable");
   ("toString", Some "toString");
   ("valueOf", Some "valueOf");
   ("__proto__", None);
   ("toLocaleString", Some "toLocaleString")]%string.

(** What [obj[key]] finds: an own property, a member of
    [Object.prototype], or nothing ([undefined]). *)
Inductive property (A : Type) : Type :=
| Own (a : A)
| Inherited (fname : option string)
| Undefined.
Arguments Inherited {A} fname.
Arguments Undefined {A}.

Definition lookup {A : Type} (key : string) (obj : list (string * A)) : option A :=
  match find (fun kv => String.eqb (fst kv) key) obj with
  | Some kv => Some (snd kv)
  | None => None
  end.

(** [this.signalInfo[modulationType]]. *)
Definition getInfo (modulationType : string) : property Info :=
  match lookup modulationType signalInfo with
  | Some info => Own info
  | None =>
      match lookup modulationType Object_prototype with
      | Some fname => Inherited fname
      | None => Undefined
      end
  end.

(** [info.name], and [info.f] for another field [f] of an entry. *)
Definition getName (info : property Info) : option string :=
  match info with
  | Own i => Some (name i)
  | Inherited fname => fname
  | Undefined => None
  end.

Definition getField (f : Info -> string) (info : property Info) : option string :=
  match info with
  | Own i => Some (f i)
  | _ => None
  end.

(** [v || d] for a string [d]: the empty string and [undefined] are
    falsy. *)
Definition orElseString (v : option string) (d : string) : string :=
  match v with
  | Some EmptyString => d
  | Some s => s
  | None => d
  end.

(** [arr.includes(s)] for an array of strings. *)
Definition includes (arr : list string) (s : string) : bool :=
  existsb (String.eqb s) arr.

(** [modName] of [analyzeSignal], the reported signal type. *)
Definition modName (modulationType : string) : string :=
  orElseString (getName (getInfo modulationType)) "Unknown modulation".

Section Insights.

(** The text of a number in a template literal, [Number::toString]. *)
Variable Number_toString : float -> string.

Local Open Scope string_scope.

(** The text of a property in a template literal. *)
Definition template (v : option string) : string :=
  match v with
  | Some s => s
  | None => "undefined"
  end.

Definition generateInsights (modulationType : string) (carrierFreq symbolRate : float)
  : string :=
  match getInfo modulationType with
  | Undefined => "No information available for this modulation type."
  | info =>
      let insights :=
        "<strong>" ++ template (getName info) ++ "</strong>: "
        ++ template (getField description info) ++ "<br><br>" in
      let insights := insights ++ "<strong>Key Characteristics:</strong><br>" in
      let insights :=
        insights ++ "• Carrier Frequency: " ++ Number_toString carrierFreq ++ " Hz<br>" in
      let insights :=
        if includes ["bpsk"; "qpsk"; "fsk"] modulationType
        then insights ++ "• Symbol Rate: " ++ Number_toString symbolRate
                      ++ " symbols/second<br>"
        else insights ++ "• Message Frequency: " ++ Number_toString symbolRate
                      ++ " Hz<br>" in
      let insights :=
        insights ++ "• Theoretical Bandwidth: " ++ template (getField bandwidth info)
        ++ "<br><br>" in
      let insights :=
        insights ++ "<strong>Applications:</strong> "
        ++ template (getField applications info) ++ "<br><br>" in
      let insights :=
        insights ++ "<strong>Advantages:</strong> "
        ++ template (getField advantages info) ++ "<br>" in
      let insights :=
        insights ++ "<strong>Disadvantages:</strong> "
        ++ template (getField disadvantages info) ++ "<br>" in
      insights
  end.

End Insights.

(** ** The visualiser *)

(** [Math.min(...arr)]: [+Infinity] for no argument. *)
Definition Math_minAll (arr : list float) : float :=
  fold_left Math_min arr infinity.

(** [Math.min(j, top)] for an integer-valued [j] and an integer [top]. *)
Definition Math_minZ (j : jsint) (top : Z) : jsint :=
  match j with
  | JNaN => JNaN
  | JInf neg => if neg then JInf true else JZ top
  | JNegZero => if (top <? 0)%Z then JZ top else JNegZero
  | JZ z => JZ (Z.min z top)
  end.

(** A dataset of the waterfall chart. *)
Record Line : Type := {
  data : list point;
  borderColor : list (option string);
  borderWidth : float;
  fill : bool;
  pointRadius : float
}.

(** The data a [SignalVisualizer] holds: the [data] array of the single
    dataset of the time, frequency and constellation charts, and
    [waterfallData], which is also the [datasets] array of the waterfall
    chart once [updateWaterfallChart] has run. *)
Record SignalVisualizer : Type := {
  timeChart : list point;
  frequencyChart : list point;
  constellationChart : list point;
  waterfallData : list Line
}.

Definition maxWaterfallLines : nat := 20.

Definition colorScale : list string :=
  ["rgba(0, 0, 50, 1)";
   "rgba(0, 0, 100, 1)";
   "rgba(0, 0, 150, 1)";
   "rgba(0, 50, 150, 1)";
   "rgba(0, 100, 150, 1)";
   "rgba(50, 150, 150, 1)";
   "rgba(100, 200, 150, 1)";
   "rgba(150, 250, 150, 1)";
   "rgba(200, 250, 100, 1)";
   "rgba(250, 250, 50, 1)";
   "rgba(250, 200, 0, 1)";
   "rgba(250, 150, 0, 1)";
   "rgba(250, 100, 0, 1)";
   "rgba(250, 50, 0, 1)";
   "rgba(250, 0, 0, 1)"]%string.

(** The charts as [initializeCharts] creates them: no data. *)
Definition initializeCharts : SignalVisualizer :=
  {| timeChart := []; frequencyChart := []; constellationChart := [];
     waterfallData := [] |}.

(** An element of the page: its class list and its [style.display]. *)
Record Element : Type := { classes : list string; display : string }.

(** Whether an element has one of the classes of a selector
    ['.a, .b, ...']. *)
Definition selects (selector : list string) (el : Element) : bool :=
  existsb (fun c => existsb (String.eqb c) (classes el)) selector.

(** [document.querySelectorAll(selector).forEach(el => el.style.display = v)];
    the document is the list of its elements in document order. *)
Definition setDisplay (selector : list string) (v : string) (document : list Element)
  : list Element :=
  map (fun el => if selects selector el
                 then {| classes := classes el; display := v |} else el)
      document.

(** [document.querySelector(selector).style.display = v]: the first
    element selected; with none, [querySelector] returns [null] and the
    assignment raises a [TypeError]. *)
Fixpoint setFirstDisplay (selector : list string) (v : string) (document : list Element)
  : result (list Element) :=
  match document with
  | [] => Throws TypeError
  | el :: document' =>
      if selects selector el
      then Returns ({| classes := classes el; display := v |} :: document')
      else match setFirstDisplay selector v document' with
           | Returns d => Returns (el :: d)
           | Throws e => Throws e
           end
  end.

Section Visualizer.

Context `{Engine}.
Local Open Scope float_scope.

(** The loop of [updateTimeChart] from index [i]; [None] when [fuel]
    iterations do not end it. *)
Fixpoint timeLoop (signal : Signal) (downsampleFactor fuel i : nat) : option (list point) :=
  if (i <? length (time signal))%nat then
    match fuel with
    | O => None
    | S fuel' =>
        match timeLoop signal downsampleFactor fuel' (i + downsampleFactor) with
        | Some timeData =>
            Some ({| x := nth_error (time signal) i;
                     y := nth_error (realSignal signal) i |} :: timeData)
        | None => None
        end
    end
  else Some [].

(** [downsampleFactor] is at least 1, so [signal.time.length] iterations
    are enough fuel. *)
Definition updateTimeChart (this : SignalVisualizer) (signal : Signal)
  : option SignalVisualizer :=
  let downsampleFactor := Nat.max 1 (length (time signal) / 1000) in
  match timeLoop signal downsampleFactor (length (time signal)) 0 with
  | Some timeData =>
      Some {| timeChart := timeData;
              frequencyChart := frequencyChart this;
              constellationChart := constellationChart this;
              waterfallData := waterfallData this |}
  | None => None
  end.

Definition updateFrequencyChart (this : SignalVisualizer) (fftData : Spectrum)
  : SignalVisualizer :=
  let freqData :=
    mapi (fun mag i =>
            let magnitudeDb := 20 * Math_log10 (Math_max mag 1e-6) in
            {| x := nth_error (frequencies fftData) i; y := Some magnitudeDb |})
         (magnitude fftData) in
  {| timeChart := timeChart this;
     frequencyChart := freqData;
     constellationChart := constellationChart this;
     waterfallData := waterfallData this |}.

(** [constellation] is [None] for [null]; an array, even an empty one, is
    truthy. *)
Definition updateConstellationChart (this : SignalVisualizer) (document : list Element)
    (constellation : option (list point)) : result (SignalVisualizer * list Element) :=
  match constellation with
  | None =>
      match setFirstDisplay ["digital-modulation"%string] "none" document with
      | Returns document' => Returns (this, document')
      | Throws e => Throws e
      end
  | Some constellation =>
      match setFirstDisplay ["digital-modulation"%string] "block" document with
      | Returns document' =>
          let points := map (fun point => {| x := x point; y := y point |}) constellation in
          Returns ({| timeChart := timeChart this;
                      frequencyChart := frequencyChart this;
                      constellationChart := points;
                      waterfallData := waterfallData this |}, document')
      | Throws e => Throws e
      end
  end.

Definition getColorGradient (magnitudes : list float) : list (option string) :=
  let max := Math_maxAll magnitudes in
  let min := Math_minAll magnitudes in
  let range := orElse (Some (max - min)) 1 in
  let normalizedMags := map (fun mag => (mag - min) / range) magnitudes in
  map (fun normMag =>
         let colorIndex :=
           Math_minZ (Math_floor (normMag * ofNat (length colorScale)))
                     (Z.of_nat (length colorScale) - 1) in
         getAt colorScale colorIndex)
      normalizedMags.

Definition updateWaterfallChart (this : SignalVisualizer) (fftData : Spectrum)
  : SignalVisualizer :=
  let colors := getColorGradient (magnitude fftData) in
  let unshifted :=
    {| data := mapi (fun mag i => {| x := nth_error (frequencies fftData) i; y := Some 0 |})
                    (magnitude fftData);
       borderColor := colors;
       borderWidth := 2;
       fill := false;
       pointRadius := 0 |} :: waterfallData this in
  let kept :=
    if (maxWaterfallLines <? length unshifted)%nat
    then firstn maxWaterfallLines unshifted else unshifted in
  let stacked :=
    mapi (fun line i =>
            let yVal := ofNat i / ofNat (length kept - 1) in
            {| data := map (fun point => {| x := x point; y := Some yVal |}) (data line);
               borderColor := borderColor line;
               borderWidth := borderWidth line;
               fill := fill line;
               pointRadius := pointRadius line |})
         kept in
  {| timeChart := timeChart this;
     frequencyChart := frequencyChart this;
     constellationChart := constellationChart this;
     waterfallData := stacked |}.

(** [updateCharts]: the four updates in turn.  [None] stands for a time
    loop that does not end; an exception leaves the charts updated before
    it as they are. *)
Definition updateCharts (this : SignalVisualizer) (document : list Element)
    (signal : Signal) (fftData : Spectrum)
  : option (SignalVisualizer * list Element * option exn) :=
  match updateTimeChart this signal with
  | None => None
  | Some this1 =>
      let this2 := updateFrequencyChart this1 fftData in
      match updateConstellationChart this2 document (constellation signal) with
      | Throws e => Some (this2, document, Some e)
      | Returns (this3, document') =>
          Some (updateWaterfallChart this3 fftData, document', None)
      end
  end.

End Visualizer.

(** ** The page *)

Definition digitalModulations : list string := ["bpsk"; "qpsk"; "fsk"]%string.

(** [updateModulationControls], for the value [modulationType] of the
    selector. *)
Definition updateModulationControls (modulationType : string) (document : list Element)
  : list Element :=
  let document := setDisplay ["modulation-specific"%string] "none" document in
  let document :=
    if String.eqb modulationType "am" || String.eqb modulationType "fm"
    then setDisplay ["am-controls"; "fm-controls"]%string "block" document
    else if String.eqb modulationType "fsk"
    then setDisplay ["fsk-controls"%string] "block" document
    else document in
  setDisplay ["digital-modulation"%string]
             (if includes digitalModulations modulationType then "block" else "none")
             document.

(** What [generateAndDisplaySignal] reads from the controls of the page.
    Each number is what [parseFloat] makes of the control's text, [NaN]
    when the text starts with no number; [frequency_deviation] is [None]
    when the control is missing or its text is empty, the cases in which
    [|| 100] supplies 100. *)
Record Controls : Type := {
  modulation_type : string;
  carrier_frequency : float;
  symbol_rate : float;
  snr_value : float;
  modulation_index : float;
  message_frequency : float;
  frequency_deviation : option float
}.

(** The object [params], as [updateParameters] and as [analyzeSignal]
    read it. *)
Definition paramsOf (controls : Controls) : Params :=
  {| p_carrierFreq := Some (carrier_frequency controls);
     p_symbolRate := Some (symbol_rate controls);
     p_snr := Some (snr_value controls);
     p_modulationIndex := Some (modulation_index controls / 100)%float;
     p_messageFreq := Some (message_frequency controls);
     p_frequencyDeviation :=
       Some (match frequency_deviation controls with
             | Some v => v
             | None => 100%float
             end) |}.

Definition analysisParamsOf (controls : Controls) : AnalysisParams :=
  {| a_modulationType := modulation_type controls;
     a_carrierFreq := carrier_frequency controls;
     a_symbolRate := symbol_rate controls;
     a_snr := snr_value controls;
     a_messageFreq := message_frequency controls;
     a_frequencyDeviation :=
       match frequency_deviation controls with
       | Some v => v
       | None => 100%float
       end |}.

(** The texts of the four result elements of the page. *)
Record Results : Type := {
  signal_type_result : string;
  bandwidth_result : string;
  snr_result : string;
  educational_insights : string
}.

(** The state the handler works on: the three objects created when the
    page is loaded, the elements of the page and the result texts. *)
Record Page : Type := {
  signalGenerator : SignalGenerator;
  visualizer : SignalVisualizer;
  elements : list Element;
  results : Results
}.

Section Handler.

Context `{Engine}.

(** [Number::toString] and [Number.prototype.toFixed(1)]. *)
Variable Number_toString : float -> string.
Variable Number_toFixed1 : float -> string.

(** The object [analyzeSignal] returns, written to the result elements. *)
Definition analysisResults (signal : Signal) (fftData : Spectrum) (controls : Controls)
  : Results :=
  let params := analysisParamsOf controls in
  let (bandwidth, measuredSnr) := analyzeSignal signal (Some fftData) params in
  {| signal_type_result := modName (a_modulationType params);
     bandwidth_result := (Number_toFixed1 bandwidth ++ " Hz")%string;
     snr_result := (Number_toFixed1 measuredSnr ++ " dB")%string;
     educational_insights :=
       generateInsights Number_toString (a_modulationType params)
                        (a_carrierFreq params) (a_symbolRate params) |}.

(** [generateAndDisplaySignal]: the page after the handler, and the
    exception that ended it if one was raised.  [None] stands for a time
    loop that does not end. *)
Definition generateAndDisplaySignal (page : Page) (controls : Controls)
  : Rand (option (Page * option exn)) :=
  fun k0 =>
    let signalGenerator := updateParameters (signalGenerator page) (paramsOf controls) in
    match generateSignal signalGenerator (modulation_type controls) k0 with
    | (Throws e, k1) =>
        (Some ({| signalGenerator := signalGenerator;
                  visualizer := visualizer page;
                  elements := elements page;
                  results := results page |}, Some e), k1)
    | (Returns signal, k1) =>
        let fftData := computeFFT signalGenerator (realSignal signal) in
        match updateCharts (visualizer page) (elements page) signal fftData with
        | None => (None, k1)
        | Some (visualizer', elements', Some e) =>
            (Some ({| signalGenerator := signalGenerator;
                      visualizer := visualizer';
                      elements := elements';
                      results := results page |}, Some e), k1)
        | Some (visualizer', elements', None) =>
            (Some ({| signalGenerator := signalGenerator;
                      visualizer := visualizer';
                      elements := elements';
                      results := analysisResults signal fftData controls |}, None), k1)
        end
    end.

End Handler.

(** * The vocabulary of the properties *)

(** ** Numbers *)

(** A number that is neither [NaN] nor an infinity. *)
Definition finiteNum (a : float) : bool :=
  match Prim2SF a with
  | S754_zero _ | S754_finite _ _ _ => true
  | S754_infinity _ | S754_nan => false
  end.

(** The sign bit is clear, or the value is [NaN]. *)
Definition sfNonNegative (a : spec_float) : Prop :=
  match a with
  | S754_nan => True
  | S754_zero s | S754_infinity s | S754_finite s _ _ => s = false
  end.

(** A magnitude is never negative: it is [NaN] or at least 0. *)
Definition nonNegativeOrNaN (a : float) : Prop :=
  PrimFloat.is_nan a = true \/ (0 <=? a)%float = true.

(** Strictly increasing, checked on every pair. *)
Fixpoint increasingb (l : list float) : bool :=
  match l with
  | [] => true
  | a :: l' => forallb (fun b => a <? b)%float l' && increasingb l'
  end.

(** Every element is below every later one. *)
Definition strictlyIncreasing (l : list float) : Prop :=
  StronglySorted (fun a b => (a <? b)%float = true) l.

(** ** Generators and signals *)

(** The generators reached from [new SignalGenerator()] by calls of
    [updateParameters]. *)
Inductive reachable : SignalGenerator -> Prop :=
| reachable_new : reachable constructor
| reachable_update this params :
    reachable this -> reachable (updateParameters this params).

(** A generator whose symbol rate was set to 1000 baud. *)
Definition generator1000 : SignalGenerator :=
  updateParameters constructor
    {| p_carrierFreq := None; p_symbolRate := Some 1000%float; p_snr := None;
       p_modulationIndex := None; p_messageFreq := None; p_frequencyDeviation := None |}.

(** A generator whose symbol rate was set above the sample rate. *)
Definition generator50000 : SignalGenerator :=
  updateParameters constructor
    {| p_carrierFreq := None; p_symbolRate := Some 50000%float; p_snr := None;
       p_modulationIndex := None; p_messageFreq := None; p_frequencyDeviation := None |}.

(** The kinds [generateSignal] has a case for. *)
Definition knownKinds : list string :=
  ["am"; "fm"; "bpsk"; "qpsk"; "fsk"; "lsb"; "usb"; "ssb"]%string.


(** The kinds that produce a constellation. *)
Definition symbolKinds : list string := ["bpsk"; "qpsk"; "fsk"]%string.

(** The three sequences of a signal have [n] elements each. *)
Definition wellFormed (n : nat) (sig : Signal) : Prop :=
  length (time sig) = n /\ length (realSignal sig) = n /\ length (imagSignal sig) = n.

(** Every element of the imaginary sequence is the number 0. *)
Definition zeroImag (sig : Signal) : Prop :=
  Forall (fun v => v = Some 0%float) (imagSignal sig).

(** A valid parameter set: [numSamples] is [sampleRate * duration] and an
    array length [n], and a symbol spans [k >= 1] samples. *)
Definition validParameters (this : SignalGenerator) (n : nat) (k : Z) : Prop :=
  numSamples this = (sampleRate this * duration this)%float
  /\ arrayLength (numSamples this) = Returns n
  /\ samplesPerSymbol this = JZ k /\ (1 <= k)%Z.

(** A valid parameter set for one kind: the symbol-based kinds alone need
    a symbol of at least one sample. *)
Definition validFor (modulationType : string) (this : SignalGenerator) (n : nat) : Prop :=
  numSamples this = (sampleRate this * duration this)%float
  /\ arrayLength (numSamples this) = Returns n
  /\ (In modulationType symbolKinds ->
      exists k, samplesPerSymbol this = JZ k /\ (1 <= k)%Z).

(** A BPSK constellation point: [x] is 1 or -1 and [y] is 0. *)
Definition bpskPoint (p : point) : Prop :=
  (x p = Some 1%float \/ x p = Some (-1)%float) /\ y p = Some 0%float.

(** What the three single-sideband generators return. *)
Definition allNaN (n : nat) (sig : Signal) : Prop :=
  wellFormed n sig
  /\ Forall (fun v => v = nan) (realSignal sig)
  /\ forall i, (i < 3)%nat -> (i < n)%nat -> nth_error (imagSignal sig) i = Some None.

Section Samples.

Context `{Engine}.
Variable this : SignalGenerator.
Local Open Scope float_scope.

(** [timeArray[i]]. *)
Definition sampleTime (i : nat) : float := ofNat i / sampleRate this.

(** The noise added to sample [i] when [kb] draws were made before
    [addNoise] started. *)
Definition noiseAt (amplitude : float) (kb i : nat) : float :=
  boxMuller amplitude (Math_random (kb + 2 * i)) (Math_random (kb + 2 * i + 1)).

(** The carrier at sample [i]. *)
Definition carrierAt (freq : float) (i : nat) : float :=
  Math_cos (2 * Math_PI * freq * sampleTime i).

(** The quadrature carrier at sample [i]. *)
Definition carrierShiftedAt (freq : float) (i : nat) : float :=
  Math_sin (2 * Math_PI * freq * sampleTime i).

End Samples.

(** An engine made of constant functions wherever ECMAScript leaves the
    result to the implementation; it serves to instantiate statements at
    concrete inputs. *)
Definition flatEngine : Engine :=
  {| Math_cos := fun _ => 1%float;
     Math_sin := fun _ => 0%float;
     Math_log := fun u => if PrimFloat.is_zero u then neg_infinity else (-1)%float;
     Math_log10 := fun u => if PrimFloat.is_nan u then nan else 1%float;
     Math_pow := fun _ _ => 100%float;
     Math_random := fun _ => 0.25%float;
     Math_random_range := fun _ => conj eq_refl eq_refl;
     Math_log_zero := eq_refl;
     Math_log10_nan := eq_refl |}.

(** ** The analyser as the specification words it *)

(** The ratio as the specification words it: the RMS of the residual is
    taken over the residual sequence itself, which leaves out the samples
    within 4 of either edge. *)
Definition snrRatioSpec (signal : list float) : float :=
  let signalRms :=
    PrimFloat.sqrt (sumSquares (map Some signal) / ofNat (length signal)) in
  let residual :=
    filter (fun v : value => match v with Some _ => true | None => false end)
           (detrend signal) in
  let residualRms :=
    PrimFloat.sqrt (sumSquares residual / ofNat (length residual)) in
  (signalRms / (residualRms + 1e-10))%float.

(** The per-kind formula as the specification states it, from the message
    frequency, the frequency deviation and the symbol rate. *)
Definition theoreticalBandwidthSpec (modulationType : string)
    (messageFreq deviation symbolRate : float) : float :=
  if String.eqb modulationType "am" then (2 * messageFreq)%float
  else if String.eqb modulationType "fm" then (2 * (deviation + messageFreq))%float
  else if String.eqb modulationType "bpsk" || String.eqb modulationType "qpsk"
  then symbolRate
  else if String.eqb modulationType "fsk" then (2 * deviation + symbolRate)%float
  else messageFreq.

(** The measured span as the specification states it: the largest minus
    the smallest frequency over exactly the bins above the threshold. *)
Definition measuredBandwidthSpec (fftData : Spectrum) : float :=
  let threshold := (Math_maxAll (magnitude fftData) / 10)%float in
  let above :=
    flat_map (fun i => if (threshold <? getNum (magnitude fftData) i)%float
                       then [getNum (frequencies fftData) i] else [])
             (seq 0 (length (magnitude fftData))) in
  match above with
  | [] => nan
  | f :: fs => (fold_left Math_max fs f - fold_left Math_min fs f)%float
  end.

(** A spectrum on the bins of [computeFFT] with a peak in bins 23 and 24
    (990.5 Hz and 1033.6 Hz) and nothing elsewhere. *)
Definition peakSpectrum : Spectrum :=
  {| magnitude :=
       tabulate 512 (fun k => if ((k =? 23) || (k =? 24))%nat then 1%float else 0%float);
     frequencies := tabulate 512 (fun k => (ofNat k * 44100 / 1024)%float) |}.

(** ** Edge cases *)

(** A generator whose symbol rate was set to a negative value. *)
Definition generatorNegative : SignalGenerator :=
  updateParameters constructor
    {| p_carrierFreq := None; p_symbolRate := Some (-100)%float; p_snr := None;
       p_modulationIndex := None; p_messageFreq := None; p_frequencyDeviation := None |}.

(** A QPSK constellation point: each coordinate is [1/sqrt 2] or
    [-1/sqrt 2]. *)
Definition qpskPoint (p : point) : Prop :=
  (x p = Some (1 / PrimFloat.sqrt 2)%float \/ x p = Some (-1 / PrimFloat.sqrt 2)%float)
  /\ (y p = Some (1 / PrimFloat.sqrt 2)%float \/ y p = Some (-1 / PrimFloat.sqrt 2)%float).

(** The bits [generateBPSK] draws when [k0] calls of [Math.random()] were
    made before it: bit [j] is 1 when draw [k0 + j] exceeds 0.5, and -1
    otherwise. *)
Definition drawnBits `{Engine} (k0 len : nat) : list float :=
  map (fun j => if (0.5 <? Math_random (k0 + j))%float then 1%float else (-1)%float)
      (seq 0 len).

(** The BPSK signal before noise: sample [i] is its bit times the
    carrier. *)
Definition bpskSignal `{Engine} (this : SignalGenerator) (bits : list float) (n : nat)
    : list float :=
  tabulate n (fun i => (toNumber (symbolAt this bits 1%float i)
                        * carrierAt this (carrierFreq this) i)%float).

(** A zero of either sign. *)
Definition isZero (a : float) : Prop := exists s, Prim2SF a = S754_zero s.

(** The largest frequency whose magnitude exceeds a tenth of the peak, and
    0 when there is none. *)
Definition highestAbove (fftData : Spectrum) : float :=
  let threshold := (Math_maxAll (magnitude fftData) / 10)%float in
  fold_left (fun maxFreq i =>
               if (threshold <? getNum (magnitude fftData) i)%float
               then Math_max maxFreq (getNum (frequencies fftData) i)
               else maxFreq)
            (seq 0 (length (magnitude fftData))) 0%float.

(** The angle of bin [k] at sample [n] of the DFT. *)
Definition dftAngle (k n : nat) : float :=
  (-2 * Math_PI * ofNat k * ofNat n / ofNat fftSize)%float.

(** The engine's cosine and sine of a finite angle are finite. *)
Definition finiteTrig (E : Engine) : Prop :=
  forall a, finiteNum a = true ->
    finiteNum (Math_cos a) = true /\ finiteNum (Math_sin a) = true.

(** A page with a parameter row for FSK and the constellation panel. *)
Definition samplePage : list Element :=
  [{| classes := ["modulation-specific"; "fsk-controls"]%string; display := ""%string |};
   {| classes := ["digital-modulation"]%string; display := ""%string |}].

(** A page without constellation panel. *)
Definition barePage : list Element :=
  [{| classes := ["modulation-specific"; "fsk-controls"]%string; display := ""%string |}].

(** The page as it is loaded, before the first signal. *)
Definition loadedPage : Page :=
  {| signalGenerator := constructor;
     visualizer := initializeCharts;
     elements := samplePage;
     results := {| signal_type_result := ""; bandwidth_result := "";
                   snr_result := ""; educational_insights := "" |} |}.

(** Controls left at the defaults of the generator, for AM. *)
Definition controlsAM : Controls :=
  {| modulation_type := "am"; carrier_frequency := 1000; symbol_rate := 100;
     snr_value := 20; modulation_index := 50; message_frequency := 100;
     frequency_deviation := None |}.

(** BPSK at 50000 baud, above the sample rate. *)
Definition controlsFast : Controls :=
  {| modulation_type := "bpsk"; carrier_frequency := 1000; symbol_rate := 50000;
     snr_value := 20; modulation_index := 50; message_frequency := 100;
     frequency_deviation := None |}.

(** BPSK with the symbol rate field emptied. *)
Definition controlsBlank : Controls :=
  {| modulation_type := "bpsk"; carrier_frequency := 1000; symbol_rate := nan;
     snr_value := 20; modulation_index := 50; message_frequency := 100;
     frequency_deviation := None |}.

(** * Properties *)

(** ** Binary64 facts

    Read off the specification of the primitive operations
    ([mul_spec], [add_spec], ...). *)

Lemma Prim2SF_nan : Prim2SF nan = S754_nan.
Proof. reflexivity. Qed.

Lemma mul_nan_l (a : float) : (nan * a)%float = nan.
Proof. apply Prim2SF_inj. rewrite FloatAxioms.mul_spec, Prim2SF_nan. reflexivity. Qed.

Lemma mul_nan_r (a : float) : (a * nan)%float = nan.
Proof.
  apply Prim2SF_inj. rewrite FloatAxioms.mul_spec, Prim2SF_nan. now destruct (Prim2SF a).
Qed.

Lemma add_nan_l (a : float) : (nan + a)%float = nan.
Proof. apply Prim2SF_inj. rewrite FloatAxioms.add_spec, Prim2SF_nan. reflexivity. Qed.

Lemma add_nan_r (a : float) : (a + nan)%float = nan.
Proof.
  apply Prim2SF_inj. rewrite FloatAxioms.add_spec, Prim2SF_nan. now destruct (Prim2SF a).
Qed.

Lemma sub_nan_r (a : float) : (a - nan)%float = nan.
Proof.
  apply Prim2SF_inj. rewrite FloatAxioms.sub_spec, Prim2SF_nan. now destruct (Prim2SF a).
Qed.

Lemma div_nan_l (a : float) : (nan / a)%float = nan.
Proof. apply Prim2SF_inj. rewrite FloatAxioms.div_spec, Prim2SF_nan. reflexivity. Qed.

Lemma mul_not_finite_l (a b : float) :
  finiteNum a = false -> finiteNum (a * b)%float = false.
Proof.
  unfold finiteNum. rewrite FloatAxioms.mul_spec.
  destruct (Prim2SF a); try discriminate; now destruct (Prim2SF b).
Qed.

Lemma mul_not_finite_r (a b : float) :
  finiteNum b = false -> finiteNum (a * b)%float = false.
Proof.
  unfold finiteNum. rewrite FloatAxioms.mul_spec.
  destruct (Prim2SF b); try discriminate; now destruct (Prim2SF a).
Qed.

Lemma add_not_finite_r (a b : float) :
  finiteNum b = false -> finiteNum (a + b)%float = false.
Proof.
  unfold finiteNum. rewrite FloatAxioms.add_spec.
  destruct (Prim2SF b) as [| [|] | |]; try discriminate;
    now destruct (Prim2SF a) as [| [|] | |].
Qed.

Lemma binary_round_aux_sign (m e : Z) (l : location) :
  sfNonNegative (binary_round_aux prec emax false m e l).
Proof.
  unfold binary_round_aux.
  destruct (shr_fexp prec emax m e l) as [mrs' e'].
  destruct (shr_fexp prec emax _ e' loc_Exact) as [mrs'' e''].
  destruct (shr_m mrs''); simpl; auto.
  destruct (e'' <=? 971)%Z; simpl; auto.
Qed.

Lemma SF64mul_square_sign (a : spec_float) : sfNonNegative (SF64mul a a).
Proof.
  destruct a as [s|s| |s m e]; simpl; auto; try (now destruct s).
  unfold SF64mul, SFmul. rewrite xorb_nilpotent. apply binary_round_aux_sign.
Qed.

Lemma SF64add_sign (a b : spec_float) :
  sfNonNegative a -> sfNonNegative b -> sfNonNegative (SF64add a b).
Proof.
  destruct a as [sa|sa| |sa ma ea]; destruct b as [sb|sb| |sb mb eb]; simpl;
    intros Ha Hb; subst; simpl; auto.
  unfold SF64add, SFadd. cbn [cond_Zopp Z.add binary_normalize].
  unfold binary_round.
  destruct (shl_align _ _ _) as [mz ez]. apply binary_round_aux_sign.
Qed.

Lemma SF64sqrt_sign (a : spec_float) :
  sfNonNegative a -> sfNonNegative (SF64sqrt a).
Proof.
  destruct a as [s|s| |s m e]; simpl; intros Ha; subst; simpl; auto.
  unfold SF64sqrt, SFsqrt.
  destruct (SFsqrt_core_binary prec emax (Z.pos m) e) as [[mz ez] lz].
  apply binary_round_aux_sign.
Qed.

Lemma SF64div_sign (a : spec_float) (mb : positive) (eb : Z) :
  sfNonNegative a -> sfNonNegative (SF64div a (S754_finite false mb eb)).
Proof.
  destruct a as [s|s| |s m e]; simpl; intros Ha; subst; simpl; auto.
  unfold SF64div, SFdiv.
  destruct (SFdiv_core_binary prec emax (Z.pos m) e (Z.pos mb) eb) as [[mz ez] lz].
  apply binary_round_aux_sign.
Qed.

Lemma sfNonNegative_float (a : float) :
  sfNonNegative (Prim2SF a) -> nonNegativeOrNaN a.
Proof.
  unfold nonNegativeOrNaN, PrimFloat.is_nan. rewrite FloatAxioms.eqb_spec, FloatAxioms.leb_spec.
  change (Prim2SF 0) with (S754_zero false).
  destruct (Prim2SF a) as [s|s| |s m e]; simpl; intros Ha; subst; auto.
Qed.

(** *** Multiplication by 4 below 1 *)

Lemma digits2_pos_upper (p : positive) : (Z.pos p < 2 ^ Z.pos (digits2_pos p))%Z.
Proof.
  induction p as [p IH|p IH|]; cbn [digits2_pos]; try (simpl; lia);
    rewrite Pos2Z.inj_succ, Z.pow_succ_r by lia; lia.
Qed.

(** The product of a finite number below 1 with 4 is exact: the mantissa
    is kept, or shifted by one or two bits for a subnormal. *)
Lemma times4_exact (m : positive) (e : Z) :
  bounded prec emax m e = true ->
  (e <= -52)%Z ->
  exists m' e',
    SF64mul (S754_finite false m e) (S754_finite false 4503599627370496 (-50))
    = S754_finite false m' e'
    /\ (   (m' = m /\ e' = e + 2)
        \/ (m' = xO m /\ e' = -1073 /\ e = -1074)
        \/ (m' = xO (xO m) /\ e' = -1074 /\ e = -1074))%Z.
Proof.
  intros Hb He.
  unfold bounded, canonical_mantissa, fexp in Hb.
  apply andb_prop in Hb as [Hc _]. apply Z.eqb_eq in Hc.
  change (SpecFloat.emin prec emax) with (-1074)%Z in Hc. change prec with 53%Z in Hc.
  unfold SF64mul, SFmul. rewrite Pos.mul_comm. cbn [xorb Pos.mul].
  unfold binary_round_aux, shr_fexp, fexp.
  change (SpecFloat.emin prec emax) with (-1074)%Z. change prec with 53%Z.
  change emax with 1024%Z.
  cbn [Zdigits2 digits2_pos].
  rewrite !Pos2Z.inj_succ.
  set (d := Z.pos (digits2_pos m)) in *.
  assert (Hd : (1 <= d)%Z) by (subst d; lia).
  assert (Hdd : forall p, Z.pos (digits2_pos (xO p)) = Z.succ (Z.pos (digits2_pos p)))
    by (intros; cbn [digits2_pos]; apply Pos2Z.inj_succ).
  assert (Hn : ((d = 53 /\ -1074 <= e)
               \/ (d = 52 /\ e = -1074) \/ (d <= 51 /\ e = -1074))%Z) by lia.
  destruct Hn as [[Hd53 Hlo] | [[Hd52 He'] | [Hd51 He']]].
  - match goal with |- context [shr _ _ ?n] => assert (Hs : n = 52%Z) end.
    { clear Hdd. clearbody d. subst d. repeat rewrite <- Z.add_1_r.
      lia. }
    rewrite Hs.
    cbn [shr shr_record_of_loc SpecFloat.iter_pos shr_1 orb shr_m loc_of_shr_record
         round_nearest_even Zdigits2].
    fold d; rewrite ?Hdd; fold d. replace (Z.max _ _ - _)%Z with 0%Z by lia.
    cbn [shr shr_m].
    replace (e + -50 + 52 <=? 1024 - 53)%Z with true by (symmetry; apply Z.leb_le; lia).
    exists m, (e + -50 + 52)%Z. split; [reflexivity|]. left. split; [reflexivity | lia].
  - replace (Z.max _ _ - (e + -50))%Z with 51%Z by lia.
    cbn [shr shr_record_of_loc SpecFloat.iter_pos shr_1 orb shr_m loc_of_shr_record
         round_nearest_even Zdigits2 digits2_pos].
    rewrite ?Pos2Z.inj_succ. fold d. replace (Z.max _ _ - _)%Z with 0%Z by lia.
    cbn [shr shr_m].
    replace (e + -50 + 51 <=? 1024 - 53)%Z with true by (symmetry; apply Z.leb_le; lia).
    exists (xO m), (e + -50 + 51)%Z. split; [reflexivity|]. right; left. lia.
  - replace (Z.max _ _ - (e + -50))%Z with 50%Z by lia.
    cbn [shr shr_record_of_loc SpecFloat.iter_pos shr_1 orb shr_m loc_of_shr_record
         round_nearest_even Zdigits2 digits2_pos].
    rewrite ?Pos2Z.inj_succ. fold d. replace (Z.max _ _ - _)%Z with 0%Z by lia.
    cbn [shr shr_m].
    replace (e + -50 + 50 <=? 1024 - 53)%Z with true by (symmetry; apply Z.leb_le; lia).
    exists (xO (xO m)), (e + -50 + 50)%Z. split; [reflexivity|]. right; right. lia.
Qed.

Lemma shiftl_below_4 (m : positive) (e k : Z) :
  (e < 0)%Z -> (0 <= k)%Z -> (k <= - e)%Z -> (Z.pos m < 2 ^ k * 4)%Z ->
  (0 <= Z.shiftl (Z.pos m) e <= 3)%Z.
Proof.
  intros He Hk Hke Hm. split; [apply Z.shiftl_nonneg; lia|].
  rewrite Z.shiftl_div_pow2 by lia.
  assert (Hpow : (2 ^ k * 4 <= 2 ^ (- e) * 4)%Z).
  { apply Z.mul_le_mono_nonneg_r; [lia|]. apply Z.pow_le_mono_r; lia. }
  assert (Hlt : (Z.pos m / 2 ^ (- e) < 4)%Z).
  { apply Z.div_lt_upper_bound; [apply Z.pow_pos_nonneg; lia | lia]. }
  lia.
Qed.

Lemma floor_times4_range (u : float) :
  (0 <=? u)%float = true -> (u <? 1)%float = true ->
  Math_floor (u * 4) = JNegZero
  \/ exists z, Math_floor (u * 4) = JZ z /\ (0 <= z <= 3)%Z.
Proof.
  unfold Math_floor. rewrite FloatAxioms.leb_spec, FloatAxioms.ltb_spec, FloatAxioms.mul_spec.
  change (Prim2SF 4) with (S754_finite false 4503599627370496 (-50)).
  change (Prim2SF 0) with (S754_zero false).
  change (Prim2SF 1) with (S754_finite false 4503599627370496 (-52)).
  pose proof (Prim2SF_valid u) as Hv.
  destruct (Prim2SF u) as [s|s| |s m e].
  - intros _ _. destruct s; simpl; [left; reflexivity | right; exists 0%Z; split; [reflexivity | lia]].
  - destruct s; discriminate.
  - discriminate.
  - destruct s; [discriminate|]. intros _ Hlt.
    unfold SFltb, SFcompare in Hlt.
    assert (Hrange : (e < -52 \/ (e = -52 /\ Z.pos m < 4503599627370496))%Z).
    { destruct (Z.compare_spec e (-52)) as [He|He|He].
      - right. split; [exact He|].
        destruct (Pos.compare_cont Eq m 4503599627370496) eqn:Hcmp;
          [discriminate Hlt | | discriminate Hlt].
        apply Pos2Z.pos_lt_pos. exact Hcmp.
      - left. exact He.
      - discriminate Hlt. }
    clear Hlt.
    unfold valid_binary in Hv.
    destruct (@times4_exact m e Hv ltac:(lia)) as (m' & e' & Hmul & Hcases).
    change (SFmul prec emax) with SF64mul. rewrite Hmul.
    right. eexists; split; [reflexivity|].
    unfold bounded, canonical_mantissa, fexp in Hv.
    apply andb_prop in Hv as [Hc _]. apply Z.eqb_eq in Hc.
    change (SpecFloat.emin prec emax) with (-1074)%Z in Hc. change prec with 53%Z in Hc.
    pose proof (digits2_pos_upper m) as Hm.
    assert (Hm53 : (Z.pos m < 2 ^ 53)%Z).
    { eapply Z.lt_le_trans; [exact Hm|]. apply Z.pow_le_mono_r; lia. }
    destruct Hcases as [[-> ->] | [[-> [-> He']] | [-> [-> He']]]].
    + destruct Hrange as [He | [-> Hm52]].
      * apply shiftl_below_4 with (k := 51%Z); lia.
      * apply shiftl_below_4 with (k := 50%Z); lia.
    + apply shiftl_below_4 with (k := 52%Z); lia.
    + apply shiftl_below_4 with (k := 53%Z); lia.
Qed.

(** Every draw of [Math.random()] gives one of the four dibits of
    [generateQPSK]. *)
Lemma qpskSymbol_defined `{Engine} (j : nat) : qpskSymbol (Math_random j) <> None.
Proof.
  destruct (Math_random_range j) as [Hlo Hhi]. unfold qpskSymbol.
  destruct (@floor_times4_range _ Hlo Hhi) as [-> | (z & -> & Hz)]; [discriminate|].
  assert (Hcases : (z = 0 \/ z = 1 \/ z = 2 \/ z = 3)%Z) by lia.
  destruct Hcases as [-> | [-> | [-> | ->]]]; discriminate.
Qed.

(** ** Arrays and random draws *)

Lemma length_tabulate {B : Type} (n : nat) (f : nat -> B) :
  length (tabulate n f) = n.
Proof. unfold tabulate. now rewrite length_map, length_seq. Qed.

Lemma nth_tabulate {B : Type} (n : nat) (f : nat -> B) (i : nat) (d : B) :
  (i < n)%nat -> nth i (tabulate n f) d = f i.
Proof.
  intros Hi. unfold tabulate.
  rewrite (nth_indep _ d (f 0%nat)) by now rewrite length_map, length_seq.
  rewrite map_nth, seq_nth; auto.
Qed.

Lemma length_mapi {A B : Type} (f : A -> nat -> B) (arr : list A) :
  length (mapi f arr) = length arr.
Proof.
  unfold mapi. rewrite length_map, length_combine, length_seq. apply Nat.min_id.
Qed.

Lemma mapR_length {A B : Type} (f : A -> Rand B) (arr : list A) (k : nat) :
  length (fst (mapR f arr k)) = length arr.
Proof.
  revert k. induction arr as [|a arr IH]; intros k; simpl; auto.
  unfold bind. destruct (f a k) as [b k1].
  specialize (IH k1). destruct (mapR f arr k1) as [bs k2]. simpl in *. now rewrite IH.
Qed.

Lemma mapR_Forall {A B : Type} (P : B -> Prop) (f : A -> Rand B) (arr : list A) (k : nat) :
  (forall a j, P (fst (f a j))) -> Forall P (fst (mapR f arr k)).
Proof.
  intros Hf. revert k. induction arr as [|a arr IH]; intros k; simpl; auto.
  unfold bind. pose proof (Hf a k) as Ha. destruct (f a k) as [b k1].
  specialize (IH k1). destruct (mapR f arr k1) as [bs k2]. simpl in *. now constructor.
Qed.

Lemma arrayFromR_length {B : Type} (n : nat) (f : Rand B) (k : nat) :
  length (fst (arrayFromR n f k)) = n.
Proof. unfold arrayFromR. now rewrite mapR_length, length_seq. Qed.

Lemma forEach_length {B : Type} (f : nat -> result B) (idx : list nat) (bs : list B) :
  forEach f idx = Returns bs -> length bs = length idx.
Proof.
  revert bs. induction idx as [|i idx IH]; intros bs; simpl.
  - intros [= <-]. reflexivity.
  - destruct (f i); [|discriminate].
    destruct (forEach f idx); [|discriminate].
    intros [= <-]. simpl. now rewrite (IH _ eq_refl).
Qed.

Lemma forEach_total {B : Type} (f : nat -> result B) (idx : list nat) :
  (forall i, In i idx -> exists b, f i = Returns b) ->
  exists bs, forEach f idx = Returns bs.
Proof.
  induction idx as [|i idx IH]; intros Hf; simpl.
  - now eexists.
  - destruct (Hf i (or_introl eq_refl)) as [b ->].
    destruct IH as [bs ->]; [intros; apply Hf; now right|].
    now eexists.
Qed.

(** ** updateParameters *)

Lemma orElse_falsy (v : value) (d : float) :
  truthyV v = false -> orElse v d = d.
Proof. destruct v as [x|]; simpl; [intros ->|]; reflexivity. Qed.

Lemma orElse_truthy (v : value) (d : float) :
  truthyV v = true -> orElse v d = toNumber v.
Proof. destruct v as [x|]; simpl; [intros ->; reflexivity | discriminate]. Qed.

Lemma orElse_cases (v : value) (d : float) :
  orElse v d = if truthyV v then toNumber v else d.
Proof. destruct v as [x|]; reflexivity. Qed.

Lemma orElse_keeps_truthy (v : value) (d : float) :
  truthy d = true -> truthy (orElse v d) = true.
Proof.
  intros Hd. destruct v as [x|]; simpl; auto.
  destruct (truthy x) eqn:Hx; auto.
Qed.

(** Only [updateParameters] writes the fields, and it never writes the
    sampling parameters, nor a falsy value. *)
Lemma reachable_invariant (this : SignalGenerator) :
  reachable this ->
  sampleRate this = 44100%float /\ duration this = 1%float
  /\ numSamples this = (44100 * 1)%float
  /\ truthy (carrierFreq this) = true /\ truthy (symbolRate this) = true
  /\ truthy (snr this) = true /\ truthy (modulationIndex this) = true
  /\ truthy (messageFreq this) = true /\ truthy (frequencyDeviation this) = true.
Proof.
  induction 1 as [|this params _ IH].
  - repeat split; reflexivity.
  - destruct IH as (? & ? & ? & ? & ? & ? & ? & ? & ?).
    simpl. repeat split; auto using orElse_keeps_truthy.
Qed.

(** C10: [updateParameters] keeps the stored value of every parameter
    whose supplied value is falsy ([0], [-0], [NaN]) or missing, and takes
    the supplied value otherwise; the sampling fields are never written.
    So a supplied [snr] or [modulationIndex] of 0 is ignored, and a
    property the argument does not mention keeps its prior value. *)
Theorem updateParameters_ignores_falsy (this : SignalGenerator) (params : Params) :
  let this' := updateParameters this params in
  carrierFreq this'
    = (if truthyV (p_carrierFreq params) then toNumber (p_carrierFreq params)
       else carrierFreq this)
  /\ symbolRate this'
    = (if truthyV (p_symbolRate params) then toNumber (p_symbolRate params)
       else symbolRate this)
  /\ snr this'
    = (if truthyV (p_snr params) then toNumber (p_snr params) else snr this)
  /\ modulationIndex this'
    = (if truthyV (p_modulationIndex params) then toNumber (p_modulationIndex params)
       else modulationIndex this)
  /\ messageFreq this'
    = (if truthyV (p_messageFreq params) then toNumber (p_messageFreq params)
       else messageFreq this)
  /\ frequencyDeviation this'
    = (if truthyV (p_frequencyDeviation params)
       then toNumber (p_frequencyDeviation params)
       else frequencyDeviation this)
  /\ sampleRate this' = sampleRate this
  /\ duration this' = duration this
  /\ numSamples this' = numSamples this
  /\ truthyV (Some 0%float) = false /\ truthyV (Some (-0)%float) = false
  /\ truthyV (Some nan) = false /\ truthyV None = false
  /\ (snr this' = snr this \/ truthy (snr this') = true)
  /\ (modulationIndex this' = modulationIndex this
      \/ truthy (modulationIndex this') = true).
Proof.
  cbv zeta. simpl.
  repeat (split; [first [apply orElse_cases | reflexivity]|]).
  split.
  - rewrite orElse_cases. destruct (p_snr params) as [v|]; simpl; auto.
    destruct (truthy v) eqn:Hv; auto.
  - rewrite orElse_cases. destruct (p_modulationIndex params) as [v|]; simpl; auto.
    destruct (truthy v) eqn:Hv; auto.
Qed.

(** ** Index arithmetic for a positive number of samples per symbol *)

Lemma floorDiv_pos (i : nat) (k : Z) :
  (1 <= k)%Z -> floorDiv i (JZ k) = JZ (Z.of_nat (i / Z.to_nat k)).
Proof.
  intros Hk. destruct k as [|p|p]; try lia.
  unfold floorDiv. destruct (Nat.eqb_spec i 0) as [->|Hi].
  - now rewrite Nat.Div0.div_0_l.
  - f_equal. rewrite Nat2Z.inj_div, Z2Nat.id; lia.
Qed.

Lemma remIsZero_pos (i : nat) (k : Z) :
  (1 <= k)%Z -> remIsZero i (JZ k) = (i mod Z.to_nat k =? 0)%nat.
Proof.
  intros Hk. destruct k as [|p|p]; try lia.
  unfold remIsZero. rewrite Z.rem_mod_nonneg by lia.
  replace (Z.pos p) with (Z.of_nat (Z.to_nat (Z.pos p))) at 1 by (apply Z2Nat.id; lia).
  rewrite <- Nat2Z.inj_mod.
  destruct (Nat.eqb_spec (i mod Z.to_nat (Z.pos p)) 0) as [->|Hne]; [reflexivity|].
  apply Z.eqb_neq. lia.
Qed.

Lemma ltLength_nat (j len : nat) :
  ltLength (JZ (Z.of_nat j)) len = (j <? len)%nat.
Proof.
  unfold ltLength. destruct (Nat.ltb_spec j len); [apply Z.ltb_lt | apply Z.ltb_ge]; lia.
Qed.

Lemma getAt_nat {A : Type} (arr : list A) (j : nat) :
  getAt arr (JZ (Z.of_nat j)) = nth_error arr j.
Proof.
  unfold getAt. destruct (Z.ltb_spec (Z.of_nat j) 0); [lia|]. now rewrite Nat2Z.id.
Qed.

Lemma arrayLength_bound (v : float) (n : nat) :
  arrayLength v = Returns n -> (Z.of_nat n <= maxArrayLength)%Z.
Proof.
  unfold arrayLength, arrayLengthZ.
  destruct (Prim2SF v) as [s|s| |s m e]; try discriminate.
  - intros [= <-]. unfold maxArrayLength. lia.
  - destruct s; [discriminate|]. cbv zeta.
    destruct (_ && _) eqn:Hc; [|discriminate].
    intros [= <-]. apply andb_prop in Hc as [_ Hle]. apply Z.leb_le in Hle.
    assert (0 <= Z.shiftl (Z.pos m) e)%Z by (apply Z.shiftl_nonneg; lia).
    rewrite Z2Nat.id; auto.
Qed.

(** The number of indices below [n] that start one of the first [len]
    symbols of [k] samples each. *)
Lemma count_symbol_starts (k len n : nat) :
  (1 <= k)%nat ->
  length (filter (fun i => (i mod k =? 0) && (i / k <? len))%nat (seq 0 n))
  = Nat.min len ((n + k - 1) / k).
Proof.
  intros Hk. induction n as [|n IH].
  - simpl. rewrite Nat.div_small by lia. lia.
  - rewrite seq_S, filter_app, length_app, IH.
    replace ((S n + k - 1) / k)%nat with (n / k + 1)%nat
      by (replace (S n + k - 1)%nat with (n + 1 * k)%nat by lia;
          now rewrite Nat.div_add by lia).
    cbn [filter Nat.add].
    pose proof (Nat.div_mod_eq n k) as Hn.
    pose proof (Nat.mod_upper_bound n k ltac:(lia)) as Hr.
    destruct (Nat.eqb_spec (n mod k) 0) as [Hz|Hnz]; cbn [andb].
    + assert (Hq : ((n + k - 1) / k = n / k)%nat).
      { symmetry. apply (Nat.div_unique _ _ _ (k - 1)); lia. }
      rewrite Hq.
      destruct (Nat.ltb_spec (n / k) len); cbn [length]; lia.
    + assert (Hq : ((n + k - 1) / k = n / k + 1)%nat).
      { symmetry. apply (Nat.div_unique _ _ _ (n mod k - 1)); lia. }
      rewrite Hq. cbn [length]. lia.
Qed.

(** ** The shape of a generated signal *)

Ltac run_gen :=
  unfold bindG, liftResult, liftRand, retG, bind, ret; cbv beta iota.

Section GeneratorProperties.

Context `{Engine}.
Variable this : SignalGenerator.
Variable n : nat.
Hypothesis Hn : arrayLength (numSamples this) = Returns n.

Lemma generateTimeArray_returns :
  generateTimeArray this
  = Returns (tabulate n (fun i => (ofNat i / sampleRate this)%float)).
Proof. unfold generateTimeArray. now rewrite Hn. Qed.

Lemma newArrayFill_returns {A : Type} (v : A) :
  newArrayFill this v = Returns (repeat v n).
Proof. unfold newArrayFill. now rewrite Hn. Qed.

Lemma addNoise_length (signal : list float) (snrDb : float) (k0 : nat) :
  length (fst (addNoise signal snrDb k0)) = length signal.
Proof. unfold addNoise. apply mapR_length. Qed.

Lemma fmLoop_length (message : list float) (dt : float) (its : list (nat * float))
    (acc : float) :
  length (fmLoop this message dt its acc) = length its.
Proof.
  revert acc. induction its as [|[i t] its IH]; intros acc; simpl; auto.
Qed.

Lemma repeat_zero_Forall (m : nat) :
  Forall (fun v : value => v = Some 0%float) (repeat (Some 0%float) m).
Proof. induction m; simpl; auto. Qed.

Lemma generateAM_returns (k0 : nat) :
  exists sig k1,
    generateAM this k0 = (Returns sig, k1)
    /\ wellFormed n sig /\ zeroImag sig /\ constellation sig = None.
Proof.
  unfold generateAM. run_gen.
  rewrite generateTimeArray_returns, newArrayFill_returns.
  match goal with
  | |- context [addNoise ?s ?d k0] =>
      pose proof (addNoise_length s d k0) as Hlen;
      destruct (addNoise s d k0) as [noisy k1]
  end.
  eexists; eexists; split; [reflexivity|].
  simpl in Hlen. rewrite length_mapi, length_tabulate in Hlen.
  unfold wellFormed, zeroImag; simpl.
  rewrite length_tabulate, repeat_length.
  auto using repeat_zero_Forall.
Qed.

Lemma generateFM_returns (k0 : nat) :
  exists sig k1,
    generateFM this k0 = (Returns sig, k1)
    /\ wellFormed n sig /\ zeroImag sig /\ constellation sig = None.
Proof.
  unfold generateFM. run_gen.
  rewrite generateTimeArray_returns, newArrayFill_returns.
  match goal with
  | |- context [addNoise ?s ?d k0] =>
      pose proof (addNoise_length s d k0) as Hlen;
      destruct (addNoise s d k0) as [noisy k1]
  end.
  eexists; eexists; split; [reflexivity|].
  simpl in Hlen.
  rewrite fmLoop_length, length_combine, length_seq, Nat.min_id, length_tabulate in Hlen.
  unfold wellFormed, zeroImag; simpl.
  rewrite length_tabulate, repeat_length.
  auto using repeat_zero_Forall.
Qed.

(** The single-sideband generators: the imaginary sequence is the
    approximate Hilbert transform, an array of the same length. *)
Lemma approximateHilbertTransform_length (signal : list float) :
  length (approximateHilbertTransform signal) = length signal.
Proof. unfold approximateHilbertTransform. apply length_tabulate. Qed.

Lemma generateVoiceLikeSignal_length (timeArray : list float) :
  length (generateVoiceLikeSignal this timeArray) = length timeArray.
Proof. unfold generateVoiceLikeSignal. apply length_map. Qed.

Ltac ssb_returns :=
  run_gen; rewrite generateTimeArray_returns;
  match goal with
  | |- context [addNoise ?s ?d ?k] =>
      let Hlen := fresh "Hlen" in
      pose proof (addNoise_length s d k) as Hlen;
      destruct (addNoise s d k) as [noisy k1];
      eexists; eexists; split; [reflexivity|];
      simpl in Hlen; rewrite length_mapi, length_tabulate in Hlen;
      unfold wellFormed; simpl;
      rewrite approximateHilbertTransform_length, generateVoiceLikeSignal_length,
        length_tabulate; auto
  end.

Lemma generateLSB_returns (k0 : nat) :
  exists sig k1,
    generateLSB this k0 = (Returns sig, k1)
    /\ wellFormed n sig /\ constellation sig = None.
Proof. unfold generateLSB. ssb_returns. Qed.

Lemma generateUSB_returns (k0 : nat) :
  exists sig k1,
    generateUSB this k0 = (Returns sig, k1)
    /\ wellFormed n sig /\ constellation sig = None.
Proof. unfold generateUSB. ssb_returns. Qed.

Lemma generateSSB_returns (isLSB : bool) (k0 : nat) :
  exists sig k1,
    generateSSB this isLSB k0 = (Returns sig, k1)
    /\ wellFormed n sig /\ constellation sig = None.
Proof. unfold generateSSB. ssb_returns. Qed.

End GeneratorProperties.

(** ** Symbol-based generators with [k >= 1] samples per symbol *)

Lemma flat_map_filter_length {A B : Type} (p : A -> bool) (g : A -> B) (l : list A) :
  length (flat_map (fun a => if p a then [g a] else []) l) = length (filter p l).
Proof.
  induction l as [|a l IH]; simpl; auto.
  destruct (p a); simpl; now rewrite ?IH.
Qed.

Lemma flat_map_filter_Forall {A B : Type} (P : B -> Prop) (p : A -> bool) (g : A -> B)
    (l : list A) :
  (forall a, In a l -> p a = true -> P (g a)) ->
  Forall P (flat_map (fun a => if p a then [g a] else []) l).
Proof.
  induction l as [|a l IH]; intros Hl; simpl; auto.
  apply Forall_app. split.
  - destruct (p a) eqn:Hp; auto. constructor; auto. apply Hl; simpl; auto.
  - apply IH. intros; apply Hl; simpl; auto.
Qed.

Section SymbolProperties.

Context `{Engine}.
Variable this : SignalGenerator.
Variable n : nat.
Variable k : Z.
Hypothesis Hn : arrayLength (numSamples this) = Returns n.
Hypothesis Hsps : samplesPerSymbol this = JZ k.
Hypothesis Hk : (1 <= k)%Z.

Let kn : nat := Z.to_nat k.

Lemma numSymbols_returns : numSymbols this n = Returns (n / kn)%nat.
Proof.
  unfold numSymbols. rewrite Hsps, floorDiv_pos by exact Hk. fold kn.
  unfold arrayFromLength.
  pose proof (arrayLength_bound _ Hn) as Hmax.
  assert (Hq : (n / kn <= n)%nat) by (apply Nat.Div0.div_le_upper_bound; subst kn; nia).
  destruct (Z.leb_spec (Z.of_nat (n / kn)) 0) as [Hz|Hz].
  - f_equal. lia.
  - destruct (Z.leb_spec (Z.of_nat (n / kn)) maxArrayLength) as [_|Hbig]; [|lia].
    now rewrite Nat2Z.id.
Qed.

Lemma symbolAt_eq {A : Type} (symbols : list A) (dflt : A) (i : nat) :
  symbolAt this symbols dflt i
  = if (i / kn <? length symbols)%nat then nth_error symbols (i / kn) else Some dflt.
Proof.
  unfold symbolAt. rewrite Hsps, floorDiv_pos by exact Hk. fold kn.
  now rewrite ltLength_nat, getAt_nat.
Qed.

Lemma startsSymbol_eq {A : Type} (symbols : list A) (i : nat) :
  startsSymbol this symbols i
  = ((i mod kn =? 0) && (i / kn <? length symbols))%nat.
Proof.
  unfold startsSymbol. rewrite Hsps, floorDiv_pos, remIsZero_pos by exact Hk. fold kn.
  now rewrite ltLength_nat.
Qed.

Lemma pushed_length {A : Type} (symbols : list A) (pt : nat -> point) :
  length symbols = (n / kn)%nat ->
  length (pushed this symbols pt n) = (n / kn)%nat.
Proof.
  intros Hlen. unfold pushed. rewrite flat_map_filter_length.
  rewrite (filter_ext _ (fun i => (i mod kn =? 0) && (i / kn <? n / kn))%nat)
    by (intros i; now rewrite startsSymbol_eq, Hlen).
  rewrite count_symbol_starts by (subst kn; lia).
  apply Nat.min_l. apply Nat.Div0.div_le_mono. lia.
Qed.

Lemma pushed_Forall {A : Type} (P : point -> Prop) (symbols : list A) (pt : nat -> point) :
  (forall i, (i / kn < length symbols)%nat -> P (pt i)) ->
  Forall P (pushed this symbols pt n).
Proof.
  intros Hpt. unfold pushed. apply flat_map_filter_Forall.
  intros i _. rewrite startsSymbol_eq. intros Hs.
  apply andb_prop in Hs as [_ Hs]. apply Nat.ltb_lt in Hs. auto.
Qed.

Lemma generateBPSK_returns (k0 : nat) :
  exists sig k1 pts,
    generateBPSK this k0 = (Returns sig, k1)
    /\ wellFormed n sig /\ zeroImag sig
    /\ constellation sig = Some pts /\ length pts = (n / kn)%nat
    /\ Forall bpskPoint pts.
Proof.
  unfold generateBPSK. run_gen.
  rewrite (generateTimeArray_returns _ Hn), length_tabulate, numSymbols_returns.
  match goal with
  | |- context [arrayFromR ?len ?f k0] =>
      pose proof (arrayFromR_length len f k0) as Hbits;
      pose proof (mapR_Forall (fun b => b = 1%float \/ b = (-1)%float)
                    (fun _ : nat => f) (seq 0 len) k0) as Hpm;
      fold (arrayFromR len f) in Hpm;
      destruct (arrayFromR len f k0) as [bits kb]
  end.
  simpl in Hbits.
  assert (Hpm' : Forall (fun b => b = 1%float \/ b = (-1)%float) bits).
  { apply Hpm. intros _ j. unfold bind, random, ret. simpl.
    destruct (0.5 <? Math_random j)%float; auto. }
  clear Hpm.
  match goal with
  | |- context [addNoise ?s ?d kb] =>
      pose proof (addNoise_length s d kb) as Hlen;
      destruct (addNoise s d kb) as [noisy k1]
  end.
  simpl in Hlen. rewrite length_tabulate in Hlen.
  eexists; eexists; eexists; split; [reflexivity|].
  split; [|split; [|split; [reflexivity|split]]].
  - unfold wellFormed; simpl. rewrite !length_tabulate. auto.
  - unfold zeroImag, tabulate; simpl. apply Forall_map, Forall_forall. auto.
  - now apply pushed_length.
  - apply pushed_Forall. intros i Hi. unfold bpskPoint; simpl. split; auto.
    rewrite symbolAt_eq. apply Nat.ltb_lt in Hi as Hi'. rewrite Hi'.
    destruct (nth_error bits (i / kn)) as [b|] eqn:Hb.
    + apply nth_error_In in Hb. rewrite Forall_forall in Hpm'.
      destruct (Hpm' _ Hb) as [-> | ->]; auto.
    + apply nth_error_None in Hb. lia.
Qed.

Lemma generateFSK_returns (k0 : nat) :
  exists sig k1 pts,
    generateFSK this k0 = (Returns sig, k1)
    /\ wellFormed n sig /\ zeroImag sig
    /\ constellation sig = Some pts /\ length pts = (n / kn)%nat
    /\ Forall bpskPoint pts.
Proof.
  unfold generateFSK. run_gen.
  rewrite (generateTimeArray_returns _ Hn), (newArrayFill_returns _ Hn),
    length_tabulate, numSymbols_returns.
  match goal with
  | |- context [arrayFromR ?len ?f k0] =>
      pose proof (arrayFromR_length len f k0) as Hbits;
      destruct (arrayFromR len f k0) as [bits kb]
  end.
  simpl in Hbits.
  match goal with
  | |- context [addNoise ?s ?d kb] =>
      pose proof (addNoise_length s d kb) as Hlen;
      destruct (addNoise s d kb) as [noisy k1]
  end.
  simpl in Hlen. rewrite length_tabulate in Hlen.
  eexists; eexists; eexists; split; [reflexivity|].
  split; [|split; [|split; [reflexivity|split]]].
  - unfold wellFormed; simpl. rewrite !length_tabulate, repeat_length. auto.
  - apply repeat_zero_Forall.
  - now apply pushed_length.
  - apply pushed_Forall. intros i Hi. unfold bpskPoint; simpl. split; auto.
    destruct (truthyV _); auto.
Qed.

Lemma generateQPSK_returns (k0 : nat) :
  exists sig k1 pts,
    generateQPSK this k0 = (Returns sig, k1)
    /\ wellFormed n sig
    /\ constellation sig = Some pts /\ length pts = (n / kn)%nat.
Proof.
  unfold generateQPSK. run_gen.
  rewrite (generateTimeArray_returns _ Hn), length_tabulate, numSymbols_returns.
  match goal with
  | |- context [arrayFromR ?len ?f k0] =>
      pose proof (arrayFromR_length len f k0) as Hsyms;
      pose proof (mapR_Forall (fun s => s <> None)
                    (fun _ : nat => f) (seq 0 len) k0) as Hdef;
      fold (arrayFromR len f) in Hdef;
      destruct (arrayFromR len f k0) as [symbols kb]
  end.
  simpl in Hsyms.
  assert (Hdef' : Forall (fun s : option iq => s <> None) symbols).
  { apply Hdef. intros _ j. unfold bind, random, ret. simpl. apply qpskSymbol_defined. }
  clear Hdef.
  assert (Hsym : forall i, qpskSymbolAt this symbols i <> None).
  { intros i. unfold qpskSymbolAt. rewrite symbolAt_eq.
    destruct (Nat.ltb_spec (i / kn) (length symbols)) as [Hi|Hi].
    - destruct (nth_error symbols (i / kn)) as [s|] eqn:Hs.
      + apply nth_error_In in Hs. rewrite Forall_forall in Hdef'.
        specialize (Hdef' _ Hs). destruct s; congruence.
      + apply nth_error_None in Hs. lia.
    - discriminate. }
  match goal with
  | |- context [forEach ?f ?idx] =>
      destruct (forEach_total f idx) as [modulated Hmod]
  end.
  { intros i _. specialize (Hsym i).
    destruct (qpskSymbolAt this symbols i); [now eexists | congruence]. }
  rewrite Hmod. apply forEach_length in Hmod. rewrite length_seq in Hmod.
  match goal with
  | |- context [addNoise ?s ?d kb] =>
      pose proof (addNoise_length s d kb) as Hlen;
      destruct (addNoise s d kb) as [noisy k1]
  end.
  simpl in Hlen. rewrite length_mapi, length_map in Hlen.
  eexists; eexists; eexists; split; [reflexivity|].
  split; [|split; [reflexivity|]].
  - unfold wellFormed; simpl. rewrite !length_map, length_tabulate.
    repeat split; congruence.
  - now apply pushed_length.
Qed.

End SymbolProperties.

Lemma arrayLength_44100 : arrayLength (44100 * 1)%float = Returns (Z.to_nat 44100).
Proof.
  unfold arrayLength.
  replace (arrayLengthZ (44100 * 1)%float) with (Returns 44100%Z)
    by (vm_compute; reflexivity).
  reflexivity.
Qed.

Lemma validParameters_constructor : validParameters constructor (Z.to_nat 44100) 441.
Proof.
  unfold validParameters. split; [reflexivity|]. split; [apply arrayLength_44100|].
  split; [vm_compute; reflexivity | lia].
Qed.

(** ** generateSignal *)

Ltac by_kind kind :=
  unfold generateSignal;
  repeat match goal with
         | |- context [String.eqb kind ?s] => destruct (String.eqb_spec kind s)
         end.



Lemma validFor_constructor (modulationType : string) :
  validFor modulationType constructor (Z.to_nat 44100).
Proof.
  destruct validParameters_constructor as (Hnum & Hn & Hsps & Hk).
  repeat split; auto. intros _. exists 441%Z. auto.
Qed.




(** C2 as the code has it: a modulation type that is none of the eight
    known kinds takes the [default] branch, so [generateSignal] does what
    [generateAM] does: it returns the AM signal and raises no error. *)
Theorem generateSignal_unknown_is_AM `{Engine} (this : SignalGenerator)
    (modulationType : string) (k0 : nat) :
  ~ In modulationType knownKinds ->
  generateSignal this modulationType k0 = generateAM this k0
  /\ forall n, arrayLength (numSamples this) = Returns n ->
       exists sig k1,
         generateSignal this modulationType k0 = (Returns sig, k1)
         /\ wellFormed n sig /\ constellation sig = None.
Proof.
  intros Hnot.
  assert (Heq : generateSignal this modulationType k0 = generateAM this k0).
  { by_kind modulationType; try reflexivity; exfalso; apply Hnot; subst; simpl; tauto. }
  split; [exact Heq|].
  intros n Hn. rewrite Heq.
  destruct (generateAM_returns this Hn k0) as (sig & k1 & -> & ? & _ & ?). eauto.
Qed.

Lemma xyz_unknown : ~ In "xyz"%string knownKinds.
Proof. simpl. intros Hin. repeat (destruct Hin as [Hin|Hin]; [discriminate|]). exact Hin. Qed.

Lemma generateSignal_unknown_is_AM_witness :
  ~ In "xyz"%string knownKinds
  /\ @generateSignal flatEngine constructor "xyz" 0 = @generateAM flatEngine constructor 0
  /\ forall n, arrayLength (numSamples constructor) = Returns n ->
       exists sig k1,
         @generateSignal flatEngine constructor "xyz" 0 = (Returns sig, k1)
         /\ wellFormed n sig /\ constellation sig = None.
Proof.
  split; [exact xyz_unknown|].
  exact (@generateSignal_unknown_is_AM flatEngine constructor "xyz" 0 xyz_unknown).
Defined.

(** C2 as stated fails: for the unknown kind ['xyz'] a new generator
    raises no exception, whatever the engine. *)
Lemma generateSignal_xyz_does_not_throw :
  ~ exists (E : Engine) (e : exn) (k1 : nat),
      @generateSignal E constructor "xyz" 0 = (Throws e, k1).
Proof.
  intros (E & e & k1 & Hthrow).
  destruct (@generateSignal_unknown_is_AM E constructor "xyz" 0 xyz_unknown) as [_ Hret].
  destruct (Hret _ arrayLength_44100) as (sig & k2 & Heq & _).
  rewrite Heq in Hthrow. discriminate Hthrow.
Qed.

(** ** The samples of the symbol-based generators *)

Section SampleProperties.

Context `{Engine}.
Variable this : SignalGenerator.
Local Open Scope float_scope.

Lemma mapR_noise_nth (amplitude : float) (signal : list float) (kb i : nat) :
  (i < length signal)%nat ->
  nth i (fst (mapR (fun sample =>
                      u1 <- random ;; u2 <- random ;;
                      ret (sample + boxMuller amplitude u1 u2)) signal kb)) nan
  = nth i signal nan + noiseAt amplitude kb i.
Proof.
  set (f := fun sample => u1 <- random ;; u2 <- random ;;
                            ret (sample + boxMuller amplitude u1 u2)).
  revert kb i. induction signal as [|s signal IH]; intros kb i Hi; simpl in Hi; [lia|].
  change (mapR f (s :: signal) kb)
    with (let (bs, k2) := mapR f signal (S (S kb)) in
          (s + boxMuller amplitude (Math_random kb) (Math_random (S kb)) :: bs, k2)).
  specialize (IH (S (S kb))).
  destruct (mapR f signal (S (S kb))) as [rest k1].
  cbn [fst] in *. destruct i as [|i]; cbn [nth].
  - unfold noiseAt. now rewrite Nat.mul_0_r, Nat.add_0_r, Nat.add_1_r.
  - rewrite IH by lia. unfold noiseAt.
    replace (S (S kb) + 2 * i)%nat with (kb + 2 * S i)%nat by lia. reflexivity.
Qed.

Lemma addNoise_nth (signal : list float) (snrDb : float) (kb i : nat) :
  (i < length signal)%nat ->
  nth i (fst (addNoise signal snrDb kb)) nan
  = nth i signal nan + noiseAt (noiseAmplitude signal snrDb) kb i.
Proof. unfold addNoise. apply mapR_noise_nth. Qed.

End SampleProperties.

Lemma nth_map_lt {A B : Type} (f : A -> B) (arr : list A) (i : nat) (d : B) (d' : A) :
  (i < length arr)%nat -> nth i (map f arr) d = f (nth i arr d').
Proof.
  intros Hi. rewrite (nth_indep _ d (f d')) by now rewrite length_map.
  apply map_nth.
Qed.

Lemma nth_mapi {A B : Type} (f : A -> nat -> B) (arr : list A) (i : nat) (d : B) (d' : A) :
  (i < length arr)%nat -> nth i (mapi f arr) d = f (nth i arr d') i.
Proof.
  intros Hi. unfold mapi.
  rewrite (nth_indep _ d (f d' 0%nat))
    by (rewrite length_map, length_combine, length_seq; lia).
  rewrite (map_nth (fun ix => f (snd ix) (fst ix)) _ (0%nat, d')).
  rewrite combine_nth by now rewrite length_seq.
  rewrite seq_nth by lia. reflexivity.
Qed.

Lemma forEach_nth {B : Type} (f : nat -> result B) (idx : list nat) (bs : list B)
    (j : nat) (d : B) :
  forEach f idx = Returns bs -> (j < length idx)%nat ->
  f (nth j idx 0%nat) = Returns (nth j bs d).
Proof.
  revert bs j. induction idx as [|i idx IH]; intros bs j; simpl; [lia|].
  destruct (f i) as [b|] eqn:Hb; [|discriminate].
  destruct (forEach f idx) as [bs'|]; [|discriminate].
  intros [= <-] Hj. destruct j as [|j]; simpl; auto.
  apply IH; auto. lia.
Qed.

Section TrailingSamples.

Context `{Engine}.
Variable this : SignalGenerator.
Variable n : nat.
Variable k : Z.
Hypothesis Hn : arrayLength (numSamples this) = Returns n.
Hypothesis Hsps : samplesPerSymbol this = JZ k.
Hypothesis Hk : (1 <= k)%Z.
Local Open Scope float_scope.

Let kn : nat := Z.to_nat k.

Lemma timeArray_nth (i : nat) :
  (i < n)%nat ->
  getNum (tabulate n (fun i => ofNat i / sampleRate this)) i = sampleTime this i.
Proof. intros Hi. unfold getNum. now rewrite nth_tabulate. Qed.

(** An index past the last whole symbol reads no symbol: the default
    is used. *)
Lemma symbolAt_trailing {A : Type} (symbols : list A) (dflt : A) (i : nat) :
  length symbols = (n / kn)%nat ->
  (n / kn * kn <= i < n)%nat ->
  symbolAt this symbols dflt i = Some dflt.
Proof.
  intros Hlen [Hlo Hhi]. rewrite (symbolAt_eq this Hsps Hk). fold kn.
  assert (Hkn : (1 <= kn)%nat) by (subst kn; lia).
  assert (Hq : (n / kn <= i / kn)%nat).
  { apply Nat.div_le_lower_bound; lia. }
  destruct (Nat.ltb_spec (i / kn) (length symbols)); [lia | reflexivity].
Qed.

Lemma generateBPSK_sample (k0 : nat) :
  exists sig k1 bits kb amplitude,
    generateBPSK this k0 = (Returns sig, k1)
    /\ length bits = (n / kn)%nat
    /\ forall i, (i < n)%nat ->
         nth i (realSignal sig) nan
         = toNumber (symbolAt this bits 1 i) * carrierAt this (carrierFreq this) i
           + noiseAt amplitude kb i.
Proof.
  unfold generateBPSK. run_gen.
  rewrite (generateTimeArray_returns _ Hn), length_tabulate,
    (numSymbols_returns this Hn Hsps Hk).
  fold kn.
  match goal with
  | |- context [arrayFromR ?len ?f k0] =>
      pose proof (arrayFromR_length len f k0) as Hbits;
      destruct (arrayFromR len f k0) as [bits kb]
  end.
  simpl in Hbits.
  match goal with
  | |- context [addNoise ?s ?d kb] =>
      pose proof (addNoise_nth s d kb) as Hnth;
      destruct (addNoise s d kb) as [noisy k1];
      exists {| time := tabulate n (fun i => ofNat i / sampleRate this);
                realSignal := noisy;
                imagSignal := tabulate n (fun _ => Some 0);
                constellation :=
                  Some (pushed this bits
                          (fun i => {| x := symbolAt this bits 1 i; y := Some 0 |}) n) |},
        k1, bits, kb, (noiseAmplitude s d)
  end.
  split; [reflexivity|]. split; [exact Hbits|].
  intros i Hi. cbn [realSignal]. cbn [fst] in Hnth.
  rewrite Hnth by now rewrite length_tabulate.
  rewrite nth_tabulate by exact Hi.
  now rewrite timeArray_nth.
Qed.

Lemma generateFSK_sample (k0 : nat) :
  exists sig k1 bits kb amplitude,
    generateFSK this k0 = (Returns sig, k1)
    /\ length bits = (n / kn)%nat
    /\ forall i, (i < n)%nat ->
         nth i (realSignal sig) nan
         = carrierAt this (if truthyV (symbolAt this bits 0 i)
                      then carrierFreq this + frequencyDeviation this
                      else carrierFreq this - frequencyDeviation this) i
           + noiseAt amplitude kb i.
Proof.
  unfold generateFSK. run_gen.
  rewrite (generateTimeArray_returns _ Hn), (newArrayFill_returns _ Hn),
    length_tabulate, (numSymbols_returns this Hn Hsps Hk).
  fold kn.
  match goal with
  | |- context [arrayFromR ?len ?f k0] =>
      pose proof (arrayFromR_length len f k0) as Hbits;
      destruct (arrayFromR len f k0) as [bits kb]
  end.
  simpl in Hbits.
  match goal with
  | |- context [addNoise ?s ?d kb] =>
      pose proof (addNoise_nth s d kb) as Hnth;
      destruct (addNoise s d kb) as [noisy k1];
      exists {| time := tabulate n (fun i => ofNat i / sampleRate this);
                realSignal := noisy;
                imagSignal := repeat (Some 0) n;
                constellation :=
                  Some (pushed this bits
                          (fun i => {| x := Some (if truthyV (symbolAt this bits 0 i)
                                                  then 1 else -1);
                                       y := Some 0 |}) n) |},
        k1, bits, kb, (noiseAmplitude s d)
  end.
  split; [reflexivity|]. split; [exact Hbits|].
  intros i Hi. cbn [realSignal]. cbn [fst] in Hnth.
  rewrite Hnth by now rewrite length_tabulate.
  rewrite nth_tabulate by exact Hi.
  now rewrite timeArray_nth.
Qed.

Lemma generateQPSK_sample (k0 : nat) :
  exists sig k1 symbols kb amplitude,
    generateQPSK this k0 = (Returns sig, k1)
    /\ length symbols = (n / kn)%nat
    /\ forall i, (i < n)%nat ->
         exists symbol,
           qpskSymbolAt this symbols i = Some symbol
           /\ nth i (realSignal sig) nan
              = iq_i symbol * carrierAt this (carrierFreq this) i
                - iq_q symbol * carrierShiftedAt this (carrierFreq this) i
                + noiseAt amplitude kb i.
Proof.
  destruct (generateQPSK_returns this Hn Hsps Hk k0) as (sig0 & k10 & pts0 & Hret & _).
  revert Hret.
  unfold generateQPSK. run_gen.
  rewrite (generateTimeArray_returns _ Hn), length_tabulate,
    (numSymbols_returns this Hn Hsps Hk).
  fold kn.
  match goal with
  | |- context [arrayFromR ?len ?f k0] =>
      pose proof (arrayFromR_length len f k0) as Hsyms;
      destruct (arrayFromR len f k0) as [symbols kb]
  end.
  simpl in Hsyms.
  match goal with
  | |- context [forEach ?f ?idx] =>
      pose proof (@forEach_nth _ f idx) as Hfor;
      pose proof (@forEach_length _ f idx) as Hforlen;
      destruct (forEach f idx) as [modulated|e]; [|intros [=]]
  end.
  specialize (Hforlen _ eq_refl). rewrite length_seq in Hforlen.
  match goal with
  | |- context [addNoise ?s ?d kb] =>
      pose proof (addNoise_nth s d kb) as Hnth;
      destruct (addNoise s d kb) as [noisy k1];
      intros _;
      eexists; exists k1, symbols, kb, (noiseAmplitude s d)
  end.
  split; [reflexivity|]. split; [exact Hsyms|].
  intros i Hi. cbn [realSignal]. cbn [fst] in Hnth.
  rewrite Hnth by (rewrite length_mapi, length_map; lia).
  rewrite (nth_mapi _ _ nan nan) by (rewrite length_map; lia).
  specialize (Hfor modulated i (0, 0) eq_refl). rewrite length_seq in Hfor.
  specialize (Hfor Hi). rewrite seq_nth in Hfor by exact Hi. cbn [Nat.add] in Hfor.
  destruct (qpskSymbolAt this symbols i) as [symbol|]; [|discriminate].
  exists symbol. split; [reflexivity|].
  injection Hfor as Hfor. rewrite timeArray_nth in Hfor by exact Hi.
  unfold getNum.
  rewrite (nth_map_lt fst modulated nan (0, 0)), (nth_map_lt snd modulated nan (0, 0)) by lia.
  rewrite <- Hfor. reflexivity.
Qed.

End TrailingSamples.

(** C8 as the code has it: for BPSK, QPSK and FSK and a valid parameter
    set, every sample at an index [i >= numSymbols * samplesPerSymbol] is
    generated from a fixed default symbol, whatever the symbols drawn:
    the bit [+1] for BPSK, the point [(1/sqrt 2, 1/sqrt 2)] for QPSK and
    the bit [0] (frequency [carrierFreq - frequencyDeviation]) for FSK. *)
Theorem trailing_samples_use_default `{Engine} (this : SignalGenerator) (n : nat) (k : Z)
    (k0 : nat) :
  validParameters this n k ->
  let kn := Z.to_nat k in
  (exists sig k1 kb amplitude,
      generateBPSK this k0 = (Returns sig, k1)
      /\ forall i, (n / kn * kn <= i < n)%nat ->
           nth i (realSignal sig) nan
           = (1 * carrierAt this (carrierFreq this) i + noiseAt amplitude kb i)%float)
  /\ (exists sig k1 kb amplitude,
      generateQPSK this k0 = (Returns sig, k1)
      /\ forall i, (n / kn * kn <= i < n)%nat ->
           nth i (realSignal sig) nan
           = (1 / PrimFloat.sqrt 2 * carrierAt this (carrierFreq this) i
              - 1 / PrimFloat.sqrt 2 * carrierShiftedAt this (carrierFreq this) i
              + noiseAt amplitude kb i)%float)
  /\ (exists sig k1 kb amplitude,
      generateFSK this k0 = (Returns sig, k1)
      /\ forall i, (n / kn * kn <= i < n)%nat ->
           nth i (realSignal sig) nan
           = (carrierAt this (carrierFreq this - frequencyDeviation this) i
              + noiseAt amplitude kb i)%float)
  /\ forall (A : Type) (symbols : list A) (dflt : A) (i : nat),
       length symbols = (n / kn)%nat -> (n / kn * kn <= i < n)%nat ->
       symbolAt this symbols dflt i = Some dflt.
Proof.
  intros (_ & Hn & Hsps & Hk) kn.
  split; [|split; [|split]].
  - destruct (generateBPSK_sample this Hn Hsps Hk k0)
      as (sig & k1 & bits & kb & amplitude & Hret & Hlen & Hnth).
    exists sig, k1, kb, amplitude. split; [exact Hret|].
    intros i Hi. rewrite Hnth by lia.
    now rewrite (symbolAt_trailing this Hsps Hk bits 1%float Hlen Hi).
  - destruct (generateQPSK_sample this Hn Hsps Hk k0)
      as (sig & k1 & symbols & kb & amplitude & Hret & Hlen & Hnth).
    exists sig, k1, kb, amplitude. split; [exact Hret|].
    intros i Hi. destruct (Hnth i ltac:(lia)) as (symbol & Hsym & ->).
    unfold qpskSymbolAt in Hsym.
    rewrite (symbolAt_trailing this Hsps Hk symbols qpskDefault Hlen Hi) in Hsym.
    injection Hsym as <-. reflexivity.
  - destruct (generateFSK_sample this Hn Hsps Hk k0)
      as (sig & k1 & bits & kb & amplitude & Hret & Hlen & Hnth).
    exists sig, k1, kb, amplitude. split; [exact Hret|].
    intros i Hi. rewrite Hnth by lia.
    now rewrite (symbolAt_trailing this Hsps Hk bits 0%float Hlen Hi).
  - intros A symbols dflt i Hlen Hi.
    exact (symbolAt_trailing this Hsps Hk symbols dflt Hlen Hi).
Qed.

Lemma validParameters_generator1000 : validParameters generator1000 (Z.to_nat 44100) 44.
Proof.
  unfold validParameters. split; [reflexivity|]. split; [apply arrayLength_44100|].
  split; [vm_compute; reflexivity | lia].
Qed.

(** At 1000 baud the 1002 symbols of 44 samples end at sample 44088: the
    samples 44088 to 44099 are trailing ones. *)
Lemma trailing_index_44088 :
  (Z.to_nat 44100 / Z.to_nat 44 * Z.to_nat 44 <= Z.to_nat 44088 < Z.to_nat 44100)%nat.
Proof. split; [apply Nat.leb_le | apply Nat.ltb_lt]; vm_compute; reflexivity. Qed.

Lemma trailing_samples_use_default_witness :
  validParameters generator1000 (Z.to_nat 44100) 44
  /\ (Z.to_nat 44100 / Z.to_nat 44 * Z.to_nat 44 <= Z.to_nat 44088 < Z.to_nat 44100)%nat
  /\ length (repeat (-1)%float 1002) = (Z.to_nat 44100 / Z.to_nat 44)%nat
  /\ (exists sig k1 kb amplitude,
        @generateBPSK flatEngine generator1000 0 = (Returns sig, k1)
        /\ nth (Z.to_nat 44088) (realSignal sig) nan
           = (1 * @carrierAt flatEngine generator1000 (carrierFreq generator1000)
                    (Z.to_nat 44088)
              + @noiseAt flatEngine amplitude kb (Z.to_nat 44088))%float)
  /\ (exists sig k1 kb amplitude,
        @generateQPSK flatEngine generator1000 0 = (Returns sig, k1)
        /\ nth (Z.to_nat 44088) (realSignal sig) nan
           = (1 / PrimFloat.sqrt 2
                * @carrierAt flatEngine generator1000 (carrierFreq generator1000)
                    (Z.to_nat 44088)
              - 1 / PrimFloat.sqrt 2
                * @carrierShiftedAt flatEngine generator1000 (carrierFreq generator1000)
                    (Z.to_nat 44088)
              + @noiseAt flatEngine amplitude kb (Z.to_nat 44088))%float)
  /\ (exists sig k1 kb amplitude,
        @generateFSK flatEngine generator1000 0 = (Returns sig, k1)
        /\ nth (Z.to_nat 44088) (realSignal sig) nan
           = (@carrierAt flatEngine generator1000
                (carrierFreq generator1000 - frequencyDeviation generator1000)
                (Z.to_nat 44088)
              + @noiseAt flatEngine amplitude kb (Z.to_nat 44088))%float)
  /\ symbolAt generator1000 (repeat (-1)%float 1002) 1%float (Z.to_nat 44088)
     = Some 1%float.
Proof.
  assert (Hlen : length (repeat (-1)%float 1002) = (Z.to_nat 44100 / Z.to_nat 44)%nat)
    by (rewrite repeat_length; vm_compute; reflexivity).
  split; [exact validParameters_generator1000|].
  split; [exact trailing_index_44088|].
  split; [exact Hlen|].
  destruct (@trailing_samples_use_default flatEngine generator1000 (Z.to_nat 44100) 44 0
              validParameters_generator1000) as (Hb & Hq & Hf & Hat).
  split; [|split; [|split]].
  - destruct Hb as (sig & k1 & kb & amplitude & Hret & Hnth).
    exists sig, k1, kb, amplitude. split; [exact Hret|].
    exact (Hnth _ trailing_index_44088).
  - destruct Hq as (sig & k1 & kb & amplitude & Hret & Hnth).
    exists sig, k1, kb, amplitude. split; [exact Hret|].
    exact (Hnth _ trailing_index_44088).
  - destruct Hf as (sig & k1 & kb & amplitude & Hret & Hnth).
    exists sig, k1, kb, amplitude. split; [exact Hret|].
    exact (Hnth _ trailing_index_44088).
  - exact (Hat float (repeat (-1)%float 1002) 1%float (Z.to_nat 44088) Hlen
             trailing_index_44088).
Defined.

(** C8 as stated fails: at 1000 baud a symbol has 44 samples, 1002 symbols
    are drawn and samples 44088 to 44099 follow the last of them.  When
    every draw gives the bit [-1] (as with draws of 0.25), sample 44088
    still uses the bit [+1], not the last symbol. *)
Lemma trailing_sample_ignores_last_symbol :
  samplesPerSymbol generator1000 = JZ 44
  /\ numSymbols generator1000 (Z.to_nat 44100) = Returns 1002%nat
  /\ fst (@arrayFromR float 1002
            (u <- @random flatEngine ;; ret (if (0.5 <? u)%float then 1%float else (-1)%float))
            0)
     = repeat (-1)%float 1002
  /\ nth_error (repeat (-1)%float 1002) 1001 = Some (-1)%float
  /\ (1002 * 44 <=? Z.to_nat 44088)%nat = true
  /\ (Z.to_nat 44088 <? Z.to_nat 44100)%nat = true
  /\ symbolAt generator1000 (repeat (-1)%float 1002) 1%float (Z.to_nat 44088) = Some 1%float
  /\ symbolAt generator1000 (repeat (-1)%float 1002) 1%float (Z.to_nat 44088)
     <> nth_error (repeat (-1)%float 1002) 1001.
Proof.
  assert (Hsps : samplesPerSymbol generator1000 = JZ 44) by (vm_compute; reflexivity).
  split; [exact Hsps|].
  split; [vm_compute; reflexivity|].
  split; [vm_compute; reflexivity|].
  split; [vm_compute; reflexivity|].
  split; [vm_compute; reflexivity|].
  split; [vm_compute; reflexivity|].
  assert (Hat : symbolAt generator1000 (repeat (-1)%float 1002) 1%float (Z.to_nat 44088) = Some 1%float)
    by (vm_compute; reflexivity).
  split; [exact Hat|].
  rewrite Hat. vm_compute. discriminate.
Qed.

(** ** Non-finite samples *)

Section NonFinite.

Context `{Engine}.
Variable this : SignalGenerator.
Local Open Scope float_scope.

Lemma sum_squares_from_nan (signal : list float) :
  fold_left (fun sum val => sum + val * val) signal nan = nan.
Proof.
  induction signal as [|a signal IH]; simpl; auto. now rewrite add_nan_l.
Qed.

(** One [NaN] sample (or an empty signal) makes the measured power [NaN]. *)
Lemma signalPower_head_nan (signal : list float) :
  nth 0 signal nan = nan -> signalPower signal = nan.
Proof.
  unfold signalPower. destruct signal as [|a signal]; simpl.
  - reflexivity.
  - intros ->. rewrite mul_nan_l, add_nan_r, sum_squares_from_nan. apply div_nan_l.
Qed.

Lemma noiseAmplitude_nan (signal : list float) (snrDb : float) :
  signalPower signal = nan -> noiseAmplitude signal snrDb = nan.
Proof. unfold noiseAmplitude. intros ->. now rewrite div_nan_l. Qed.

Lemma boxMuller_nan (u1 u2 : float) : boxMuller nan u1 u2 = nan.
Proof. unfold boxMuller. now rewrite !mul_nan_l. Qed.

(** With a [NaN] power every sample comes out [NaN]. *)
Lemma addNoise_all_nan (signal : list float) (snrDb : float) (kb : nat) :
  signalPower signal = nan ->
  Forall (fun v => v = nan) (fst (addNoise signal snrDb kb)).
Proof.
  intros Hp. unfold addNoise. rewrite noiseAmplitude_nan by exact Hp.
  apply mapR_Forall. intros a j. unfold bind, random, ret. simpl.
  now rewrite boxMuller_nan, add_nan_r.
Qed.

(** Index 0 of the approximate Hilbert transform is a hole, which reads
    as [NaN]. *)
Lemma getHole_hilbert_0 (message : list float) :
  getHole (approximateHilbertTransform message) 0 = nan.
Proof. destruct message; reflexivity. Qed.

Lemma nth_error_tabulate {B : Type} (n : nat) (f : nat -> B) (i : nat) :
  (i < n)%nat -> nth_error (tabulate n f) i = Some (f i).
Proof.
  intros Hi. unfold tabulate.
  rewrite nth_error_map, nth_error_nth' with (d := 0%nat) by now rewrite length_seq.
  now rewrite seq_nth.
Qed.

Lemma mapi_head_nan {A : Type} (f : A -> nat -> float) (arr : list A) :
  (forall a, f a 0%nat = nan) -> nth 0 (mapi f arr) nan = nan.
Proof.
  intros Hf. destruct arr as [|a arr]; [reflexivity|].
  rewrite (nth_mapi f (a :: arr) nan a) by (simpl; lia). apply Hf.
Qed.

Variable n : nat.
Hypothesis Hn : arrayLength (numSamples this) = Returns n.

Ltac ssb_all_nan :=
  run_gen; rewrite (generateTimeArray_returns _ Hn);
  match goal with
  | |- context [addNoise ?s ?d ?k] =>
      let Hlen := fresh "Hlen" in
      let Hnan := fresh "Hnan" in
      pose proof (addNoise_length s d k) as Hlen;
      pose proof (@addNoise_all_nan s d k) as Hnan;
      destruct (addNoise s d k) as [noisy k1];
      eexists; eexists; split; [reflexivity|];
      simpl in Hlen; rewrite length_mapi, length_tabulate in Hlen;
      unfold allNaN, wellFormed; simpl;
      rewrite approximateHilbertTransform_length, generateVoiceLikeSignal_length,
        length_tabulate;
      split; [auto|]; split;
      [ apply Hnan, signalPower_head_nan, mapi_head_nan; intros a;
        rewrite getHole_hilbert_0, ?mul_nan_r, ?mul_nan_l;
        first [apply sub_nan_r | apply add_nan_r]
      | intros i Hi3 Hin; unfold approximateHilbertTransform;
        rewrite generateVoiceLikeSignal_length, length_tabulate,
          nth_error_tabulate by exact Hin;
        apply Nat.ltb_lt in Hi3; now rewrite Hi3 ]
  end.

Lemma generateLSB_all_nan (k0 : nat) :
  exists sig k1, generateLSB this k0 = (Returns sig, k1) /\ allNaN n sig.
Proof. unfold generateLSB. ssb_all_nan. Qed.

Lemma generateUSB_all_nan (k0 : nat) :
  exists sig k1, generateUSB this k0 = (Returns sig, k1) /\ allNaN n sig.
Proof. unfold generateUSB. ssb_all_nan. Qed.

Lemma generateSSB_all_nan (isLSB : bool) (k0 : nat) :
  exists sig k1, generateSSB this isLSB k0 = (Returns sig, k1) /\ allNaN n sig.
Proof. unfold generateSSB. ssb_all_nan. Qed.

(** A first uniform draw [u1 = 0] gives a noise sample that is infinite
    or [NaN]. *)
Lemma boxMuller_u1_zero (amplitude u2 : float) :
  finiteNum (boxMuller amplitude 0 u2) = false.
Proof.
  unfold boxMuller. rewrite Math_log_zero.
  change (PrimFloat.sqrt (-2 * neg_infinity)) with infinity.
  apply mul_not_finite_l, mul_not_finite_r. reflexivity.
Qed.

Lemma generateAM_u1_zero (k0 : nat) :
  (0 < n)%nat -> Math_random k0 = 0 ->
  exists sig k1,
    generateAM this k0 = (Returns sig, k1)
    /\ finiteNum (nth 0 (realSignal sig) nan) = false.
Proof.
  intros Hpos Hu1.
  unfold generateAM. run_gen.
  rewrite (generateTimeArray_returns _ Hn), (newArrayFill_returns _ Hn).
  match goal with
  | |- context [addNoise ?s ?d k0] =>
      pose proof (@addNoise_nth _ s d k0 0%nat) as Hnth;
      destruct (addNoise s d k0) as [noisy k1]
  end.
  eexists; eexists; split; [reflexivity|].
  cbn [realSignal]. cbn [fst] in Hnth.
  rewrite Hnth by (rewrite length_mapi, length_tabulate; exact Hpos).
  apply add_not_finite_r. unfold noiseAt.
  replace (k0 + 2 * 0)%nat with k0 by lia. rewrite Hu1.
  apply boxMuller_u1_zero.
Qed.

End NonFinite.

(** On a new generator, for each of the kinds ['lsb'], ['usb'] and ['ssb']
    and whatever the engine, every sample of the real sequence is [NaN]
    and index 0 of the imaginary sequence is a hole. *)
Lemma sideband_signal_all_nan (E : Engine) (modulationType : string) (k0 : nat) :
  In modulationType ["lsb"; "usb"; "ssb"]%string ->
  exists sig k1,
    @generateSignal E constructor modulationType k0 = (Returns sig, k1)
    /\ length (realSignal sig) = Z.to_nat 44100
    /\ Forall (fun v => v = nan) (realSignal sig)
    /\ nth_error (imagSignal sig) 0 = Some None.
Proof.
  intros Hin.
  assert (Hpos : (0 < Z.to_nat 44100)%nat) by lia.
  assert (Hret : exists sig k1,
             @generateSignal E constructor modulationType k0 = (Returns sig, k1)
             /\ allNaN (Z.to_nat 44100) sig).
  { simpl in Hin. destruct Hin as [<-|[<-|[<-|[]]]].
    - exact (@generateLSB_all_nan E constructor _ arrayLength_44100 k0).
    - exact (@generateUSB_all_nan E constructor _ arrayLength_44100 k0).
    - exact (@generateSSB_all_nan E constructor _ arrayLength_44100 false k0). }
  destruct Hret as (sig & k1 & Hret & (_ & Hlen & _) & Hnan & Hholes).
  exists sig, k1. repeat split; auto; apply Hholes; lia.
Qed.

(** C6 fails on the code: [generateSignal('lsb')] on a new generator
    returns, for every engine and every state of the random stream, a real
    sequence of 44100 samples that are all [NaN], and an imaginary sequence
    whose index 0 is a hole ([undefined]). *)
Theorem generateSignal_lsb_all_NaN :
  forall (E : Engine) (k0 : nat),
  exists sig k1,
    @generateSignal E constructor "lsb" k0 = (Returns sig, k1)
    /\ length (realSignal sig) = Z.to_nat 44100
    /\ Forall (fun v => v = nan) (realSignal sig)
    /\ nth_error (imagSignal sig) 0 = Some None.
Proof.
  intros E k0. apply sideband_signal_all_nan. simpl. auto.
Qed.

(** With a first draw [u1 = 0] the AM generator's first sample is
    infinite or [NaN]; [Math.random()] may return 0. *)
Lemma generateSignal_am_u1_zero (E : Engine) (k0 : nat) :
  Math_random k0 = 0%float ->
  exists sig k1,
    @generateSignal E constructor "am" k0 = (Returns sig, k1)
    /\ finiteNum (nth 0 (realSignal sig) nan) = false.
Proof.
  intros Hu1.
  apply (@generateAM_u1_zero E constructor _ arrayLength_44100 k0); [lia | exact Hu1].
Qed.

(** ** computeFFT *)

Lemma map_const_seq {B : Type} (c : B) (a n : nat) :
  map (fun _ => c) (seq a n) = repeat c n.
Proof.
  revert a. induction n as [|n IH]; intros a; simpl; auto. now rewrite IH.
Qed.

(** For an input of 1 to 1023 samples [downsampleFactor] is 0, so every
    entry of the window is [signal[0]]. *)
Lemma fftWindow_short (signal : list float) :
  (0 < length signal < fftSize)%nat ->
  fftWindow signal = repeat (getNum signal 0) fftSize.
Proof.
  intros [Hpos Hlt]. unfold fftWindow, tabulate.
  rewrite Nat.div_small by exact Hlt.
  rewrite <- map_const_seq with (a := 0%nat).
  apply map_ext. intros i. rewrite Nat.mul_0_r.
  apply Nat.ltb_lt in Hpos. now rewrite Hpos.
Qed.

Lemma computeFFT_lengths `{Engine} (this : SignalGenerator) (signal : list float) :
  length (magnitude (computeFFT this signal)) = 512%nat
  /\ length (frequencies (computeFFT this signal)) = 512%nat.
Proof. unfold computeFFT; cbn [magnitude frequencies]. now rewrite !length_tabulate. Qed.

(** C7 fails on the code: for the 3-sample input [1, 2, 3] the window is
    not [1, 2, 3, 0, 0, ...] but 1024 copies of the first sample, although
    a spectrum of 512 bins is returned. *)
Theorem computeFFT_short_input_not_padded :
  fftWindow [1; 2; 3]%float = repeat 1%float 1024
  /\ nth 1 (fftWindow [1; 2; 3]%float) 0%float = 1%float
  /\ nth 3 (fftWindow [1; 2; 3]%float) 0%float = 1%float
  /\ forall (E : Engine) (this : SignalGenerator),
       length (magnitude (@computeFFT E this [1; 2; 3]%float)) = 512%nat.
Proof.
  assert (Hw : fftWindow [1; 2; 3]%float = repeat 1%float 1024).
  { rewrite fftWindow_short by (unfold fftSize; simpl; lia). reflexivity. }
  split; [exact Hw|]. rewrite Hw.
  split; [reflexivity|]. split; [reflexivity|].
  intros E this. exact (proj1 (computeFFT_lengths this _)).
Qed.

Lemma increasingb_sound (l : list float) :
  increasingb l = true -> strictlyIncreasing l.
Proof.
  unfold strictlyIncreasing. induction l as [|a l IH]; simpl; intros Hl.
  - constructor.
  - apply andb_prop in Hl as [Ha Hl]. constructor; auto.
    apply Forall_forall. now apply forallb_forall.
Qed.

Section Spectrum.

Context `{Engine}.
Variable this : SignalGenerator.
Local Open Scope float_scope.

Lemma magnitude_sign (real imag : float) :
  nonNegativeOrNaN (PrimFloat.sqrt (real * real + imag * imag) / ofNat fftSize).
Proof.
  apply sfNonNegative_float.
  rewrite FloatAxioms.div_spec, FloatAxioms.sqrt_spec, FloatAxioms.add_spec,
    !FloatAxioms.mul_spec.
  replace (Prim2SF (ofNat fftSize)) with (S754_finite false 4503599627370496 (-42))
    by (vm_compute; reflexivity).
  apply SF64div_sign, SF64sqrt_sign, SF64add_sign; apply SF64mul_square_sign.
Qed.

Lemma computeFFT_magnitude_sign (signal : list float) :
  Forall nonNegativeOrNaN (magnitude (computeFFT this signal)).
Proof.
  unfold computeFFT; cbn [magnitude]. unfold tabulate.
  apply Forall_map, Forall_forall. intros k _.
  destruct (dftBin (fftWindow signal) k) as [real imag]. apply magnitude_sign.
Qed.

Lemma computeFFT_frequency (signal : list float) (k : nat) :
  (k < 512)%nat ->
  nth k (frequencies (computeFFT this signal)) nan = ofNat k * sampleRate this / 1024.
Proof.
  intros Hk. unfold computeFFT; cbn [frequencies].
  now rewrite nth_tabulate by exact Hk.
Qed.

Lemma computeFFT_frequencies_increasing (signal : list float) :
  sampleRate this = 44100 ->
  strictlyIncreasing (frequencies (computeFFT this signal)).
Proof.
  intros Hrate. unfold computeFFT; cbn [frequencies]. rewrite Hrate.
  apply increasingb_sound. vm_compute. reflexivity.
Qed.

(** A window of [NaN] gives [NaN] sums in every bin. *)
Lemma dft_steps_nan (fft : list float) (k : nat) (idx : list nat) (acc : float * float) :
  (forall n, In n idx -> getNum fft n = nan) ->
  acc = (nan, nan) \/ idx <> [] ->
  fold_left (fun acc n =>
               let angle := -2 * Math_PI * ofNat k * ofNat n / ofNat fftSize in
               (fst acc + getNum fft n * Math_cos angle,
                snd acc + getNum fft n * Math_sin angle)) idx acc
  = (nan, nan).
Proof.
  revert acc. induction idx as [|n idx IH]; intros acc Hnan Hacc.
  - destruct Hacc as [-> | Hne]; [reflexivity | congruence].
  - cbn [fold_left]. apply IH.
    + intros m Hm. apply Hnan. now right.
    + left. rewrite (Hnan n (or_introl eq_refl)), !mul_nan_l, !add_nan_r. reflexivity.
Qed.

Lemma fftWindow_all_nan (signal : list float) (n : nat) :
  signal <> [] -> Forall (fun v => v = nan) signal ->
  getNum (fftWindow signal) n = nan.
Proof.
  intros Hne Hall. unfold getNum, fftWindow.
  destruct (Nat.lt_ge_cases n fftSize) as [Hn|Hn].
  - rewrite nth_tabulate by exact Hn.
    assert (Hpos : (0 < length signal)%nat) by (destruct signal; simpl; [congruence | lia]).
    assert (Hin : (n * (length signal / fftSize) < length signal)%nat).
    { pose proof (Nat.div_mod_eq (length signal) fftSize) as Hd.
      pose proof (Nat.mod_upper_bound (length signal) fftSize ltac:(discriminate)) as Hr.
      revert Hd Hr Hn. generalize (length signal / fftSize)%nat (length signal mod fftSize)%nat.
      unfold fftSize. intros q r Hd Hr Hn. nia. }
    apply Nat.ltb_lt in Hin as Hin'. rewrite Hin'.
    rewrite Forall_forall in Hall. apply Hall. now apply nth_In.
  - apply nth_overflow. now rewrite length_tabulate.
Qed.

Lemma computeFFT_all_nan (signal : list float) :
  signal <> [] -> Forall (fun v => v = nan) signal ->
  Forall (fun m => m = nan) (magnitude (computeFFT this signal)).
Proof.
  intros Hne Hall. unfold computeFFT; cbn [magnitude]. unfold tabulate.
  apply Forall_map, Forall_forall. intros k _.
  unfold dftBin. rewrite dft_steps_nan.
  - rewrite mul_nan_l, add_nan_l. reflexivity.
  - intros n _. now apply fftWindow_all_nan.
  - right. discriminate.
Qed.

End Spectrum.

(** C9 as the code has it: for every input sequence, [computeFFT] returns
    512 magnitudes and 512 frequencies with
    [frequencies[k] = k * sampleRate / 1024]; no magnitude is negative
    (each is at least 0, or [NaN]); and with the sample rate 44100 the
    code always has, the frequencies are strictly increasing. *)
Theorem computeFFT_spectrum `{Engine} (this : SignalGenerator) (signal : list float) :
  sampleRate this = 44100%float ->
  length (magnitude (computeFFT this signal)) = 512%nat
  /\ length (frequencies (computeFFT this signal)) = 512%nat
  /\ (forall k, (k < 512)%nat ->
        nth k (frequencies (computeFFT this signal)) nan
        = (ofNat k * sampleRate this / 1024)%float)
  /\ Forall nonNegativeOrNaN (magnitude (computeFFT this signal))
  /\ strictlyIncreasing (frequencies (computeFFT this signal)).
Proof.
  intros Hrate.
  split; [exact (proj1 (computeFFT_lengths this signal))|].
  split; [exact (proj2 (computeFFT_lengths this signal))|].
  split; [intros k Hk; now apply computeFFT_frequency|].
  split; [apply computeFFT_magnitude_sign|].
  now apply computeFFT_frequencies_increasing.
Qed.

Lemma computeFFT_spectrum_witness :
  sampleRate constructor = 44100%float
  /\ length (magnitude (@computeFFT flatEngine constructor [1; 2; 3]%float)) = 512%nat
  /\ length (frequencies (@computeFFT flatEngine constructor [1; 2; 3]%float)) = 512%nat
  /\ (forall k, (k < 512)%nat ->
        nth k (frequencies (@computeFFT flatEngine constructor [1; 2; 3]%float)) nan
        = (ofNat k * sampleRate constructor / 1024)%float)
  /\ Forall nonNegativeOrNaN (magnitude (@computeFFT flatEngine constructor [1; 2; 3]%float))
  /\ strictlyIncreasing (frequencies (@computeFFT flatEngine constructor [1; 2; 3]%float)).
Proof.
  split; [reflexivity|].
  exact (@computeFFT_spectrum flatEngine constructor [1; 2; 3]%float eq_refl).
Defined.

(** C9 as stated fails: no engine gives non-negative real magnitudes for
    the input [[NaN]], nor for the real sequence that
    [generateSignal('lsb')] returns; they are all [NaN]. *)
Lemma computeFFT_magnitude_not_real :
  (~ exists E : Engine,
       Forall (fun m => (0 <=? m)%float = true)
              (magnitude (@computeFFT E constructor [nan])))
  /\ (~ exists (E : Engine) (sig : Signal) (k1 : nat),
         @generateSignal E constructor "lsb" 0 = (Returns sig, k1)
         /\ Forall (fun m => (0 <=? m)%float = true)
                   (magnitude (@computeFFT E constructor (realSignal sig)))).
Proof.
  assert (Hnan : forall (E : Engine) (signal : list float),
             signal <> [] -> Forall (fun v => v = nan) signal ->
             ~ Forall (fun m => (0 <=? m)%float = true)
                 (magnitude (@computeFFT E constructor signal))).
  { intros E signal Hne Hall Hpos.
    pose proof (@computeFFT_all_nan E constructor signal Hne Hall) as Hmag.
    pose proof (proj1 (@computeFFT_lengths E constructor signal)) as Hlen.
    destruct (magnitude (@computeFFT E constructor signal)) as [|m ms]; [discriminate Hlen|].
    inversion Hmag as [|? ? Hm _]; inversion Hpos as [|? ? Hp _]; subst.
    discriminate Hp. }
  split.
  - intros (E & Hpos). apply (Hnan E [nan]); auto. discriminate.
  - intros (E & sig & k1 & Hret & Hpos).
    destruct (@sideband_signal_all_nan E "lsb" 0 (or_introl eq_refl))
      as (sig' & k1' & Hret' & Hlen & Hall & _).
    rewrite Hret in Hret'. injection Hret' as <- <-.
    apply (Hnan E (realSignal sig)); auto.
    intros Hnil. rewrite Hnil in Hlen. simpl in Hlen. lia.
Qed.

(** ** estimateSnr *)

(** The code divides the residual's sum of squares by [detrended.length],
    which counts the 8 holes: for a unit pulse among 8 zeros its ratio is
    above 1 (a positive SNR) where the specification's is below 1. *)
Lemma snrRatio_counts_holes :
  (1 <? snrRatio [0; 0; 0; 0; 1; 0; 0; 0; 0])%float = true
  /\ (snrRatioSpec [0; 0; 0; 0; 1; 0; 0; 0; 0] <? 1)%float = true.
Proof. split; vm_compute; reflexivity. Qed.

(** C5 fails on the code: for a signal of zeros with one outlier of
    [1e200], and for the empty signal, [estimateSnr] returns [NaN] on
    every engine, which no clamp to [0, 30] can return. *)
Theorem estimateSnr_outlier_is_NaN :
  forall E : Engine,
    @estimateSnr E [0; 0; 0; 0; 1e200; 0; 0; 0; 0]%float = nan
    /\ @estimateSnr E [] = nan
    /\ (0 <=? nan)%float = false /\ (nan <=? 30)%float = false.
Proof.
  intros E. unfold estimateSnr.
  replace (snrRatio [0; 0; 0; 0; 1e200; 0; 0; 0; 0]%float) with nan
    by (vm_compute; reflexivity).
  replace (snrRatio []) with nan by (vm_compute; reflexivity).
  rewrite Math_log10_nan. repeat split; reflexivity.
Qed.

(** ** estimateBandwidth *)

(** C4 fails on the code.  The theoretical value is computed from the
    [symbolRate] argument and the constant 100 alone: with a symbol rate
    of 100 (250 for LSB), a message frequency of 500 and a deviation of
    300 the code gives 200, 400, 300 and 250 for AM, FM, FSK and LSB, where
    the stated formulas give 1000, 1600, 700 and 500.  And the measured
    span starts at [frequencies[0]] whether or not bin 0 is above the
    threshold: for a peak in bins 23 and 24 the code returns 1033.59375,
    where the span over the bins above the threshold is 43.06640625. *)
Theorem estimateBandwidth_departs_from_formula :
  forall (E : Engine) (sig : Signal),
    let params kind rate :=
      {| a_modulationType := kind; a_carrierFreq := 1000; a_symbolRate := rate;
         a_snr := 20; a_messageFreq := 500; a_frequencyDeviation := 300 |} in
    fst (@analyzeSignal E sig None (params "am"%string 100%float)) = 200%float
    /\ theoreticalBandwidthSpec "am" 500 300 100 = 1000%float
    /\ fst (@analyzeSignal E sig None (params "fm"%string 100%float)) = 400%float
    /\ theoreticalBandwidthSpec "fm" 500 300 100 = 1600%float
    /\ fst (@analyzeSignal E sig None (params "fsk"%string 100%float)) = 300%float
    /\ theoreticalBandwidthSpec "fsk" 500 300 100 = 700%float
    /\ fst (@analyzeSignal E sig None (params "lsb"%string 250%float)) = 250%float
    /\ theoreticalBandwidthSpec "lsb" 500 300 250 = 500%float
    /\ estimateBandwidth (Some peakSpectrum) "bpsk" 100 = 1033.59375%float
    /\ measuredBandwidth peakSpectrum = 1033.59375%float
    /\ measuredBandwidthSpec peakSpectrum = 43.06640625%float.
Proof.
  intros E sig params. subst params. cbv beta.
  do 8 (split; [reflexivity|]).
  repeat split; vm_compute; reflexivity.
Qed.

(** ** Outside the valid parameter sets *)







(** * Edge cases, invariants and composition *)

(** ** More binary64 facts *)

Lemma SFcompare_refl (a : spec_float) : a <> S754_nan -> SFcompare a a = Some Eq.
Proof.
  destruct a as [s|s| |s m e]; simpl; intros Ha; try congruence.
  - now destruct s.
  - rewrite Z.compare_refl. fold (Pos.compare m m). rewrite Pos.compare_refl. now destruct s.
Qed.

Lemma is_nan_eq (a : float) : PrimFloat.is_nan a = true -> a = nan.
Proof.
  unfold PrimFloat.is_nan. rewrite FloatAxioms.eqb_spec. intros Hn.
  apply Prim2SF_inj. rewrite Prim2SF_nan.
  destruct (Prim2SF a) as [s|s| |s m e] eqn:Ha; auto; exfalso.
  all: unfold SFeqb in Hn; rewrite SFcompare_refl in Hn by discriminate; discriminate Hn.
Qed.

Lemma is_nan_Prim2SF (a : float) : PrimFloat.is_nan a = false <-> Prim2SF a <> S754_nan.
Proof.
  unfold PrimFloat.is_nan. rewrite FloatAxioms.eqb_spec. unfold SFeqb. split.
  - intros Hn Ha. rewrite Ha in Hn. discriminate Hn.
  - intros Ha. now rewrite SFcompare_refl.
Qed.

Lemma SFcompare_antisym (a b : spec_float) :
  SFcompare b a = option_map CompOpp (SFcompare a b).
Proof.
  destruct a as [sa|sa| |sa ma ea]; destruct b as [sb|sb| |sb mb eb]; simpl; auto;
    try (now destruct sa); try (now destruct sb); try (now destruct sa, sb).
  f_equal. rewrite (Z.compare_antisym ea eb).
  change (PosDef.Pos.compare_cont Eq mb ma) with (Pos.compare mb ma).
  change (PosDef.Pos.compare_cont Eq ma mb) with (Pos.compare ma mb).
  rewrite (Pos.compare_antisym ma mb).
  destruct sa, sb; simpl; auto; destruct (ea ?= eb)%Z; simpl; auto.
Qed.

Lemma ltb_leb (a b : float) : (a <? b)%float = true -> (a <=? b)%float = true.
Proof.
  rewrite FloatAxioms.ltb_spec, FloatAxioms.leb_spec. unfold SFltb, SFleb.
  now destruct (SFcompare _ _) as [[| |]|].
Qed.


Lemma leb_not_ltb (a b : float) : (a <=? b)%float = true -> (b <? a)%float = false.
Proof.
  rewrite FloatAxioms.ltb_spec, FloatAxioms.leb_spec.
  unfold SFltb, SFleb. rewrite (SFcompare_antisym (Prim2SF a) (Prim2SF b)).
  now destruct (SFcompare _ _) as [[| |]|].
Qed.

Lemma leb_refl (a : float) : PrimFloat.is_nan a = false -> (a <=? a)%float = true.
Proof.
  intros Ha. rewrite FloatAxioms.leb_spec. unfold SFleb.
  rewrite SFcompare_refl; [reflexivity | now apply is_nan_Prim2SF].
Qed.

Lemma leb_not_nan (a b : float) :
  (a <=? b)%float = true -> PrimFloat.is_nan a = false /\ PrimFloat.is_nan b = false.
Proof.
  rewrite !is_nan_Prim2SF, FloatAxioms.leb_spec. unfold SFleb.
  destruct (Prim2SF a) as [sa|sa| |sa ma ea]; destruct (Prim2SF b) as [sb|sb| |sb mb eb];
    simpl; try discriminate; split; discriminate.
Qed.

Lemma ltb_nan_l (a : float) : (nan <? a)%float = false.
Proof. rewrite FloatAxioms.ltb_spec. reflexivity. Qed.

Lemma ltb_nan_r (a : float) : (a <? nan)%float = false.
Proof.
  rewrite FloatAxioms.ltb_spec, Prim2SF_nan. unfold SFltb. now destruct (Prim2SF a).
Qed.

(** A number that compares equal to a positive finite number is that
    number. *)
Lemma leb_ltb_eq (a c : float) (m : positive) (e : Z) :
  Prim2SF c = S754_finite false m e ->
  (a <=? c)%float = true -> (a <? c)%float = false -> a = c.
Proof.
  intros Hc. rewrite FloatAxioms.ltb_spec, FloatAxioms.leb_spec, Hc.
  unfold SFltb, SFleb. intros Hle Hlt. apply Prim2SF_inj. rewrite Hc.
  destruct (Prim2SF a) as [sa|sa| |sa ma ea]; simpl in *; try discriminate;
    try (destruct sa; discriminate).
  destruct sa; [discriminate|].
  destruct (Z.compare_spec ea e) as [He|He|He]; try discriminate.
  fold (Pos.compare ma m) in *.
  destruct (Pos.compare_spec ma m) as [Hm|Hm|Hm]; try discriminate.
  now subst.
Qed.

Lemma sub_0_r (a : float) : (a - 0)%float = a.
Proof.
  apply Prim2SF_inj. rewrite FloatAxioms.sub_spec.
  change (Prim2SF 0) with (S754_zero false).
  destruct (Prim2SF a) as [[|]|[|]| |s m e]; reflexivity.
Qed.

Lemma sub_diag (a : float) : (a - a)%float = 0%float \/ (a - a)%float = nan.
Proof.
  destruct (Prim2SF a) as [s|s| |s m e] eqn:Ha.
  - left. apply Prim2SF_inj. rewrite FloatAxioms.sub_spec, Ha. now destruct s.
  - right. apply Prim2SF_inj. rewrite FloatAxioms.sub_spec, Ha. now destruct s.
  - right. apply Prim2SF_inj. rewrite FloatAxioms.sub_spec, Ha. reflexivity.
  - left. apply Prim2SF_inj. rewrite FloatAxioms.sub_spec, Ha.
    unfold SF64sub, SFsub. cbv zeta. rewrite Z.sub_diag. reflexivity.
Qed.

Lemma sub_diag_finite (a : float) : finiteNum a = true -> (a - a)%float = 0%float.
Proof.
  unfold finiteNum. intros Hf.
  destruct (Prim2SF a) as [s|s| |s m e] eqn:Ha; try discriminate Hf.
  - apply Prim2SF_inj. rewrite FloatAxioms.sub_spec, Ha. now destruct s.
  - apply Prim2SF_inj. rewrite FloatAxioms.sub_spec, Ha.
    unfold SF64sub, SFsub. cbv zeta. rewrite Z.sub_diag. reflexivity.
Qed.

Lemma sqrt_nan : PrimFloat.sqrt nan = nan.
Proof. reflexivity. Qed.

(** *** [Math.max] and [Math.min] *)

Lemma Math_max_nan_r (a : float) : Math_max a nan = nan.
Proof. unfold Math_max. now destruct (PrimFloat.is_nan a). Qed.

Lemma Math_min_nan_r (a : float) : Math_min a nan = nan.
Proof. unfold Math_min. now destruct (PrimFloat.is_nan a). Qed.

Lemma Math_max_fold_nan (arr : list float) : fold_left Math_max arr nan = nan.
Proof. induction arr; simpl; auto. Qed.

Lemma Math_min_fold_nan (arr : list float) : fold_left Math_min arr nan = nan.
Proof. induction arr; simpl; auto. Qed.

Lemma Math_maxAll_nan (arr : list float) : In nan arr -> Math_maxAll arr = nan.
Proof.
  unfold Math_maxAll. generalize neg_infinity.
  induction arr as [|a arr IH]; intros acc; simpl; [tauto|].
  intros [->|Hin]; [rewrite Math_max_nan_r; apply Math_max_fold_nan | now apply IH].
Qed.

Lemma Math_minAll_nan (arr : list float) : In nan arr -> Math_minAll arr = nan.
Proof.
  unfold Math_minAll. generalize infinity.
  induction arr as [|a arr IH]; intros acc; simpl; [tauto|].
  intros [->|Hin]; [rewrite Math_min_nan_r; apply Math_min_fold_nan | now apply IH].
Qed.



(** *** Rounding a positive mantissa *)

Lemma shr_1_nonneg (mrs : shr_record) : (0 <= shr_m mrs)%Z -> (0 <= shr_m (shr_1 mrs))%Z.
Proof.
  destruct mrs as [m r s]. destruct m as [|p|p]; [| |simpl; lia]; try destruct p; simpl; lia.
Qed.

Lemma iter_pos_nonneg (n : positive) (mrs : shr_record) :
  (0 <= shr_m mrs)%Z -> (0 <= shr_m (SpecFloat.iter_pos shr_1 n mrs))%Z.
Proof.
  revert mrs. induction n as [n IH|n IH|]; intros mrs Hm; cbn [SpecFloat.iter_pos].
  - apply IH, IH, shr_1_nonneg, Hm.
  - apply IH, IH, Hm.
  - apply shr_1_nonneg, Hm.
Qed.

Lemma shr_fexp_nonneg (m e : Z) (l : location) :
  (0 <= m)%Z -> (0 <= shr_m (fst (shr_fexp prec emax m e l)))%Z.
Proof.
  intros Hm. unfold shr_fexp, shr.
  assert (H0 : (0 <= shr_m (shr_record_of_loc m l))%Z) by (destruct l as [|[| |]]; exact Hm).
  destruct (fexp prec emax (Zdigits2 m + e) - e)%Z; cbn [fst]; auto.
  now apply iter_pos_nonneg.
Qed.

Lemma round_nearest_even_nonneg (m : Z) (l : location) :
  (0 <= m)%Z -> (0 <= round_nearest_even m l)%Z.
Proof.
  intros Hm. destruct l as [|[| |]]; simpl; try lia. destruct (Z.even m); lia.
Qed.

(** Rounding a positive mantissa gives a zero, a finite number or an
    infinity of the sign asked for, never [NaN]. *)
Lemma binary_round_aux_pos (s : bool) (m : positive) (e : Z) (l : location) :
  match binary_round_aux prec emax s (Z.pos m) e l with
  | S754_zero s' | S754_infinity s' | S754_finite s' _ _ => s' = s
  | S754_nan => False
  end.
Proof.
  unfold binary_round_aux.
  pose proof (@shr_fexp_nonneg (Z.pos m) e l ltac:(lia)) as H1.
  destruct (shr_fexp prec emax (Z.pos m) e l) as [mrs' e']. cbn [fst] in H1.
  pose proof (@shr_fexp_nonneg (round_nearest_even (shr_m mrs') (loc_of_shr_record mrs')) e'
                loc_Exact (round_nearest_even_nonneg _ H1)) as H2.
  destruct (shr_fexp prec emax _ e' loc_Exact) as [mrs'' e'']. cbn [fst] in H2.
  destruct (shr_m mrs'') as [|p|p]; [reflexivity | | lia].
  destruct (e'' <=? emax - prec)%Z; reflexivity.
Qed.

(** *** Multiplication by 1 is exact *)

Lemma mul_1_l_finite (s : bool) (m : positive) (e : Z) :
  bounded prec emax m e = true ->
  SF64mul (S754_finite false 4503599627370496 (-52)) (S754_finite s m e)
  = S754_finite s m e.
Proof.
  intros Hb.
  unfold bounded, canonical_mantissa, fexp in Hb.
  apply andb_prop in Hb as [Hc He]. apply Z.eqb_eq in Hc. apply Z.leb_le in He.
  change (SpecFloat.emin prec emax) with (-1074)%Z in Hc. change prec with 53%Z in Hc, He.
  change emax with 1024%Z in He.
  unfold SF64mul, SFmul. cbn [xorb Pos.mul].
  unfold binary_round_aux, shr_fexp, fexp.
  change (SpecFloat.emin prec emax) with (-1074)%Z. change prec with 53%Z.
  change emax with 1024%Z.
  cbn [Zdigits2 digits2_pos].
  rewrite !Pos2Z.inj_succ.
  set (d := Z.pos (digits2_pos m)) in *.
  match goal with |- context [shr _ _ ?n] => assert (Hs : n = 52%Z) end.
  { clearbody d. repeat rewrite <- Z.add_1_r. lia. }
  rewrite Hs.
  cbn [shr shr_record_of_loc SpecFloat.iter_pos shr_1 orb shr_m loc_of_shr_record
       round_nearest_even Zdigits2].
  fold d. replace (Z.max _ _ - _)%Z with 0%Z by lia.
  cbn [shr shr_m].
  replace (-52 + e + 52 <=? 1024 - 53)%Z with true by (symmetry; apply Z.leb_le; lia).
  f_equal. lia.
Qed.

Lemma mul_1_l (a : float) : (1 * a)%float = a.
Proof.
  apply Prim2SF_inj. rewrite FloatAxioms.mul_spec.
  change (Prim2SF 1) with (S754_finite false 4503599627370496 (-52)).
  pose proof (Prim2SF_valid a) as Hv.
  destruct (Prim2SF a) as [s|s| |s m e]; try reflexivity.
  apply mul_1_l_finite. exact Hv.
Qed.

(** *** Sums and products of zeros *)

Lemma mul_zero_finite (a c : float) :
  isZero a -> finiteNum c = true -> isZero (a * c)%float.
Proof.
  intros [s Ha] Hc. unfold isZero, finiteNum in *. rewrite FloatAxioms.mul_spec, Ha.
  destruct (Prim2SF c) as [sc|sc| |sc mc ec]; try discriminate Hc; simpl; eauto.
Qed.

Lemma add_zero_zero (a b : float) : isZero a -> isZero b -> isZero (a + b)%float.
Proof.
  intros [sa Ha] [sb Hb]. unfold isZero. rewrite FloatAxioms.add_spec, Ha, Hb.
  destruct sa, sb; simpl; eauto.
Qed.

Lemma magnitude_of_zeros (real imag : float) :
  isZero real -> isZero imag ->
  (PrimFloat.sqrt (real * real + imag * imag) / ofNat fftSize)%float = 0%float.
Proof.
  intros [sr Hr] [si Hi]. apply Prim2SF_inj.
  rewrite FloatAxioms.div_spec, FloatAxioms.sqrt_spec, FloatAxioms.add_spec,
    !FloatAxioms.mul_spec, Hr, Hi.
  replace (Prim2SF (ofNat fftSize)) with (S754_finite false 4503599627370496 (-42))
    by (vm_compute; reflexivity).
  destruct sr, si; reflexivity.
Qed.

(** ** updateParameters, applied again *)

Lemma orElse_idempotent (v : value) (d : float) : orElse v (orElse v d) = orElse v d.
Proof. destruct v as [a|]; simpl; auto. destruct (truthy a); reflexivity. Qed.

(** X1: applying the same parameters a second time changes nothing. *)
Theorem updateParameters_idempotent (this : SignalGenerator) (params : Params) :
  updateParameters (updateParameters this params) params = updateParameters this params.
Proof.
  unfold updateParameters; simpl. now rewrite !orElse_idempotent.
Qed.

(** ** The generators a page can reach *)

Lemma reachable_generator1000 : reachable generator1000.
Proof. apply reachable_update, reachable_new. Qed.

(** X2: whatever calls of [updateParameters] were made since
    [new SignalGenerator()], the sampling fields are the constructor's
    (44100 Hz, 1 s, 44100 samples) and none of the six parameters is 0 or
    [NaN]. *)
Theorem reachable_parameters_truthy (this : SignalGenerator) :
  reachable this ->
  sampleRate this = 44100%float /\ duration this = 1%float
  /\ numSamples this = (44100 * 1)%float
  /\ arrayLength (numSamples this) = Returns (Z.to_nat 44100)
  /\ truthy (carrierFreq this) = true /\ truthy (symbolRate this) = true
  /\ truthy (snr this) = true /\ truthy (modulationIndex this) = true
  /\ truthy (messageFreq this) = true /\ truthy (frequencyDeviation this) = true.
Proof.
  intros Hr. destruct (reachable_invariant Hr) as (Hrate & Hdur & Hnum & Hrest).
  repeat split; try tauto. rewrite Hnum. apply arrayLength_44100.
Qed.

Lemma reachable_parameters_truthy_witness :
  reachable generator1000
  /\ sampleRate generator1000 = 44100%float /\ duration generator1000 = 1%float
  /\ numSamples generator1000 = (44100 * 1)%float
  /\ arrayLength (numSamples generator1000) = Returns (Z.to_nat 44100)
  /\ truthy (carrierFreq generator1000) = true /\ truthy (symbolRate generator1000) = true
  /\ truthy (snr generator1000) = true /\ truthy (modulationIndex generator1000) = true
  /\ truthy (messageFreq generator1000) = true
  /\ truthy (frequencyDeviation generator1000) = true.
Proof.
  split; [exact reachable_generator1000|].
  exact (reachable_parameters_truthy reachable_generator1000).
Defined.

(** X3: on a generator reached from [new SignalGenerator()], a call of
    [generateSignal] for a kind other than ['bpsk'], ['qpsk'] and ['fsk']
    (an unknown kind included) never raises: it returns three sequences
    of 44100 elements and no constellation. *)
Theorem generateSignal_reachable_returns `{Engine} (this : SignalGenerator)
    (modulationType : string) (k0 : nat) :
  reachable this ->
  ~ In modulationType symbolKinds ->
  exists sig k1,
    generateSignal this modulationType k0 = (Returns sig, k1)
    /\ wellFormed (Z.to_nat 44100) sig
    /\ constellation sig = None.
Proof.
  intros Hr Hkind.
  destruct (reachable_invariant Hr) as (_ & _ & Hnum & _).
  assert (Hn : arrayLength (numSamples this) = Returns (Z.to_nat 44100))
    by (rewrite Hnum; apply arrayLength_44100).
  by_kind modulationType; try (exfalso; apply Hkind; subst; simpl; tauto).
  - destruct (generateAM_returns this Hn k0) as (sig & k1 & -> & ? & _ & ?). eauto.
  - destruct (generateFM_returns this Hn k0) as (sig & k1 & -> & ? & _ & ?). eauto.
  - destruct (generateLSB_returns this Hn k0) as (sig & k1 & -> & ? & ?). eauto.
  - destruct (generateUSB_returns this Hn k0) as (sig & k1 & -> & ? & ?). eauto.
  - destruct (generateSSB_returns this Hn false k0) as (sig & k1 & -> & ? & ?). eauto.
  - destruct (generateAM_returns this Hn k0) as (sig & k1 & -> & ? & _ & ?). eauto.
Qed.

Lemma lsb_not_symbol_kind : ~ In "lsb"%string symbolKinds.
Proof. simpl. intros Hin. repeat (destruct Hin as [Hin|Hin]; [discriminate|]). exact Hin. Qed.

Lemma generateSignal_reachable_returns_witness :
  reachable generator1000
  /\ ~ In "lsb"%string symbolKinds
  /\ exists sig k1,
       @generateSignal flatEngine generator1000 "lsb" 0 = (Returns sig, k1)
       /\ wellFormed (Z.to_nat 44100) sig
       /\ constellation sig = None.
Proof.
  split; [exact reachable_generator1000|].
  split; [exact lsb_not_symbol_kind|].
  exact (@generateSignal_reachable_returns flatEngine generator1000 "lsb" 0
           reachable_generator1000 lsb_not_symbol_kind).
Defined.

(** ** Random draws *)

Lemma mapR_counter {A B : Type} (f : A -> Rand B) (c : nat) (arr : list A) (k : nat) :
  (forall a j, snd (f a j) = (c + j)%nat) ->
  snd (mapR f arr k) = (c * length arr + k)%nat.
Proof.
  intros Hf. revert k. induction arr as [|a arr IH]; intros k; simpl; [lia|].
  unfold bind. specialize (Hf a k). destruct (f a k) as [b k1].
  specialize (IH k1). destruct (mapR f arr k1) as [bs k2]. simpl in *. lia.
Qed.

Lemma addNoise_counter `{Engine} (signal : list float) (snrDb : float) (k0 : nat) :
  snd (addNoise signal snrDb k0) = (2 * length signal + k0)%nat.
Proof. unfold addNoise. apply mapR_counter. intros a j. reflexivity. Qed.

Lemma arrayFromR_counter {B : Type} (f : Rand B) (len k0 : nat) :
  (forall j, snd (f j) = S j) ->
  snd (arrayFromR len f k0) = (len + k0)%nat.
Proof.
  intros Hf. unfold arrayFromR. rewrite (mapR_counter _ 1) by (intros a j; apply Hf).
  rewrite length_seq. lia.
Qed.

(** X4: [addNoise] returns as many samples as it is given and calls
    [Math.random()] exactly twice per sample, in order: sample [i] is
    [signal[i]] plus the Box-Muller value of draws [2i] and [2i + 1] since
    the call, scaled by an amplitude computed once from the whole
    signal. *)
Theorem addNoise_draws `{Engine} (signal : list float) (snrDb : float) (k0 : nat) :
  length (fst (addNoise signal snrDb k0)) = length signal
  /\ snd (addNoise signal snrDb k0) = (k0 + 2 * length signal)%nat
  /\ forall i, (i < length signal)%nat ->
       nth i (fst (addNoise signal snrDb k0)) nan
       = (nth i signal nan
          + boxMuller (noiseAmplitude signal snrDb)
              (Math_random (k0 + 2 * i)) (Math_random (k0 + 2 * i + 1)))%float.
Proof.
  split; [apply addNoise_length|]. split; [rewrite addNoise_counter; lia|].
  intros i Hi. now rewrite addNoise_nth.
Qed.

Section Draws.

Context `{Engine}.
Variable this : SignalGenerator.
Variable n : nat.
Hypothesis Hn : arrayLength (numSamples this) = Returns n.

Ltac count_noise k0 :=
  match goal with
  | |- context [addNoise ?s ?d k0] =>
      let Hc := fresh "Hc" in
      pose proof (addNoise_counter s d k0) as Hc;
      destruct (addNoise s d k0) as [noisy k1];
      cbn [snd] in Hc; eexists; rewrite Hc
  end.

Lemma generateAM_draws (k0 : nat) :
  exists sig, generateAM this k0 = (Returns sig, 2 * n + k0)%nat.
Proof.
  unfold generateAM. run_gen.
  rewrite (generateTimeArray_returns _ Hn), (newArrayFill_returns _ Hn).
  count_noise k0. now rewrite length_mapi, length_tabulate.
Qed.

Lemma generateFM_draws (k0 : nat) :
  exists sig, generateFM this k0 = (Returns sig, 2 * n + k0)%nat.
Proof.
  unfold generateFM. run_gen.
  rewrite (generateTimeArray_returns _ Hn), (newArrayFill_returns _ Hn).
  count_noise k0.
  now rewrite fmLoop_length, length_combine, length_seq, Nat.min_id, length_tabulate.
Qed.

Lemma generateLSB_draws (k0 : nat) :
  exists sig, generateLSB this k0 = (Returns sig, 2 * n + k0)%nat.
Proof.
  unfold generateLSB. run_gen. rewrite (generateTimeArray_returns _ Hn).
  count_noise k0. now rewrite length_mapi, length_tabulate.
Qed.

Lemma generateUSB_draws (k0 : nat) :
  exists sig, generateUSB this k0 = (Returns sig, 2 * n + k0)%nat.
Proof.
  unfold generateUSB. run_gen. rewrite (generateTimeArray_returns _ Hn).
  count_noise k0. now rewrite length_mapi, length_tabulate.
Qed.

Lemma generateSSB_draws (isLSB : bool) (k0 : nat) :
  exists sig, generateSSB this isLSB k0 = (Returns sig, 2 * n + k0)%nat.
Proof.
  unfold generateSSB. run_gen. rewrite (generateTimeArray_returns _ Hn).
  count_noise k0. now rewrite length_mapi, length_tabulate.
Qed.

Variable k : Z.
Hypothesis Hsps : samplesPerSymbol this = JZ k.
Hypothesis Hk : (1 <= k)%Z.

Let kn : nat := Z.to_nat k.

Ltac count_symbols k0 :=
  match goal with
  | |- context [arrayFromR ?len ?f k0] =>
      let Hs := fresh "Hs" in
      pose proof (arrayFromR_counter f len k0 (fun j => eq_refl)) as Hs;
      destruct (arrayFromR len f k0) as [symbols kb];
      cbn [snd] in Hs; subst kb
  end.

Lemma generateBPSK_draws (k0 : nat) :
  exists sig, generateBPSK this k0 = (Returns sig, 2 * n + (n / kn + k0))%nat.
Proof.
  unfold generateBPSK. run_gen.
  rewrite (generateTimeArray_returns _ Hn), length_tabulate,
    (numSymbols_returns this Hn Hsps Hk). fold kn.
  count_symbols k0.
  count_noise (n / kn + k0)%nat. now rewrite length_tabulate.
Qed.

Lemma generateFSK_draws (k0 : nat) :
  exists sig, generateFSK this k0 = (Returns sig, 2 * n + (n / kn + k0))%nat.
Proof.
  unfold generateFSK. run_gen.
  rewrite (generateTimeArray_returns _ Hn), (newArrayFill_returns _ Hn), length_tabulate,
    (numSymbols_returns this Hn Hsps Hk). fold kn.
  count_symbols k0.
  count_noise (n / kn + k0)%nat. now rewrite length_tabulate.
Qed.

Lemma generateQPSK_draws (k0 : nat) :
  exists sig, generateQPSK this k0 = (Returns sig, 2 * n + (n / kn + k0))%nat.
Proof.
  destruct (generateQPSK_returns this Hn Hsps Hk k0) as (sig0 & k10 & pts0 & Hret & _).
  revert Hret.
  unfold generateQPSK. run_gen.
  rewrite (generateTimeArray_returns _ Hn), length_tabulate,
    (numSymbols_returns this Hn Hsps Hk). fold kn.
  count_symbols k0.
  match goal with
  | |- context [forEach ?f ?idx] =>
      pose proof (@forEach_length _ f idx) as Hforlen;
      destruct (forEach f idx) as [modulated|e]; [|intros [=]]
  end.
  specialize (Hforlen _ eq_refl). rewrite length_seq in Hforlen.
  intros _.
  count_noise (n / kn + k0)%nat. now rewrite length_mapi, length_map, Hforlen.
Qed.

End Draws.

(** X5: the number of calls of [Math.random()] in one [generateSignal]:
    two per sample for every kind, after one per symbol for ['bpsk'],
    ['qpsk'] and ['fsk']. *)
Theorem generateSignal_draws `{Engine} (this : SignalGenerator) (n : nat) (k : Z)
    (modulationType : string) (k0 : nat) :
  validParameters this n k ->
  exists sig,
    generateSignal this modulationType k0
    = (Returns sig,
       if includes symbolKinds modulationType
       then (k0 + n / Z.to_nat k + 2 * n)%nat
       else (k0 + 2 * n)%nat).
Proof.
  intros (_ & Hn & Hsps & Hk).
  by_kind modulationType; subst; cbn [includes existsb symbolKinds String.eqb Ascii.eqb
                                        Bool.eqb orb];
    try (rewrite <- String.eqb_neq in *).
  - destruct (generateAM_draws this Hn k0) as [sig ->]. exists sig. f_equal. lia.
  - destruct (generateFM_draws this Hn k0) as [sig ->]. exists sig. f_equal. lia.
  - destruct (generateBPSK_draws this Hn Hsps Hk k0) as [sig ->]. exists sig. f_equal. lia.
  - destruct (generateQPSK_draws this Hn Hsps Hk k0) as [sig ->]. exists sig. f_equal. lia.
  - destruct (generateFSK_draws this Hn Hsps Hk k0) as [sig ->]. exists sig. f_equal. lia.
  - destruct (generateLSB_draws this Hn k0) as [sig ->]. exists sig. f_equal. lia.
  - destruct (generateUSB_draws this Hn k0) as [sig ->]. exists sig. f_equal. lia.
  - destruct (generateSSB_draws this Hn false k0) as [sig ->]. exists sig. f_equal. lia.
  - destruct (generateAM_draws this Hn k0) as [sig ->]. exists sig.
    repeat match goal with
           | Hne : (modulationType =? _)%string = false |- _ => rewrite ?Hne; clear Hne
           end.
    cbn [orb]. f_equal. lia.
Qed.

Lemma generateSignal_draws_witness :
  validParameters constructor (Z.to_nat 44100) 441
  /\ exists sig,
       @generateSignal flatEngine constructor "qpsk" 0
       = (Returns sig,
          if includes symbolKinds "qpsk"
          then (0 + Z.to_nat 44100 / Z.to_nat 441 + 2 * Z.to_nat 44100)%nat
          else (0 + 2 * Z.to_nat 44100)%nat).
Proof.
  split; [exact validParameters_constructor|].
  exact (@generateSignal_draws flatEngine constructor (Z.to_nat 44100) 441 "qpsk" 0
           validParameters_constructor).
Defined.

(** ** Symbol rates outside the sample rate *)

Lemma div_pos_neg (a b : Z) : (0 < a)%Z -> (b < 0)%Z -> (a / b < 0)%Z.
Proof.
  intros Ha Hb.
  pose proof (Z.div_mod a b ltac:(lia)) as Hd.
  pose proof (Z.mod_neg_bound a b Hb) as Hr. nia.
Qed.

Section SymbolRateOutOfRange.

Context `{Engine}.
Variable this : SignalGenerator.
Variable n : nat.
Hypothesis Hn : arrayLength (numSamples this) = Returns n.

(** No whole sample per symbol: the number of symbols is [Infinity]. *)
Lemma numSymbols_zero :
  (0 < n)%nat -> samplesPerSymbol this = JZ 0 -> numSymbols this n = Throws RangeError.
Proof.
  intros Hpos Hsps. unfold numSymbols. rewrite Hsps. unfold floorDiv.
  destruct (Nat.eqb_spec n 0); [lia | reflexivity].
Qed.

Lemma symbol_generators_throw (k0 : nat) :
  (0 < n)%nat -> samplesPerSymbol this = JZ 0 ->
  generateBPSK this k0 = (Throws RangeError, k0)
  /\ generateQPSK this k0 = (Throws RangeError, k0)
  /\ generateFSK this k0 = (Throws RangeError, k0).
Proof.
  intros Hpos Hsps.
  unfold generateBPSK, generateQPSK, generateFSK. run_gen.
  rewrite (generateTimeArray_returns _ Hn), length_tabulate, (numSymbols_zero Hpos Hsps).
  auto.
Qed.

Variable z : Z.
Hypothesis Hsps : samplesPerSymbol this = JZ z.
Hypothesis Hz : (z < 0)%Z.

(** A negative number of samples per symbol: no symbol is drawn. *)
Lemma numSymbols_negative : numSymbols this n = Returns 0%nat.
Proof.
  unfold numSymbols. rewrite Hsps. unfold floorDiv.
  destruct z as [|p|p]; try lia.
  destruct (Nat.eqb_spec n 0) as [->|Hne]; [reflexivity|].
  unfold arrayFromLength.
  pose proof (@div_pos_neg (Z.of_nat n) (Z.neg p) ltac:(lia) ltac:(lia)) as Hq.
  destruct (Z.leb_spec (Z.of_nat n / Z.neg p) 0); [reflexivity | lia].
Qed.

(** With no symbol drawn, sample 0 takes the default symbol and every
    later sample reads [symbols[j]] for a negative [j]: [undefined]. *)
Lemma symbolAt_negative {A : Type} (dflt : A) (i : nat) :
  symbolAt this [] dflt i = if (i =? 0)%nat then Some dflt else None.
Proof.
  unfold symbolAt. rewrite Hsps. unfold floorDiv.
  destruct z as [|p|p]; try lia.
  destruct (Nat.eqb_spec i 0) as [->|Hne]; [reflexivity|].
  pose proof (@div_pos_neg (Z.of_nat i) (Z.neg p) ltac:(lia) ltac:(lia)) as Hq.
  cbn [ltLength length getAt Z.of_nat].
  apply Z.ltb_lt in Hq. now rewrite Hq.
Qed.

Lemma generateQPSK_negative (k0 : nat) :
  (2 <= n)%nat -> generateQPSK this k0 = (Throws TypeError, k0).
Proof.
  intros Hn2. unfold generateQPSK. run_gen.
  rewrite (generateTimeArray_returns _ Hn), length_tabulate, numSymbols_negative.
  cbn [arrayFromR seq mapR ret].
  destruct n as [|[|m]]; try lia.
  cbn [seq forEach]. unfold qpskSymbolAt. rewrite !symbolAt_negative.
  reflexivity.
Qed.

Lemma sum_squares_in_nan (signal : list float) (acc : float) :
  In nan signal -> fold_left (fun sum val => sum + val * val)%float signal acc = nan.
Proof.
  revert acc. induction signal as [|a signal IH]; intros acc; simpl; [tauto|].
  intros [->|Hin]; [|now apply IH].
  now rewrite mul_nan_l, add_nan_r, sum_squares_from_nan.
Qed.

Lemma signalPower_in_nan (signal : list float) : In nan signal -> signalPower signal = nan.
Proof.
  intros Hin. unfold signalPower. rewrite sum_squares_in_nan by exact Hin. apply div_nan_l.
Qed.

Lemma generateBPSK_negative (k0 : nat) :
  (2 <= n)%nat ->
  exists sig k1 pts,
    generateBPSK this k0 = (Returns sig, k1)
    /\ wellFormed n sig
    /\ Forall (fun v => v = nan) (realSignal sig)
    /\ constellation sig = Some pts
    /\ Forall (fun p => x p = None) pts.
Proof.
  intros Hn2. unfold generateBPSK. run_gen.
  rewrite (generateTimeArray_returns _ Hn), length_tabulate, numSymbols_negative.
  cbn [arrayFromR seq mapR ret].
  match goal with
  | |- context [addNoise ?s ?d k0] =>
      pose proof (addNoise_length s d k0) as Hlen;
      pose proof (@addNoise_all_nan _ s d k0) as Hnan;
      destruct (addNoise s d k0) as [noisy k1]
  end.
  cbn [fst] in Hlen, Hnan. rewrite length_tabulate in Hlen.
  eexists; eexists; eexists. split; [reflexivity|].
  split; [|split; [|split; [reflexivity|]]].
  - unfold wellFormed; cbn [time realSignal imagSignal]. now rewrite !length_tabulate.
  - cbn [realSignal]. apply Hnan, signalPower_in_nan.
    replace nan with (nth 1 (tabulate n (fun i =>
        (toNumber (symbolAt this [] 1 i)
         * Math_cos (2 * Math_PI * carrierFreq this
                     * getNum (tabulate n (fun i0 => ofNat i0 / sampleRate this)) i))%float))
      nan).
    + apply nth_In. rewrite length_tabulate. lia.
    + rewrite nth_tabulate by lia. rewrite symbolAt_negative. cbn [Nat.eqb toNumber].
      apply mul_nan_l.
  - cbn [constellation]. unfold pushed. apply flat_map_filter_Forall.
    intros i _ Hs. cbn [x]. rewrite symbolAt_negative.
    destruct (Nat.eqb_spec i 0) as [->|Hne]; [|reflexivity].
    exfalso. unfold startsSymbol in Hs. rewrite Hsps in Hs.
    apply andb_prop in Hs as [_ Hs]. unfold floorDiv in Hs.
    destruct z as [|p|p]; try lia. discriminate Hs.
Qed.

End SymbolRateOutOfRange.

(** X6: when a symbol is shorter than one sample
    ([floor(sampleRate / symbolRate)] is 0), the number of symbols is
    [Infinity] and [generateSignal] raises a [RangeError] for ['bpsk'],
    ['qpsk'] and ['fsk'] before any random number is drawn. *)
Theorem generateSignal_no_sample_per_symbol `{Engine} (this : SignalGenerator) (n : nat)
    (modulationType : string) (k0 : nat) :
  arrayLength (numSamples this) = Returns n -> (0 < n)%nat ->
  samplesPerSymbol this = JZ 0 ->
  In modulationType symbolKinds ->
  generateSignal this modulationType k0 = (Throws RangeError, k0).
Proof.
  intros Hn Hpos Hsps Hin.
  destruct (symbol_generators_throw this Hn k0 Hpos Hsps) as (Hb & Hq & Hf).
  simpl in Hin. destruct Hin as [<-|[<-|[<-|[]]]]; assumption.
Qed.

Lemma positive_44100 : (0 < Z.to_nat 44100)%nat.
Proof. lia. Qed.

Lemma samplesPerSymbol_50000 : samplesPerSymbol generator50000 = JZ 0.
Proof. vm_compute. reflexivity. Qed.

Lemma generateSignal_no_sample_per_symbol_witness :
  arrayLength (numSamples generator50000) = Returns (Z.to_nat 44100)
  /\ (0 < Z.to_nat 44100)%nat
  /\ samplesPerSymbol generator50000 = JZ 0
  /\ In "fsk"%string symbolKinds
  /\ @generateSignal flatEngine generator50000 "fsk" 0 = (Throws RangeError, 0%nat).
Proof.
  split; [exact arrayLength_44100|]. split; [exact positive_44100|].
  split; [exact samplesPerSymbol_50000|].
  split; [simpl; auto|].
  exact (@generateSignal_no_sample_per_symbol flatEngine generator50000 (Z.to_nat 44100)
           "fsk" 0 arrayLength_44100 positive_44100 samplesPerSymbol_50000
           (or_intror (or_intror (or_introl eq_refl)))).
Defined.

(** X7: with a negative symbol rate no symbol is drawn, and from sample
    1 on the symbol read is [symbols[-1]], which is [undefined]: for
    ['qpsk'], reading its [i] raises a [TypeError]. *)
Theorem generateSignal_qpsk_negative_rate `{Engine} (this : SignalGenerator) (n : nat)
    (z : Z) (k0 : nat) :
  arrayLength (numSamples this) = Returns n -> (2 <= n)%nat ->
  samplesPerSymbol this = JZ z -> (z < 0)%Z ->
  generateSignal this "qpsk" k0 = (Throws TypeError, k0).
Proof.
  intros Hn Hn2 Hsps Hz. exact (generateQPSK_negative this Hn Hsps Hz k0 Hn2).
Qed.

Lemma two_le_44100 : (2 <= Z.to_nat 44100)%nat.
Proof. lia. Qed.

Lemma samplesPerSymbol_negative : samplesPerSymbol generatorNegative = JZ (-441).
Proof. vm_compute. reflexivity. Qed.

Lemma generateSignal_qpsk_negative_rate_witness :
  arrayLength (numSamples generatorNegative) = Returns (Z.to_nat 44100)
  /\ (2 <= Z.to_nat 44100)%nat
  /\ samplesPerSymbol generatorNegative = JZ (-441)
  /\ (-441 < 0)%Z
  /\ @generateSignal flatEngine generatorNegative "qpsk" 0 = (Throws TypeError, 0%nat).
Proof.
  split; [exact arrayLength_44100|]. split; [exact two_le_44100|].
  split; [exact samplesPerSymbol_negative|].
  split; [reflexivity|].
  exact (@generateSignal_qpsk_negative_rate flatEngine generatorNegative (Z.to_nat 44100)
           (-441) 0 arrayLength_44100 two_le_44100 samplesPerSymbol_negative eq_refl).
Defined.

(** X8: with a negative symbol rate ['bpsk'] raises nothing, but from
    sample 1 on the bit is [undefined]: every sample of the real sequence
    comes out [NaN], and every constellation point has an undefined
    [x]. *)
Theorem generateSignal_bpsk_negative_rate `{Engine} (this : SignalGenerator) (n : nat)
    (z : Z) (k0 : nat) :
  arrayLength (numSamples this) = Returns n -> (2 <= n)%nat ->
  samplesPerSymbol this = JZ z -> (z < 0)%Z ->
  exists sig k1 pts,
    generateSignal this "bpsk" k0 = (Returns sig, k1)
    /\ wellFormed n sig
    /\ Forall (fun v => v = nan) (realSignal sig)
    /\ constellation sig = Some pts
    /\ Forall (fun p => x p = None) pts.
Proof.
  intros Hn Hn2 Hsps Hz. exact (generateBPSK_negative this Hn Hsps Hz k0 Hn2).
Qed.

Lemma generateSignal_bpsk_negative_rate_witness :
  arrayLength (numSamples generatorNegative) = Returns (Z.to_nat 44100)
  /\ (2 <= Z.to_nat 44100)%nat
  /\ samplesPerSymbol generatorNegative = JZ (-441)
  /\ (-441 < 0)%Z
  /\ exists sig k1 pts,
       @generateSignal flatEngine generatorNegative "bpsk" 0 = (Returns sig, k1)
       /\ wellFormed (Z.to_nat 44100) sig
       /\ Forall (fun v => v = nan) (realSignal sig)
       /\ constellation sig = Some pts
       /\ Forall (fun p => x p = None) pts.
Proof.
  split; [exact arrayLength_44100|]. split; [exact two_le_44100|].
  split; [exact samplesPerSymbol_negative|].
  split; [reflexivity|].
  exact (@generateSignal_bpsk_negative_rate flatEngine generatorNegative (Z.to_nat 44100)
           (-441) 0 arrayLength_44100 two_le_44100 samplesPerSymbol_negative eq_refl).
Defined.

(** ** The constellation *)

(** The symbols [generateQPSK] draws are the four points of its
    [switch]. *)
Lemma qpskSymbol_values (u : float) (q : iq) :
  qpskSymbol u = Some q ->
  (iq_i q = (1 / PrimFloat.sqrt 2)%float \/ iq_i q = (-1 / PrimFloat.sqrt 2)%float)
  /\ (iq_q q = (1 / PrimFloat.sqrt 2)%float \/ iq_q q = (-1 / PrimFloat.sqrt 2)%float).
Proof.
  unfold qpskSymbol.
  destruct (Math_floor (u * 4)) as [| | |z]; try discriminate;
    [intros [= <-]; simpl; auto|].
  destruct z as [|p|p]; [intros [= <-]; simpl; auto | | discriminate].
  destruct p as [[p|p|]|[p|p|]|]; try discriminate; intros [= <-]; simpl; auto.
Qed.

(** The starts of the first [len] symbols of [k] samples each, among the
    indices below [n]. *)
Lemma symbol_starts (B : Type) (g : nat -> B) (k len n : nat) :
  (1 <= k)%nat ->
  flat_map (fun i => if ((i mod k =? 0) && (i / k <? len))%nat then [g i] else []) (seq 0 n)
  = map (fun j => g (j * k)%nat) (seq 0 (Nat.min len ((n + k - 1) / k))).
Proof.
  intros Hk. induction n as [|n IH].
  - simpl. rewrite Nat.div_small by lia. now rewrite Nat.min_0_r.
  - rewrite seq_S, flat_map_app, IH.
    replace ((S n + k - 1) / k)%nat with (n / k + 1)%nat
      by (replace (S n + k - 1)%nat with (n + 1 * k)%nat by lia;
          now rewrite Nat.div_add by lia).
    cbn [flat_map Nat.add]. rewrite app_nil_r.
    pose proof (Nat.div_mod_eq n k) as Hn.
    pose proof (Nat.mod_upper_bound n k ltac:(lia)) as Hr.
    destruct (Nat.eqb_spec (n mod k) 0) as [Hz|Hnz]; cbn [andb].
    + assert (Hq : ((n + k - 1) / k = n / k)%nat).
      { symmetry. apply (Nat.div_unique _ _ _ (k - 1)); lia. }
      rewrite Hq.
      destruct (Nat.ltb_spec (n / k) len) as [Hlt|Hge].
      * rewrite (Nat.min_r len (n / k)), (Nat.min_r len (n / k + 1)) by lia.
        rewrite Nat.add_1_r, seq_S, map_app. cbn [map Nat.add]. do 3 f_equal. nia.
      * rewrite !Nat.min_l by lia. apply app_nil_r.
    + assert (Hq : ((n + k - 1) / k = n / k + 1)%nat).
      { symmetry. apply (Nat.div_unique _ _ _ (n mod k - 1)); lia. }
      rewrite Hq. apply app_nil_r.
Qed.

(** [Array.from({length: len}, () => g(Math.random()))]: element [j] comes
    from draw [k0 + j], and [len] draws are made. *)
Lemma mapR_draws `{Engine} {A B : Type} (g : float -> B) (arr : list A) (k0 : nat) :
  mapR (fun _ => u <- random ;; ret (g u)) arr k0
  = (map (fun j => g (Math_random (k0 + j))) (seq 0 (length arr)), (k0 + length arr)%nat).
Proof.
  revert k0. induction arr as [|a arr IH]; intros k0.
  - cbn. unfold ret. now rewrite Nat.add_0_r.
  - cbn [mapR length seq map]. unfold bind at 1. unfold bind at 1.
    unfold random at 1. unfold ret at 1. cbv beta iota.
    unfold bind at 1. rewrite IH. unfold ret. cbv beta iota.
    rewrite Nat.add_0_r. f_equal; [|lia]. f_equal.
    rewrite <- seq_shift, map_map. apply map_ext. intros j. now rewrite Nat.add_succ_r.
Qed.

Lemma arrayFromR_draws `{Engine} {B : Type} (g : float -> B) (len k0 : nat) :
  arrayFromR len (u <- random ;; ret (g u)) k0
  = (map (fun j => g (Math_random (k0 + j))) (seq 0 len), (k0 + len)%nat).
Proof. unfold arrayFromR. now rewrite mapR_draws, length_seq. Qed.

Section Constellation.

Context `{Engine}.
Variable this : SignalGenerator.
Variable n : nat.
Variable k : Z.
Hypothesis Hn : arrayLength (numSamples this) = Returns n.
Hypothesis Hsps : samplesPerSymbol this = JZ k.
Hypothesis Hk : (1 <= k)%Z.
Local Open Scope float_scope.

Let kn : nat := Z.to_nat k.

(** One point per symbol, in the order of the symbols: point [j] is
    pushed at sample [j * k]. *)
Lemma pushed_map {A : Type} (symbols : list A) (pt : nat -> point) :
  length symbols = (n / kn)%nat ->
  pushed this symbols pt n = map (fun j => pt (j * kn)%nat) (seq 0 (n / kn)).
Proof.
  intros Hlen. unfold pushed.
  rewrite (flat_map_ext _ (fun i => if ((i mod kn =? 0) && (i / kn <? n / kn))%nat
                                    then [pt i] else []))
    by (intros i; now rewrite (startsSymbol_eq this Hsps Hk), Hlen).
  rewrite symbol_starts by (subst kn; lia).
  rewrite Nat.min_l; [reflexivity|]. apply Nat.Div0.div_le_mono. lia.
Qed.

Lemma symbolAt_start {A : Type} (symbols : list A) (dflt : A) (j : nat) :
  (j < length symbols)%nat ->
  symbolAt this symbols dflt (j * kn) = nth_error symbols j.
Proof.
  intros Hj. rewrite (symbolAt_eq this Hsps Hk). fold kn.
  rewrite Nat.div_mul by (subst kn; lia).
  apply Nat.ltb_lt in Hj. now rewrite Hj.
Qed.

Lemma map_nth_error_seq {A B : Type} (g : A -> B) (l : list A) (d : B) :
  map (fun j => match nth_error l j with Some a => g a | None => d end) (seq 0 (length l))
  = map g l.
Proof.
  induction l as [|a l IH]; [reflexivity|].
  cbn [length seq map nth_error]. f_equal.
  rewrite <- seq_shift, map_map. exact IH.
Qed.

(** What [generateBPSK] returns, in terms of the draws. *)
Lemma generateBPSK_drawn (k0 : nat) :
  let bits := drawnBits k0 (n / kn) in
  exists sig,
    generateBPSK this k0 = (Returns sig, (k0 + n / kn + 2 * n)%nat)
    /\ constellation sig = Some (map (fun b => {| x := Some b; y := Some 0 |}) bits)
    /\ forall i, (i < n / kn * kn)%nat ->
         nth i (realSignal sig) nan
         = nth (i / kn) bits nan * carrierAt this (carrierFreq this) i
           + noiseAt (noiseAmplitude (bpskSignal this bits n) (snr this)) (k0 + n / kn) i.
Proof.
  intros bits.
  assert (Hbits : length bits = (n / kn)%nat)
    by (unfold bits, drawnBits; now rewrite length_map, length_seq).
  unfold generateBPSK. run_gen.
  rewrite (generateTimeArray_returns _ Hn), length_tabulate,
    (numSymbols_returns this Hn Hsps Hk).
  fold kn.
  match goal with
  | |- context [arrayFromR ?len ?f k0] =>
      change (arrayFromR len f k0)
        with (arrayFromR len (u <- random ;; ret (if 0.5 <? u then 1 else -1)) k0)
  end.
  rewrite (arrayFromR_draws (fun u => if 0.5 <? u then 1 else -1) (n / kn) k0).
  fold (drawnBits k0 (n / kn)). fold bits.
  match goal with
  | |- context [addNoise ?s ?d ?kb] =>
      assert (Hs : s = bpskSignal this bits n)
        by (unfold bpskSignal, tabulate; apply map_ext_in; intros i Hi;
            apply in_seq in Hi; rewrite (timeArray_nth this (n := n)) by lia; reflexivity);
      rewrite Hs;
      pose proof (addNoise_nth (bpskSignal this bits n) d kb) as Hnth;
      pose proof (addNoise_counter (bpskSignal this bits n) d kb) as Hcnt;
      destruct (addNoise (bpskSignal this bits n) d kb) as [noisy k1]
  end.
  cbn [snd] in Hcnt. unfold bpskSignal in Hcnt at 1. rewrite length_tabulate in Hcnt.
  eexists. split; [f_equal; lia|]. split.
  - cbn [constellation]. f_equal. rewrite (pushed_map _ _ Hbits), <- Hbits.
    rewrite <- (map_nth_error_seq (fun b => {| x := Some b; y := Some 0 |}) bits
                  {| x := None; y := Some 0 |}).
    apply map_ext_in. intros j Hj. apply in_seq in Hj.
    rewrite symbolAt_start by lia.
    now destruct (nth_error bits j).
  - intros i Hi. cbn [realSignal]. cbn [fst] in Hnth.
    assert (Hin : (i < n)%nat).
    { pose proof (Nat.Div0.mul_div_le n kn). lia. }
    rewrite Hnth by (unfold bpskSignal; now rewrite length_tabulate).
    unfold bpskSignal at 1. rewrite nth_tabulate by exact Hin.
    rewrite (symbolAt_eq this Hsps Hk). fold kn.
    assert (Hq : (i / kn < length bits)%nat).
    { rewrite Hbits. apply Nat.Div0.div_lt_upper_bound. lia. }
    apply Nat.ltb_lt in Hq as Hq'. rewrite Hq'.
    rewrite (nth_error_nth' bits nan) by exact Hq. reflexivity.
Qed.

Lemma generateQPSK_points (k0 : nat) :
  exists sig k1 pts,
    generateQPSK this k0 = (Returns sig, k1)
    /\ constellation sig = Some pts
    /\ length pts = (n / kn)%nat
    /\ Forall qpskPoint pts.
Proof.
  destruct (generateQPSK_returns this Hn Hsps Hk k0) as (sig0 & k10 & pts0 & Hret & _).
  revert Hret.
  unfold generateQPSK. run_gen.
  rewrite (generateTimeArray_returns _ Hn), length_tabulate,
    (numSymbols_returns this Hn Hsps Hk).
  fold kn.
  set (drawn := fun s : option iq =>
         exists q, s = Some q
           /\ (iq_i q = 1 / PrimFloat.sqrt 2 \/ iq_i q = -1 / PrimFloat.sqrt 2)
           /\ (iq_q q = 1 / PrimFloat.sqrt 2 \/ iq_q q = -1 / PrimFloat.sqrt 2)).
  match goal with
  | |- context [arrayFromR ?len ?f k0] =>
      pose proof (arrayFromR_length len f k0) as Hsyms;
      pose proof (mapR_Forall drawn (fun _ : nat => f) (seq 0 len) k0) as Hval;
      fold (arrayFromR len f) in Hval;
      destruct (arrayFromR len f k0) as [symbols kb]
  end.
  simpl in Hsyms.
  assert (Hval' : Forall drawn symbols).
  { apply Hval. intros _ j. unfold bind, random, ret. simpl.
    pose proof (qpskSymbol_defined j) as Hdef.
    destruct (qpskSymbol (Math_random j)) as [q|] eqn:Hq; [|congruence].
    exists q. split; [reflexivity|]. now apply qpskSymbol_values with (u := Math_random j). }
  clear Hval.
  match goal with
  | |- context [forEach ?f ?idx] =>
      destruct (forEach f idx) as [modulated|e]; [|intros [=]]
  end.
  match goal with
  | |- context [addNoise ?s ?d kb] => destruct (addNoise s d kb) as [noisy k1]
  end.
  intros _. eexists; eexists; eexists. split; [reflexivity|].
  split; [reflexivity|]. split; [eapply pushed_length; eauto|].
  eapply pushed_Forall; eauto. fold kn. intros i Hi.
  unfold qpskSymbolAt. rewrite (symbolAt_eq this Hsps Hk). fold kn.
  apply Nat.ltb_lt in Hi as Hi'. rewrite Hi'.
  destruct (nth_error symbols (i / kn)) as [s|] eqn:Hs.
  - apply nth_error_In in Hs. rewrite Forall_forall in Hval'.
    destruct (Hval' _ Hs) as (q & -> & Hi1 & Hq1).
    unfold qpskPoint; cbn [x y].
    split; [destruct Hi1 as [-> | ->] | destruct Hq1 as [-> | ->]]; auto.
  - apply nth_error_None in Hs. lia.
Qed.

End Constellation.

(** X9: for a valid parameter set the constellation of ['qpsk'] has one
    point per symbol, each coordinate of which is [1/sqrt 2] or
    [-1/sqrt 2]; the points of ['fsk'] are [(1, 0)] or [(-1, 0)]. *)
Theorem constellation_points `{Engine} (this : SignalGenerator) (n : nat) (k : Z)
    (k0 : nat) :
  validParameters this n k ->
  (exists sig k1 pts,
      generateSignal this "qpsk" k0 = (Returns sig, k1)
      /\ constellation sig = Some pts
      /\ length pts = (n / Z.to_nat k)%nat
      /\ Forall qpskPoint pts)
  /\ (exists sig k1 pts,
      generateSignal this "fsk" k0 = (Returns sig, k1)
      /\ constellation sig = Some pts
      /\ length pts = (n / Z.to_nat k)%nat
      /\ Forall bpskPoint pts).
Proof.
  intros (_ & Hn & Hsps & Hk). split.
  - exact (generateQPSK_points this Hn Hsps Hk k0).
  - destruct (generateFSK_returns this Hn Hsps Hk k0)
      as (sig & k1 & pts & Hret & _ & _ & Hc & Hlen & Hpts).
    exists sig, k1, pts. auto.
Qed.

Lemma constellation_points_witness :
  validParameters constructor (Z.to_nat 44100) 441
  /\ (exists sig k1 pts,
        @generateSignal flatEngine constructor "qpsk" 0 = (Returns sig, k1)
        /\ constellation sig = Some pts
        /\ length pts = (Z.to_nat 44100 / Z.to_nat 441)%nat
        /\ Forall qpskPoint pts)
  /\ (exists sig k1 pts,
        @generateSignal flatEngine constructor "fsk" 0 = (Returns sig, k1)
        /\ constellation sig = Some pts
        /\ length pts = (Z.to_nat 44100 / Z.to_nat 441)%nat
        /\ Forall bpskPoint pts).
Proof.
  split; [exact validParameters_constructor|].
  exact (@constellation_points flatEngine constructor (Z.to_nat 44100) 441 0
           validParameters_constructor).
Defined.

(** X10: for a valid parameter set the constellation of ['bpsk'] lists
    the drawn bits in the order of the draws: with [k0] calls of
    [Math.random()] made before, bit [j] is 1 when draw [k0 + j] exceeds
    0.5 and -1 otherwise, and point [j] is [(bit j, 0)].  Bit [j] is the
    one that multiplies the carrier in the samples [j * k .. j * k + k - 1]
    of symbol [j] ([k] samples per symbol); the noise added comes from the
    draws after those of the bits, with the amplitude computed from the
    signal before noise. *)
Theorem bpsk_constellation_follows_symbols `{Engine} (this : SignalGenerator) (n : nat)
    (k : Z) (k0 : nat) :
  validParameters this n k ->
  let kn := Z.to_nat k in
  let bits := drawnBits k0 (n / kn) in
  exists sig,
    generateSignal this "bpsk" k0 = (Returns sig, (k0 + n / kn + 2 * n)%nat)
    /\ constellation sig = Some (map (fun b => {| x := Some b; y := Some 0%float |}) bits)
    /\ forall i, (i < n / kn * kn)%nat ->
         nth i (realSignal sig) nan
         = (nth (i / kn) bits nan * carrierAt this (carrierFreq this) i
            + noiseAt (noiseAmplitude (bpskSignal this bits n) (snr this))
                (k0 + n / kn) i)%float.
Proof.
  intros (_ & Hn & Hsps & Hk). exact (generateBPSK_drawn this Hn Hsps Hk k0).
Qed.

Lemma bpsk_constellation_follows_symbols_witness :
  validParameters constructor (Z.to_nat 44100) 441
  /\ let kn := Z.to_nat 441 in
     let bits := @drawnBits flatEngine 0 (Z.to_nat 44100 / kn) in
     exists sig,
       @generateSignal flatEngine constructor "bpsk" 0
       = (Returns sig, (0 + Z.to_nat 44100 / kn + 2 * Z.to_nat 44100)%nat)
       /\ constellation sig
          = Some (map (fun b => {| x := Some b; y := Some 0%float |}) bits)
       /\ forall i, (i < Z.to_nat 44100 / kn * kn)%nat ->
            nth i (realSignal sig) nan
            = (nth (i / kn) bits nan
               * @carrierAt flatEngine constructor (carrierFreq constructor) i
               + @noiseAt flatEngine
                   (@noiseAmplitude flatEngine
                      (@bpskSignal flatEngine constructor bits (Z.to_nat 44100))
                      (snr constructor))
                   (0 + Z.to_nat 44100 / kn) i)%float.
Proof.
  split; [exact validParameters_constructor|].
  exact (@bpsk_constellation_follows_symbols flatEngine constructor (Z.to_nat 44100) 441 0
           validParameters_constructor).
Defined.

(** ** The single-sideband kinds *)

Section Sideband.

Context `{Engine}.
Variable this : SignalGenerator.
Variable n : nat.
Hypothesis Hn : arrayLength (numSamples this) = Returns n.
Local Open Scope float_scope.

(** The message the three generators modulate. *)
Let message : list float :=
  generateVoiceLikeSignal this (tabulate n (fun i => ofNat i / sampleRate this)).

Ltac ssb_imag Hret :=
  revert Hret; run_gen; rewrite (generateTimeArray_returns _ Hn);
  match goal with
  | |- context [addNoise ?s ?d ?k] => destruct (addNoise s d k) as [noisy k2]
  end;
  intros [= <- <-]; split; reflexivity.

Lemma generateLSB_imag (k0 : nat) (sig : Signal) (k1 : nat) :
  generateLSB this k0 = (Returns sig, k1) ->
  time sig = tabulate n (fun i => ofNat i / sampleRate this)
  /\ imagSignal sig = approximateHilbertTransform message.
Proof. intros Hret. unfold generateLSB in Hret. ssb_imag Hret. Qed.

Lemma generateUSB_imag (k0 : nat) (sig : Signal) (k1 : nat) :
  generateUSB this k0 = (Returns sig, k1) ->
  time sig = tabulate n (fun i => ofNat i / sampleRate this)
  /\ imagSignal sig = approximateHilbertTransform message.
Proof. intros Hret. unfold generateUSB in Hret. ssb_imag Hret. Qed.

Lemma generateSSB_imag (isLSB : bool) (k0 : nat) (sig : Signal) (k1 : nat) :
  generateSSB this isLSB k0 = (Returns sig, k1) ->
  time sig = tabulate n (fun i => ofNat i / sampleRate this)
  /\ imagSignal sig = approximateHilbertTransform message.
Proof. intros Hret. unfold generateSSB in Hret. ssb_imag Hret. Qed.

End Sideband.

Lemma approximateHilbertTransform_nth (signal : list float) (i : nat) :
  (i < length signal)%nat ->
  nth_error (approximateHilbertTransform signal) i
  = Some (if (i <? 3)%nat then None
          else Some (0.5 * (getNum signal i - getNum signal (i - 2)))%float).
Proof. intros Hi. unfold approximateHilbertTransform. now rewrite nth_error_tabulate. Qed.

(** X11: in every state of the generator, ['lsb'], ['usb'] and ['ssb']
    return a real sequence whose samples are all [NaN], and an imaginary
    sequence that is the two-sample difference of the voice-like message,
    [0.5 * (m[i] - m[i-2])], from index 3 on, with holes at the indices 0,
    1 and 2. *)
Theorem generateSignal_sideband `{Engine} (this : SignalGenerator) (n : nat)
    (modulationType : string) (k0 : nat) :
  arrayLength (numSamples this) = Returns n ->
  In modulationType ["lsb"; "usb"; "ssb"]%string ->
  exists sig k1,
    generateSignal this modulationType k0 = (Returns sig, k1)
    /\ wellFormed n sig
    /\ Forall (fun v => v = nan) (realSignal sig)
    /\ forall i, (i < n)%nat ->
         let m := generateVoiceLikeSignal this (time sig) in
         nth_error (imagSignal sig) i
         = Some (if (i <? 3)%nat then None
                 else Some (0.5 * (getNum m i - getNum m (i - 2)))%float).
Proof.
  intros Hn Hin.
  assert (Hret : exists sig k1,
             generateSignal this modulationType k0 = (Returns sig, k1)
             /\ allNaN n sig
             /\ time sig = tabulate n (fun i => (ofNat i / sampleRate this)%float)
             /\ imagSignal sig
                = approximateHilbertTransform
                    (generateVoiceLikeSignal this
                       (tabulate n (fun i => (ofNat i / sampleRate this)%float)))).
  { simpl in Hin. destruct Hin as [<-|[<-|[<-|[]]]].
    - destruct (generateLSB_all_nan this Hn k0) as (sig & k1 & Hret & Hall).
      exists sig, k1. split; [exact Hret|]. split; [exact Hall|].
      exact (generateLSB_imag this Hn k0 Hret).
    - destruct (generateUSB_all_nan this Hn k0) as (sig & k1 & Hret & Hall).
      exists sig, k1. split; [exact Hret|]. split; [exact Hall|].
      exact (generateUSB_imag this Hn k0 Hret).
    - destruct (generateSSB_all_nan this Hn false k0) as (sig & k1 & Hret & Hall).
      exists sig, k1. split; [exact Hret|]. split; [exact Hall|].
      exact (generateSSB_imag this Hn false k0 Hret). }
  destruct Hret as (sig & k1 & Hret & (Hwf & Hnan & _) & Htime & Himag).
  exists sig, k1. split; [exact Hret|]. split; [exact Hwf|]. split; [exact Hnan|].
  intros i Hi m. subst m. rewrite Himag, Htime.
  apply approximateHilbertTransform_nth.
  now rewrite generateVoiceLikeSignal_length, length_tabulate.
Qed.

Lemma generateSignal_sideband_witness :
  arrayLength (numSamples constructor) = Returns (Z.to_nat 44100)
  /\ In "usb"%string ["lsb"; "usb"; "ssb"]%string
  /\ exists sig k1,
       @generateSignal flatEngine constructor "usb" 0 = (Returns sig, k1)
       /\ wellFormed (Z.to_nat 44100) sig
       /\ Forall (fun v => v = nan) (realSignal sig)
       /\ forall i, (i < Z.to_nat 44100)%nat ->
            let m := @generateVoiceLikeSignal flatEngine constructor (time sig) in
            nth_error (imagSignal sig) i
            = Some (if (i <? 3)%nat then None
                    else Some (0.5 * (getNum m i - getNum m (i - 2)))%float).
Proof.
  split; [exact arrayLength_44100|].
  split; [simpl; auto|].
  exact (@generateSignal_sideband flatEngine constructor (Z.to_nat 44100) "usb" 0
           arrayLength_44100 (or_intror (or_introl eq_refl))).
Defined.

(** The sign factor [1] of [generateSSB(false)] changes no sample. *)
Lemma ssb_modulated (message carrier carrierShifted : list float) (hilbertMessage : list value)
    (timeArray : list float) :
  mapi (fun (t : float) i =>
          getNum message i * getNum carrier i
          + (if false then -1 else 1) * getHole hilbertMessage i * getNum carrierShifted i)%float
       timeArray
  = mapi (fun (t : float) i =>
            getNum message i * getNum carrier i
            + getHole hilbertMessage i * getNum carrierShifted i)%float
         timeArray.
Proof.
  unfold mapi. apply map_ext. intros [i t]. cbn [fst snd]. now rewrite mul_1_l.
Qed.

Lemma generateSSB_false_is_USB `{Engine} (this : SignalGenerator) (k0 : nat) :
  generateSSB this false k0 = generateUSB this k0.
Proof.
  unfold generateSSB, generateUSB, bindG.
  destruct (liftResult (generateTimeArray this) k0) as [[timeArray|e] k]; [|reflexivity].
  cbv zeta. rewrite ssb_modulated. reflexivity.
Qed.

(** X12: ['ssb'] is ['usb']: for every generator state and every state
    of the random stream, [generateSignal('ssb')] returns exactly what
    [generateSignal('usb')] returns. *)
Theorem generateSignal_ssb_is_usb `{Engine} (this : SignalGenerator) (k0 : nat) :
  generateSignal this "ssb" k0 = generateSignal this "usb" k0.
Proof. exact (generateSSB_false_is_USB this k0). Qed.

(** ** The window of computeFFT *)

Lemma window_index (len i : nat) :
  (0 < len)%nat -> (i < fftSize)%nat -> (i * (len / fftSize) < len)%nat.
Proof.
  intros Hpos Hi.
  pose proof (Nat.div_mod_eq len fftSize) as Hd.
  pose proof (Nat.mod_upper_bound len fftSize ltac:(discriminate)) as Hr.
  revert Hd Hr Hi. generalize (len / fftSize)%nat (len mod fftSize)%nat.
  unfold fftSize. intros q r Hd Hr Hi. nia.
Qed.

(** X13: the 1024-entry window [computeFFT] transforms.  For an empty
    signal it is all 0.  For any other signal no entry keeps the fill
    value: entry [i] is the sample at index [i * floor(length / 1024)],
    an index that always exists, so the samples at other indices play no
    part in the spectrum. *)
Theorem fftWindow_samples (signal : list float) :
  length (fftWindow signal) = 1024%nat
  /\ (signal = [] -> fftWindow signal = repeat 0%float 1024)
  /\ (signal <> [] ->
      forall i, (i < 1024)%nat ->
        (i * (length signal / 1024) < length signal)%nat
        /\ nth i (fftWindow signal) nan = nth (i * (length signal / 1024)) signal nan).
Proof.
  split; [apply length_tabulate|]. split.
  - intros ->. unfold fftWindow, tabulate. cbn [length].
    rewrite <- map_const_seq with (a := 0%nat). apply map_ext. intros i.
    now rewrite Nat.mul_0_r.
  - intros Hne i Hi.
    assert (Hpos : (0 < length signal)%nat) by (destruct signal; simpl; [congruence | lia]).
    pose proof (@window_index (length signal) i Hpos Hi) as Hin.
    split; [exact Hin|].
    unfold fftWindow. rewrite nth_tabulate by exact Hi.
    apply Nat.ltb_lt in Hin. fold fftSize. now rewrite Hin.
Qed.

(** ** The spectrum of silence *)

Lemma is_finite_finiteNum (a : float) : PrimFloat.is_finite a = true -> finiteNum a = true.
Proof.
  unfold PrimFloat.is_finite, PrimFloat.is_infinity, PrimFloat.is_nan, finiteNum.
  rewrite !FloatAxioms.eqb_spec, FloatAxioms.abs_spec.
  change (Prim2SF infinity) with (S754_infinity false).
  destruct (Prim2SF a) as [s|[|]| |s m e]; simpl; auto; discriminate.
Qed.

(** Every angle of the transform is a finite number. *)
Lemma dftAngle_finite (k n : nat) :
  (k < 512)%nat -> (n < 1024)%nat -> finiteNum (dftAngle k n) = true.
Proof.
  intros Hk Hn.
  assert (Hall :
    (let ns := map ofNat (seq 0 1024) in
     let size := ofNat fftSize in
     forallb (fun k => let fk := (-2 * Math_PI * ofNat k)%float in
                       forallb (fun fn => PrimFloat.is_finite (fk * fn / size)%float) ns)
             (seq 0 512)) = true) by (vm_compute; reflexivity).
  cbv zeta in Hall. rewrite forallb_forall in Hall.
  specialize (Hall k ltac:(apply in_seq; lia)). rewrite forallb_forall in Hall.
  apply is_finite_finiteNum, (Hall (ofNat n)). apply in_map, in_seq. lia.
Qed.

Section Silence.

Context `{Engine}.
Hypothesis Htrig : finiteTrig _.
Variable this : SignalGenerator.

Lemma dft_steps_zero (fft : list float) (k : nat) (idx : list nat) (acc : float * float) :
  (forall n, In n idx -> isZero (getNum fft n) /\ finiteNum (dftAngle k n) = true) ->
  isZero (fst acc) -> isZero (snd acc) ->
  let r := fold_left (fun acc n =>
               let angle := (-2 * Math_PI * ofNat k * ofNat n / ofNat fftSize)%float in
               (fst acc + getNum fft n * Math_cos angle,
                snd acc + getNum fft n * Math_sin angle)%float) idx acc in
  isZero (fst r) /\ isZero (snd r).
Proof.
  revert acc. induction idx as [|n idx IH]; intros acc Hidx H1 H2; cbn [fold_left]; [auto|].
  destruct (Hidx n (or_introl eq_refl)) as [Hz Hf].
  destruct (Htrig _ Hf) as [Hc Hs]. unfold dftAngle in Hc, Hs.
  apply IH.
  - intros m Hm. apply Hidx. now right.
  - cbn [fst]. apply add_zero_zero; [exact H1 | now apply mul_zero_finite].
  - cbn [snd]. apply add_zero_zero; [exact H2 | now apply mul_zero_finite].
Qed.

Lemma isZero_0 : isZero 0%float.
Proof. exists false. reflexivity. Qed.

Lemma fftWindow_zero (signal : list float) (n : nat) :
  Forall isZero signal -> (n < fftSize)%nat -> isZero (getNum (fftWindow signal) n).
Proof.
  intros Hall Hn. unfold getNum, fftWindow. rewrite nth_tabulate by exact Hn.
  destruct (Nat.ltb_spec (n * (length signal / fftSize)) (length signal)) as [Hin|_];
    [|apply isZero_0].
  rewrite Forall_forall in Hall. apply Hall. unfold getNum. now apply nth_In.
Qed.

Lemma computeFFT_zero (signal : list float) :
  Forall isZero signal ->
  Forall (fun m => m = 0%float) (magnitude (computeFFT this signal)).
Proof.
  intros Hall. unfold computeFFT; cbn [magnitude]. unfold tabulate.
  apply Forall_map, Forall_forall. intros k Hk.
  apply in_seq in Hk. change (fftSize / 2)%nat with 512%nat in Hk.
  pose proof (@dft_steps_zero (fftWindow signal) k (seq 0 fftSize) (0%float, 0%float)) as Hz.
  cbv zeta in Hz. unfold dftBin.
  destruct (fold_left _ (seq 0 fftSize) (0%float, 0%float)) as [real imag].
  cbn [fst snd] in Hz.
  destruct Hz as [Hr Hi]; try apply isZero_0.
  - intros n Hn. apply in_seq in Hn. change fftSize with 1024%nat in Hn.
    split; [|apply dftAngle_finite; lia].
    apply fftWindow_zero; [exact Hall|]. unfold fftSize. lia.
  - now apply magnitude_of_zeros.
Qed.

End Silence.

(** X14: silence has an all-zero spectrum.  On an engine whose cosine
    and sine of a finite angle are finite, [computeFFT] of a signal whose
    samples are all [0] or [-0] (the empty signal included) returns 512
    magnitudes that are exactly [0]. *)
Theorem computeFFT_silence (E : Engine) (this : SignalGenerator) (signal : list float) :
  finiteTrig E ->
  Forall isZero signal ->
  length (magnitude (computeFFT this signal)) = 512%nat
  /\ Forall (fun m => m = 0%float) (magnitude (computeFFT this signal)).
Proof.
  intros Htrig Hall. split; [exact (proj1 (computeFFT_lengths this signal))|].
  now apply computeFFT_zero.
Qed.

Lemma finiteTrig_flatEngine : finiteTrig flatEngine.
Proof. intros a _. split; reflexivity. Qed.

Lemma silence_3 : Forall isZero [0; -0; 0]%float.
Proof. repeat constructor; eexists; reflexivity. Qed.

Lemma computeFFT_silence_witness :
  finiteTrig flatEngine
  /\ Forall isZero [0; -0; 0]%float
  /\ length (magnitude (@computeFFT flatEngine constructor [0; -0; 0]%float)) = 512%nat
  /\ Forall (fun m => m = 0%float)
            (magnitude (@computeFFT flatEngine constructor [0; -0; 0]%float)).
Proof.
  split; [exact finiteTrig_flatEngine|]. split; [exact silence_3|].
  exact (@computeFFT_silence flatEngine constructor [0; -0; 0]%float
           finiteTrig_flatEngine silence_3).
Defined.

(** ** The clamp of estimateSnr *)


Lemma sumSquares_from_nan (arr : list value) :
  fold_left (fun sum v => match v with
                          | Some val => (sum + val * val)%float
                          | None => sum
                          end) arr nan = nan.
Proof.
  induction arr as [|[a|] arr IH]; simpl; auto. now rewrite add_nan_l.
Qed.

Lemma sumSquares_in_nan (signal : list float) :
  In nan signal -> sumSquares (map Some signal) = nan.
Proof.
  unfold sumSquares. generalize 0%float.
  induction signal as [|a signal IH]; intros acc; simpl; [tauto|].
  intros [->|Hin]; [|now apply IH].
  now rewrite mul_nan_l, add_nan_r, sumSquares_from_nan.
Qed.

(** X16: one [NaN] sample is enough: the estimate of a signal that
    contains a [NaN] is [NaN], whatever the other samples. *)
Theorem estimateSnr_nan_sample `{Engine} (signal : list float) :
  In nan signal -> estimateSnr signal = nan.
Proof.
  intros Hin. unfold estimateSnr, snrRatio.
  rewrite sumSquares_in_nan by exact Hin.
  rewrite div_nan_l, sqrt_nan, div_nan_l, Math_log10_nan, mul_nan_r. reflexivity.
Qed.

Lemma estimateSnr_nan_sample_witness :
  In nan [1; nan; 2]%float /\ @estimateSnr flatEngine [1; nan; 2]%float = nan.
Proof.
  split; [simpl; auto|].
  exact (@estimateSnr_nan_sample flatEngine [1; nan; 2]%float (or_intror (or_introl eq_refl))).
Defined.

(** ** The measured bandwidth *)

Lemma spanLoop_none (threshold : float) (fftData : Spectrum) (start : float * float) :
  (forall m, In m (magnitude fftData) -> (threshold <? m)%float = false) ->
  spanLoop threshold fftData start = start.
Proof.
  intros Hnone. unfold spanLoop.
  assert (Hidx : forall i, In i (seq 0 (length (magnitude fftData))) ->
                           (i < length (magnitude fftData))%nat)
    by (intros i Hi; apply in_seq in Hi; lia).
  revert Hidx. generalize (seq 0 (length (magnitude fftData))).
  intros idx. revert start. induction idx as [|i idx IH]; intros start Hidx; [reflexivity|].
  cbn [fold_left]. rewrite Hnone.
  - apply IH. intros j Hj. apply Hidx. now right.
  - unfold getNum. apply nth_In. apply Hidx. now left.
Qed.

Lemma Math_max_fold_zeros (arr : list float) :
  Forall (fun m => m = 0%float) arr -> fold_left Math_max arr 0%float = 0%float.
Proof.
  induction 1 as [|a arr -> _ IH]; [reflexivity|]. cbn [fold_left]. exact IH.
Qed.

Lemma Math_maxAll_zeros (arr : list float) :
  Forall (fun m => m = 0%float) arr -> arr <> [] -> Math_maxAll arr = 0%float.
Proof.
  unfold Math_maxAll. intros Hall Hne.
  destruct Hall as [|a arr -> Hall]; [congruence|].
  cbn [fold_left]. now apply Math_max_fold_zeros.
Qed.

(** X17: a spectrum with a [NaN] magnitude, or whose magnitudes are all
    0, has no bin above the threshold: the measured span is then 0 (or
    [NaN]) and [estimateBandwidth] returns the theoretical value of the
    kind. *)
Theorem estimateBandwidth_no_peak (fftData : Spectrum) (modulationType : string)
    (symbolRate : float) :
  In nan (magnitude fftData) \/ Forall (fun m => m = 0%float) (magnitude fftData) ->
  estimateBandwidth (Some fftData) modulationType symbolRate
  = theoreticalBandwidth modulationType symbolRate.
Proof.
  intros Hpeak. unfold estimateBandwidth, measuredBandwidth.
  rewrite spanLoop_none.
  - destruct (sub_diag (getNum (frequencies fftData) 0)) as [-> | ->]; reflexivity.
  - intros m Hm. destruct Hpeak as [Hnan | Hzero].
    + rewrite (Math_maxAll_nan _ Hnan), div_nan_l. apply ltb_nan_l.
    + rewrite Math_maxAll_zeros; [|exact Hzero|intros Hnil; rewrite Hnil in Hm; exact Hm].
      rewrite Forall_forall in Hzero. now rewrite (Hzero m Hm).
Qed.

Lemma estimateBandwidth_no_peak_witness :
  (In nan (magnitude {| magnitude := [1; nan]%float; frequencies := [0; 43]%float |})
   \/ Forall (fun m => m = 0%float)
        (magnitude {| magnitude := [1; nan]%float; frequencies := [0; 43]%float |}))
  /\ estimateBandwidth
       (Some {| magnitude := [1; nan]%float; frequencies := [0; 43]%float |}) "bpsk"%string 100%float
     = theoreticalBandwidth "bpsk"%string 100%float.
Proof.
  split; [left; simpl; auto|].
  exact (@estimateBandwidth_no_peak
           {| magnitude := [1; nan]%float; frequencies := [0; 43]%float |} "bpsk"%string 100%float
           (or_introl (or_intror (or_introl eq_refl)))).
Defined.

Section MeasuredSpan.

Context `{Engine}.
Variable this : SignalGenerator.
Hypothesis Hrate : sampleRate this = 44100%float.
Local Open Scope float_scope.

(** The lower edge of the span starts at [frequencies[0] = 0] and no
    frequency is below it. *)
Lemma Math_min_0 (f : float) : f = 0 \/ (0 <? f) = true -> Math_min 0 f = 0.
Proof.
  intros [-> | Hpos]; [reflexivity|]. unfold Math_min.
  destruct (leb_not_nan (ltb_leb Hpos)) as [_ Hf].
  now rewrite Hf, Hpos.
Qed.

Lemma frequency_nonneg (k : nat) :
  (k < 512)%nat ->
  ofNat k * 44100 / 1024 = 0 \/ (0 <? ofNat k * 44100 / 1024) = true.
Proof.
  intros Hk.
  assert (Hall : forallb (fun k => (0 <? ofNat k * 44100 / 1024)) (seq 1 511) = true)
    by (vm_compute; reflexivity).
  destruct k as [|k]; [left; reflexivity|]. right.
  rewrite forallb_forall in Hall. apply Hall, in_seq. lia.
Qed.

Lemma spanLoop_from_zero (signal : list float) (threshold : float) (idx : list nat)
    (maxFreq : float) :
  (forall i, In i idx -> (i < 512)%nat) ->
  let fftData := computeFFT this signal in
  fold_left (fun mm i =>
               if threshold <? getNum (magnitude fftData) i
               then (Math_min (fst mm) (getNum (frequencies fftData) i),
                     Math_max (snd mm) (getNum (frequencies fftData) i))
               else mm) idx (0, maxFreq)
  = (0, fold_left (fun maxFreq i =>
                     if threshold <? getNum (magnitude fftData) i
                     then Math_max maxFreq (getNum (frequencies fftData) i)
                     else maxFreq) idx maxFreq).
Proof.
  intros Hidx fftData. revert maxFreq.
  induction idx as [|i idx IH]; intros maxFreq; [reflexivity|].
  cbn [fold_left].
  destruct (threshold <? getNum (magnitude fftData) i).
  - cbn [fst snd].
    assert (Hmin : Math_min 0 (getNum (frequencies fftData) i) = 0).
    { unfold getNum. subst fftData.
      rewrite computeFFT_frequency by (apply Hidx; now left). rewrite Hrate.
      apply Math_min_0, frequency_nonneg, Hidx. now left. }
    rewrite Hmin. apply IH. intros j Hj. apply Hidx. now right.
  - apply IH. intros j Hj. apply Hidx. now right.
Qed.

Lemma measuredBandwidth_computeFFT (signal : list float) :
  measuredBandwidth (computeFFT this signal) = highestAbove (computeFFT this signal).
Proof.
  unfold measuredBandwidth, highestAbove, spanLoop.
  replace (getNum (frequencies (computeFFT this signal)) 0) with 0
    by (unfold getNum; rewrite computeFFT_frequency by lia; now rewrite Hrate).
  rewrite spanLoop_from_zero.
  - apply sub_0_r.
  - intros i Hi. apply in_seq in Hi.
    rewrite (proj1 (computeFFT_lengths this signal)) in Hi. lia.
Qed.

End MeasuredSpan.

(** X18: on a spectrum returned by [computeFFT] (sample rate 44100) the
    lower edge of the measured span never leaves [frequencies[0] = 0]:
    the measured bandwidth is the highest frequency whose magnitude
    exceeds a tenth of the peak, not the width of the occupied band. *)
Theorem measuredBandwidth_is_highest_frequency `{Engine} (this : SignalGenerator)
    (signal : list float) :
  sampleRate this = 44100%float ->
  measuredBandwidth (computeFFT this signal) = highestAbove (computeFFT this signal).
Proof. intros Hrate. now apply measuredBandwidth_computeFFT. Qed.

Lemma measuredBandwidth_is_highest_frequency_witness :
  sampleRate constructor = 44100%float
  /\ measuredBandwidth (@computeFFT flatEngine constructor [1; 2; 3]%float)
     = highestAbove (@computeFFT flatEngine constructor [1; 2; 3]%float).
Proof.
  split; [reflexivity|].
  exact (@measuredBandwidth_is_highest_frequency flatEngine constructor [1; 2; 3]%float
           eq_refl).
Defined.

(** ** A modulation type the knowledge base does not know *)

Lemma lookup_none {A : Type} (key : string) (obj : list (string * A)) :
  ~ In key (map fst obj) -> lookup key obj = None.
Proof.
  unfold lookup. induction obj as [|[k a] obj IH]; intros Hnot; [reflexivity|].
  cbn [find fst]. destruct (String.eqb_spec k key) as [->|Hne].
  - exfalso. apply Hnot. now left.
  - apply IH. intros Hin. apply Hnot. now right.
Qed.

(** X19: for a modulation type that names no entry of [signalInfo] and no
    member of [Object.prototype], the analysis reports the signal type
    ['Unknown modulation'] and the fixed insights text, whatever the
    carrier frequency and the symbol rate. *)
Theorem unknown_modulation_report (Number_toString : float -> string)
    (modulationType : string) (carrierFreq symbolRate : float) :
  ~ In modulationType knownKinds ->
  ~ In modulationType (map fst Object_prototype) ->
  getInfo modulationType = Undefined
  /\ modName modulationType = "Unknown modulation"%string
  /\ generateInsights Number_toString modulationType carrierFreq symbolRate
     = "No information available for this modulation type."%string.
Proof.
  intros Hown Hproto.
  assert (Hinfo : getInfo modulationType = Undefined).
  { unfold getInfo. rewrite (lookup_none _ signalInfo) by exact Hown.
    now rewrite (lookup_none _ Object_prototype) by exact Hproto. }
  unfold modName, generateInsights. rewrite Hinfo. auto.
Qed.

Lemma xyz_not_inherited : ~ In "xyz"%string (map fst Object_prototype).
Proof. simpl. intros Hin. repeat (destruct Hin as [Hin|Hin]; [discriminate|]). exact Hin. Qed.

Lemma unknown_modulation_report_witness :
  ~ In "xyz"%string knownKinds
  /\ ~ In "xyz"%string (map fst Object_prototype)
  /\ getInfo "xyz" = Undefined
  /\ modName "xyz" = "Unknown modulation"%string
  /\ generateInsights (fun _ => "1000"%string) "xyz" 1000 100
     = "No information available for this modulation type."%string.
Proof.
  split; [exact xyz_unknown|]. split; [exact xyz_not_inherited|].
  exact (@unknown_modulation_report (fun _ => "1000"%string) "xyz" 1000 100
           xyz_unknown xyz_not_inherited).
Defined.

(** ** The time chart *)

Section TimeChart.

Variable signal : Signal.
Variable step : nat.
Hypothesis Hstep : (1 <= step)%nat.

Let len : nat := length (time signal).

(** The point plotted for index [i]. *)
Let plotted (i : nat) : point :=
  {| x := nth_error (time signal) i; y := nth_error (realSignal signal) i |}.

Lemma steps_from (i : nat) :
  (i < len)%nat ->
  ((len - i + step - 1) / step = S ((len - (i + step) + step - 1) / step))%nat.
Proof.
  intros Hi. destruct (Nat.le_gt_cases step (len - i)) as [Hge|Hlt].
  - replace (len - i + step - 1)%nat with (len - (i + step) + step - 1 + 1 * step)%nat by lia.
    rewrite Nat.div_add by lia. lia.
  - replace (len - (i + step))%nat with 0%nat by lia.
    rewrite (Nat.div_small (0 + step - 1)) by lia.
    symmetry. apply (Nat.div_unique _ _ _ (len - i - 1)); lia.
Qed.

(** With enough fuel the loop ends, having visited [i], [i + step], ... *)
Lemma timeLoop_returns (fuel i : nat) :
  (len - i <= fuel)%nat ->
  timeLoop signal step fuel i
  = Some (map (fun j => plotted (i + j * step))
              (seq 0 ((len - i + step - 1) / step))).
Proof.
  revert i. induction fuel as [|fuel IH]; intros i Hfuel; cbn [timeLoop]; fold len.
  - destruct (Nat.ltb_spec i len) as [Hi|Hi]; [lia|].
    replace (len - i)%nat with 0%nat by lia. now rewrite Nat.div_small by lia.
  - destruct (Nat.ltb_spec i len) as [Hi|Hi].
    + rewrite IH by lia. rewrite (steps_from Hi). cbn [seq map].
      rewrite Nat.mul_0_l, Nat.add_0_r. do 2 f_equal.
      rewrite <- seq_shift, map_map. apply map_ext. intros j. f_equal. lia.
    + replace (len - i)%nat with 0%nat by lia. now rewrite Nat.div_small by lia.
Qed.

End TimeChart.

Lemma downsampled_count (len : nat) :
  let downsampleFactor := Nat.max 1 (len / 1000) in
  ((len + downsampleFactor - 1) / downsampleFactor <= 1999)%nat.
Proof.
  intros f.
  assert (Hf : (1 <= f)%nat) by (subst f; lia).
  assert (Hlen : (len < 1000 * f + 1000)%nat).
  { pose proof (Nat.div_mod_eq len 1000) as Hd.
    pose proof (Nat.mod_upper_bound len 1000 ltac:(lia)) as Hr. subst f. lia. }
  apply Nat.lt_succ_r. apply Nat.Div0.div_lt_upper_bound. lia.
Qed.

Lemma updateTimeChart_returns (this : SignalVisualizer) (signal : Signal) :
  let len := length (time signal) in
  let f := Nat.max 1 (len / 1000) in
  exists this',
    updateTimeChart this signal = Some this'
    /\ timeChart this'
       = map (fun j => {| x := nth_error (time signal) (j * f);
                          y := nth_error (realSignal signal) (j * f) |})
             (seq 0 ((len + f - 1) / f))
    /\ (length (timeChart this') <= 1999)%nat
    /\ frequencyChart this' = frequencyChart this
    /\ constellationChart this' = constellationChart this
    /\ waterfallData this' = waterfallData this.
Proof.
  intros len f. unfold updateTimeChart. fold len. fold f.
  rewrite (@timeLoop_returns signal f ltac:(subst f; lia) len 0) by lia.
  eexists. split; [reflexivity|]. cbn [timeChart frequencyChart constellationChart waterfallData].
  fold len. rewrite Nat.sub_0_r.
  split; [apply map_ext; intros j; reflexivity|].
  split; [|auto].
  rewrite length_map, length_seq. apply downsampled_count.
Qed.

(** X20: [updateTimeChart] ends for every signal and plots one point per
    [f = max(1, floor(length / 1000))] samples: point [j] is
    [(time[j * f], realSignal[j * f])], there are [ceil(length / f)] of
    them, never more than 1999, and the data of the other charts is left
    as it was. *)
Theorem updateTimeChart_points (this : SignalVisualizer) (signal : Signal) :
  let len := length (time signal) in
  let f := Nat.max 1 (len / 1000) in
  exists this',
    updateTimeChart this signal = Some this'
    /\ timeChart this'
       = map (fun j => {| x := nth_error (time signal) (j * f);
                          y := nth_error (realSignal signal) (j * f) |})
             (seq 0 ((len + f - 1) / f))
    /\ (length (timeChart this') <= 1999)%nat
    /\ frequencyChart this' = frequencyChart this
    /\ constellationChart this' = constellationChart this
    /\ waterfallData this' = waterfallData this.
Proof. exact (updateTimeChart_returns this signal). Qed.

(** ** The colours of the waterfall *)

Lemma Math_max_same (c : float) : Math_max c c = c.
Proof.
  unfold Math_max. destruct (PrimFloat.is_nan c) eqn:Hc; [symmetry; now apply is_nan_eq|].
  rewrite (leb_not_ltb (leb_refl c Hc)). now destruct (isNegZero c).
Qed.

Lemma Math_min_same (c : float) : Math_min c c = c.
Proof.
  unfold Math_min. destruct (PrimFloat.is_nan c) eqn:Hc; [symmetry; now apply is_nan_eq|].
  rewrite (leb_not_ltb (leb_refl c Hc)). now destruct (isNegZero c).
Qed.

Lemma finiteNum_not_nan (c : float) : finiteNum c = true -> PrimFloat.is_nan c = false.
Proof.
  unfold finiteNum. intros Hc. apply is_nan_Prim2SF. intros Hn. rewrite Hn in Hc.
  discriminate Hc.
Qed.

Lemma Math_max_neg_infinity (c : float) : finiteNum c = true -> Math_max neg_infinity c = c.
Proof.
  intros Hc. unfold Math_max. rewrite (finiteNum_not_nan c Hc).
  change (PrimFloat.is_nan neg_infinity) with false. cbv iota.
  replace (neg_infinity <? c)%float with true; [reflexivity|].
  rewrite FloatAxioms.ltb_spec. unfold finiteNum in Hc.
  change (Prim2SF neg_infinity) with (S754_infinity true).
  destruct (Prim2SF c) as [s|s| |s m e]; try discriminate Hc; reflexivity.
Qed.

Lemma Math_min_infinity (c : float) : finiteNum c = true -> Math_min infinity c = c.
Proof.
  intros Hc. unfold Math_min. rewrite (finiteNum_not_nan c Hc).
  change (PrimFloat.is_nan infinity) with false. cbv iota.
  replace (infinity <? c)%float with false.
  - replace (c <? infinity)%float with true; [reflexivity|].
    rewrite FloatAxioms.ltb_spec. unfold finiteNum in Hc.
    change (Prim2SF infinity) with (S754_infinity false).
    destruct (Prim2SF c) as [s|s| |s m e]; try discriminate Hc; reflexivity.
  - rewrite FloatAxioms.ltb_spec. unfold finiteNum in Hc.
    change (Prim2SF infinity) with (S754_infinity false).
    destruct (Prim2SF c) as [s|s| |s m e]; try discriminate Hc; reflexivity.
Qed.

Lemma Math_max_fold_same (c : float) (n : nat) : fold_left Math_max (repeat c n) c = c.
Proof. induction n as [|n IH]; [reflexivity|]. cbn [repeat fold_left]. now rewrite Math_max_same. Qed.

Lemma Math_min_fold_same (c : float) (n : nat) : fold_left Math_min (repeat c n) c = c.
Proof. induction n as [|n IH]; [reflexivity|]. cbn [repeat fold_left]. now rewrite Math_min_same. Qed.

(** X21: one [NaN] magnitude blanks the whole line: [Math.max] and
    [Math.min] are then [NaN], the range falls back to 1, every
    normalised magnitude is [NaN], and every colour returned is
    [undefined]. *)
Theorem getColorGradient_nan (magnitudes : list float) :
  In nan magnitudes ->
  getColorGradient magnitudes = repeat None (length magnitudes).
Proof.
  intros Hin. unfold getColorGradient.
  rewrite (Math_maxAll_nan _ Hin), (Math_minAll_nan _ Hin).
  cbv zeta. rewrite map_map. clear Hin.
  induction magnitudes as [|mag magnitudes IH]; [reflexivity|].
  cbn [map length repeat]. rewrite IH. f_equal.
  rewrite sub_nan_r. reflexivity.
Qed.

Lemma getColorGradient_nan_witness :
  In nan [1; nan; 3]%float
  /\ getColorGradient [1; nan; 3]%float = repeat None (length [1; nan; 3]%float).
Proof.
  split; [simpl; auto|].
  exact (@getColorGradient_nan [1; nan; 3]%float (or_intror (or_introl eq_refl))).
Defined.

(** X22: a flat spectrum divides by no zero: when all magnitudes are the
    same finite number the range [max - min] is 0, the fallback 1
    replaces it, and every bin gets the first colour of the scale. *)
Theorem getColorGradient_flat (c : float) (n : nat) :
  finiteNum c = true ->
  getColorGradient (repeat c n) = repeat (Some "rgba(0, 0, 50, 1)"%string) n.
Proof.
  intros Hc. destruct n as [|n]; [reflexivity|].
  unfold getColorGradient, Math_maxAll, Math_minAll.
  cbn [repeat fold_left].
  rewrite (Math_max_neg_infinity c Hc), (Math_min_infinity c Hc),
    Math_max_fold_same, Math_min_fold_same, (sub_diag_finite c Hc).
  cbv zeta. rewrite map_map.
  change (c :: repeat c n) with (repeat c (S n)).
  rewrite map_repeat, (sub_diag_finite c Hc). reflexivity.
Qed.

Lemma getColorGradient_flat_witness :
  finiteNum 0.25 = true
  /\ getColorGradient (repeat 0.25%float 512)
     = repeat (Some "rgba(0, 0, 50, 1)"%string) 512.
Proof.
  split; [reflexivity|].
  exact (@getColorGradient_flat 0.25%float 512 eq_refl).
Defined.

(** The floor of a non-negative number times a positive finite one is a
    non-negative integer, [-0] or [+Infinity]. *)
Lemma floor_mul_nonneg (a c : float) (mc : positive) (ec : Z) :
  Prim2SF c = S754_finite false mc ec ->
  (0 <=? a)%float = true ->
  match Math_floor (a * c) with
  | JNegZero | JInf false => True
  | JZ z => (0 <= z)%Z
  | _ => False
  end.
Proof.
  intros Hc. unfold Math_floor.
  rewrite FloatAxioms.leb_spec, FloatAxioms.mul_spec, Hc.
  change (Prim2SF 0) with (S754_zero false).
  destruct (Prim2SF a) as [s|s| |s m e]; cbn [SFleb SFcompare].
  - intros _. destruct s; simpl; [exact I | lia].
  - destruct s; [discriminate|]. intros _. exact I.
  - discriminate.
  - destruct s; [discriminate|]. intros _.
    unfold SF64mul, SFmul. cbn [xorb].
    pose proof (binary_round_aux_pos false (m * mc) (e + ec) loc_Exact) as Hr.
    destruct (binary_round_aux prec emax false (Z.pos (m * mc)) (e + ec) loc_Exact)
      as [s'|s'| |s' m' e']; try contradiction; subst s'; try exact I; [lia|].
    apply Z.shiftl_nonneg. lia.
Qed.

Lemma colorScale_15 :
  Prim2SF (ofNat (length colorScale)) = S754_finite false 8444249301319680 (-49).
Proof. vm_compute. reflexivity. Qed.

Lemma colorScale_index (z : Z) :
  (0 <= z)%Z ->
  exists c, getAt colorScale (JZ (Z.min z (Z.of_nat (length colorScale) - 1))) = Some c
            /\ In c colorScale.
Proof.
  intros Hz. cbn [getAt].
  set (j := Z.min z (Z.of_nat (length colorScale) - 1)).
  assert (Hj : (0 <= j <= 14)%Z) by (subst j; change (Z.of_nat (length colorScale)) with 15%Z; lia).
  destruct (Z.ltb_spec j 0) as [|_]; [lia|].
  destruct (nth_error colorScale (Z.to_nat j)) as [c|] eqn:Hc.
  - exists c. split; [reflexivity|]. eapply nth_error_In; eauto.
  - apply nth_error_None in Hc. change (length colorScale) with 15%nat in Hc. lia.
Qed.

(** X23: the index into the colour scale is capped at the last colour
    but has no lower guard: a bin whose normalised magnitude is at least
    0 (above 1 and [+Infinity] included) gets one of the 15 colours of
    the scale. *)
Theorem getColorGradient_in_scale (magnitudes : list float) (i : nat) (mag : float) :
  let min := Math_minAll magnitudes in
  let range := orElse (Some (Math_maxAll magnitudes - min)%float) 1 in
  nth_error magnitudes i = Some mag ->
  (0 <=? (mag - min) / range)%float = true ->
  exists c, nth_error (getColorGradient magnitudes) i = Some (Some c) /\ In c colorScale.
Proof.
  intros min range Hi Hnorm. unfold getColorGradient. cbv zeta. fold min. fold range.
  rewrite map_map, nth_error_map, Hi. cbn [option_map].
  pose proof (@floor_mul_nonneg ((mag - min) / range) _ _ _ colorScale_15 Hnorm) as Hfloor.
  destruct (Math_floor ((mag - min) / range * ofNat (length colorScale))) as [|[|]| |z];
    try contradiction.
  - exists "rgba(250, 0, 0, 1)"%string. split; [reflexivity|]. simpl. tauto.
  - exists "rgba(0, 0, 50, 1)"%string. split; [reflexivity|]. simpl. tauto.
  - destruct (colorScale_index Hfloor) as (c & Hc & Hin).
    exists c. split; [|exact Hin]. f_equal. exact Hc.
Qed.

Lemma getColorGradient_in_scale_witness :
  nth_error [1; 2; 3]%float 2 = Some 3%float
  /\ (0 <=? (3 - Math_minAll [1; 2; 3]%float)
            / orElse (Some (Math_maxAll [1; 2; 3]%float - Math_minAll [1; 2; 3]%float)%float) 1)%float
     = true
  /\ exists c, nth_error (getColorGradient [1; 2; 3]%float) 2 = Some (Some c)
               /\ In c colorScale.
Proof.
  split; [reflexivity|]. split; [reflexivity|].
  exact (@getColorGradient_in_scale [1; 2; 3]%float 2 3%float eq_refl eq_refl).
Defined.

(** ** The waterfall *)

Lemma nth_error_mapi {A B : Type} (f : A -> nat -> B) (arr : list A) (i : nat) :
  nth_error (mapi f arr) i = option_map (fun a => f a i) (nth_error arr i).
Proof.
  unfold mapi. rewrite nth_error_map.
  destruct (nth_error arr i) as [a|] eqn:Ha.
  - assert (Hi : (i < length arr)%nat) by (apply nth_error_Some; congruence).
    assert (Hc : nth_error (combine (seq 0 (length arr)) arr) i = Some (i, a)).
    { rewrite (nth_error_nth' _ (0%nat, a)) by (rewrite length_combine, length_seq; lia).
      rewrite combine_nth by now rewrite length_seq.
      rewrite seq_nth by exact Hi. f_equal. f_equal.
      now apply nth_error_nth. }
    now rewrite Hc.
  - apply nth_error_None in Ha.
    assert (Hc : nth_error (combine (seq 0 (length arr)) arr) i = None).
    { apply nth_error_None. rewrite length_combine, length_seq. lia. }
    now rewrite Hc.
Qed.

Lemma updateWaterfallChart_length (this : SignalVisualizer) (fftData : Spectrum) :
  length (waterfallData (updateWaterfallChart this fftData))
  = Nat.min (S (length (waterfallData this))) maxWaterfallLines.
Proof.
  unfold updateWaterfallChart. cbn [waterfallData]. rewrite length_mapi.
  cbn [length].
  destruct (Nat.ltb_spec maxWaterfallLines (S (length (waterfallData this)))) as [Hlt|Hge].
  - rewrite length_firstn. cbn [length]. lia.
  - cbn [length]. lia.
Qed.

Lemma waterfall_updates_length (spectra : list Spectrum) (this : SignalVisualizer) :
  (length (waterfallData this) <= maxWaterfallLines)%nat ->
  length (waterfallData (fold_left updateWaterfallChart spectra this))
  = Nat.min (length (waterfallData this) + length spectra) maxWaterfallLines.
Proof.
  revert this. induction spectra as [|fftData spectra IH]; intros this Hle.
  - cbn [fold_left length]. lia.
  - cbn [fold_left length].
    pose proof (updateWaterfallChart_length this fftData) as Hlen.
    rewrite IH by lia. rewrite Hlen. unfold maxWaterfallLines in *. lia.
Qed.

(** X24: the waterfall keeps the 20 newest lines.  One update adds a
    line and drops what is beyond the twentieth, so that after [n] updates
    of a new visualiser there are [min(n, 20)] lines; the data of the
    other charts is untouched. *)
Theorem updateWaterfallChart_keeps_20 (this : SignalVisualizer) (fftData : Spectrum)
    (spectra : list Spectrum) :
  length (waterfallData (updateWaterfallChart this fftData))
  = Nat.min (S (length (waterfallData this))) 20
  /\ length (waterfallData (fold_left updateWaterfallChart spectra initializeCharts))
     = Nat.min (length spectra) 20
  /\ timeChart (updateWaterfallChart this fftData) = timeChart this
  /\ frequencyChart (updateWaterfallChart this fftData) = frequencyChart this
  /\ constellationChart (updateWaterfallChart this fftData) = constellationChart this.
Proof.
  split; [apply updateWaterfallChart_length|].
  split; [|repeat split].
  rewrite waterfall_updates_length by (cbn; unfold maxWaterfallLines; lia).
  reflexivity.
Qed.

Lemma small_quotients (m : nat) :
  (1 <= m <= 19)%nat ->
  (ofNat 0 / ofNat m)%float = 0%float /\ (ofNat m / ofNat m)%float = 1%float.
Proof.
  intros [Hlo Hhi].
  do 20 (destruct m as [|m]; [first [lia | split; reflexivity]|]). lia.
Qed.

(** X25: how the lines are stacked.  After an update with [len] lines,
    every point of line [i] has [y = i / (len - 1)]: with at least two
    lines the newest is at 0 and the oldest at 1, but the single line of
    the first update is at [0 / 0], which is [NaN]. *)
Theorem updateWaterfallChart_stacking (this : SignalVisualizer) (fftData : Spectrum) :
  let lines := waterfallData (updateWaterfallChart this fftData) in
  let len := length lines in
  (forall i line, nth_error lines i = Some line ->
     Forall (fun p => y p = Some (ofNat i / ofNat (len - 1))%float) (data line))
  /\ (waterfallData this = [] ->
      exists line, lines = [line] /\ Forall (fun p => y p = Some nan) (data line))
  /\ (waterfallData this <> [] ->
      (ofNat 0 / ofNat (len - 1))%float = 0%float
      /\ (ofNat (len - 1) / ofNat (len - 1))%float = 1%float).
Proof.
  intros lines len.
  assert (Hlines : forall i line, nth_error lines i = Some line ->
            Forall (fun p => y p = Some (ofNat i / ofNat (len - 1))%float) (data line)).
  { intros i line Hi. subst len lines. revert Hi.
    unfold updateWaterfallChart. cbn [waterfallData].
    rewrite length_mapi, nth_error_mapi.
    match goal with
    | |- context [nth_error ?kept i] => destruct (nth_error kept i) as [l|]; [|discriminate]
    end.
    cbn [option_map]. intros [= <-]. cbn [data].
    apply Forall_map, Forall_forall. reflexivity. }
  split; [exact Hlines|]. split.
  - intros Hnil.
    assert (Hone : len = 1%nat).
    { subst len lines. rewrite updateWaterfallChart_length, Hnil. reflexivity. }
    destruct lines as [|line [|line' lines']] eqn:Hl; try discriminate Hone.
    exists line. split; [reflexivity|].
    specialize (Hlines 0%nat line eq_refl). rewrite Hone in Hlines. exact Hlines.
  - intros Hne. apply small_quotients.
    subst len lines. rewrite updateWaterfallChart_length. unfold maxWaterfallLines.
    destruct (waterfallData this); [congruence|]. cbn [length]. lia.
Qed.

(** ** The frequency chart *)

Lemma micro_finite : exists m e, Prim2SF 1e-6 = S754_finite false m e.
Proof. vm_compute. eauto. Qed.

(** [Math.max(mag, 1e-6)] for a magnitude of at most [1e-6]. *)
Lemma Math_max_floor (mag : float) :
  (mag <=? 1e-6)%float = true -> Math_max mag 1e-6 = 1e-6%float.
Proof.
  intros Hle. unfold Math_max.
  destruct (leb_not_nan Hle) as [Hm _]. rewrite Hm.
  change (PrimFloat.is_nan 1e-6) with false. cbv iota.
  destruct (mag <? 1e-6)%float eqn:Hlt; [reflexivity|].
  rewrite (leb_not_ltb Hle).
  destruct micro_finite as (m & e & Hmicro).
  rewrite (leb_ltb_eq Hmicro Hle Hlt).
  now destruct (isNegZero 1e-6).
Qed.

(** X26: the frequency chart has one point per magnitude, at the
    frequency of the same index; every magnitude of at most [1e-6] (0 and
    negative values included) is drawn at the same floor
    [20 * log10(1e-6)], and a [NaN] magnitude at [NaN]. *)
Theorem updateFrequencyChart_floor `{Engine} (this : SignalVisualizer) (fftData : Spectrum)
    (i : nat) (mag : float) :
  nth_error (magnitude fftData) i = Some mag ->
  length (frequencyChart (updateFrequencyChart this fftData)) = length (magnitude fftData)
  /\ exists p,
       nth_error (frequencyChart (updateFrequencyChart this fftData)) i = Some p
       /\ x p = nth_error (frequencies fftData) i
       /\ y p = Some (20 * Math_log10 (Math_max mag 1e-6))%float
       /\ ((mag <=? 1e-6)%float = true -> y p = Some (20 * Math_log10 1e-6)%float)
       /\ (mag = nan -> y p = Some nan).
Proof.
  intros Hi. unfold updateFrequencyChart. cbn [frequencyChart].
  split; [apply length_mapi|].
  rewrite nth_error_mapi, Hi. cbn [option_map].
  eexists. split; [reflexivity|]. cbn [x y].
  split; [reflexivity|]. split; [reflexivity|]. split.
  - intros Hle. now rewrite Math_max_floor.
  - intros ->. cbn [Math_max]. change (Math_max nan 1e-6) with nan.
    now rewrite Math_log10_nan, mul_nan_r.
Qed.

Lemma updateFrequencyChart_floor_witness :
  nth_error (magnitude {| magnitude := [0; 1]%float; frequencies := [0; 43]%float |}) 0
  = Some 0%float
  /\ length (frequencyChart (@updateFrequencyChart flatEngine initializeCharts
               {| magnitude := [0; 1]%float; frequencies := [0; 43]%float |}))
     = length (magnitude {| magnitude := [0; 1]%float; frequencies := [0; 43]%float |})
  /\ exists p,
       nth_error (frequencyChart (@updateFrequencyChart flatEngine initializeCharts
                    {| magnitude := [0; 1]%float; frequencies := [0; 43]%float |})) 0
       = Some p
       /\ x p = nth_error (frequencies {| magnitude := [0; 1]%float;
                                          frequencies := [0; 43]%float |}) 0
       /\ y p = Some (20 * @Math_log10 flatEngine (Math_max 0 1e-6))%float
       /\ ((0 <=? 1e-6)%float = true -> y p = Some (20 * @Math_log10 flatEngine 1e-6)%float)
       /\ (0%float = nan -> y p = Some nan).
Proof.
  split; [reflexivity|].
  exact (@updateFrequencyChart_floor flatEngine initializeCharts
           {| magnitude := [0; 1]%float; frequencies := [0; 43]%float |} 0 0%float eq_refl).
Defined.

(** ** The controls of the page *)

Lemma setDisplay_map (selector : list string) (v : string) (document : list Element) :
  setDisplay selector v document
  = map (fun el => {| classes := classes el;
                      display := if selects selector el then v else display el |})
        document.
Proof.
  unfold setDisplay. apply map_ext. intros [cs d]. cbn [classes display].
  now destruct (selects selector _).
Qed.

(** What [updateModulationControls] does to one element: the last of the
    three assignments that selects it decides. *)
Lemma updateModulationControls_map (modulationType : string) (document : list Element) :
  updateModulationControls modulationType document
  = map (fun el =>
           {| classes := classes el;
              display :=
                if selects ["digital-modulation"%string] el
                then (if includes digitalModulations modulationType then "block" else "none")
                else if ((modulationType =? "am") || (modulationType =? "fm"))%string
                        && selects ["am-controls"; "fm-controls"]%string el
                then "block"
                else if (modulationType =? "fsk")%string
                        && selects ["fsk-controls"%string] el
                then "block"
                else if selects ["modulation-specific"%string] el then "none"
                else display el |}%string)
        document.
Proof.
  unfold updateModulationControls. cbv zeta.
  destruct (String.eqb_spec modulationType "am") as [->|_];
    [change ("am" =? "fm")%string with false; change ("am" =? "fsk")%string with false|
     destruct (String.eqb_spec modulationType "fm") as [->|_];
     [change ("fm" =? "fsk")%string with false|
      destruct (modulationType =? "fsk")%string]];
    cbn [orb andb];
    rewrite !setDisplay_map, !map_map; apply map_ext; intros [cs d];
    unfold selects; cbn [classes display andb];
    repeat match goal with
           | |- context [existsb ?f ?s] => destruct (existsb f s)
           end; reflexivity.
Qed.

Lemma setFirstDisplay_same (selector : list string) (v : string) (document : list Element) :
  (forall el, In el document -> selects selector el = true -> display el = v) ->
  (exists el, In el document /\ selects selector el = true) ->
  setFirstDisplay selector v document = Returns document.
Proof.
  induction document as [|el document IH]; intros Hall (el0 & Hin & Hsel); [contradiction|].
  cbn [setFirstDisplay]. destruct (selects selector el) eqn:Hel.
  - rewrite <- (Hall el (or_introl eq_refl) Hel). now destruct el.
  - rewrite IH; [reflexivity | |].
    + intros el' Hin' Hsel'. apply Hall; [now right | exact Hsel'].
    + destruct Hin as [<- | Hin]; [congruence|]. now exists el0.
Qed.

Lemma updateModulationControls_digital (modulationType : string) (document : list Element)
    (el : Element) :
  In el (updateModulationControls modulationType document) ->
  selects ["digital-modulation"%string] el = true ->
  display el = (if includes digitalModulations modulationType then "block" else "none")%string.
Proof.
  rewrite updateModulationControls_map. intros Hin Hsel.
  apply in_map_iff in Hin as (el0 & <- & _).
  change (selects ["digital-modulation"%string] el0 = true) in Hsel.
  cbn [display]. now rewrite Hsel.
Qed.

Lemma updateModulationControls_selects (modulationType : string) (document : list Element) :
  (exists el, In el document /\ selects ["digital-modulation"%string] el = true) ->
  exists el, In el (updateModulationControls modulationType document)
             /\ selects ["digital-modulation"%string] el = true.
Proof.
  intros (el & Hin & Hsel). rewrite updateModulationControls_map.
  eexists. split; [apply in_map, Hin | exact Hsel].
Qed.

Lemma generateSignal_constellation `{Engine} (this : SignalGenerator) (n : nat)
    (modulationType : string) (k0 : nat) :
  validFor modulationType this n ->
  exists sig k1,
    generateSignal this modulationType k0 = (Returns sig, k1)
    /\ wellFormed n sig
    /\ (if includes digitalModulations modulationType
        then exists pts, constellation sig = Some pts
        else constellation sig = None).
Proof.
  intros (_ & Hn & Hsym).
  by_kind modulationType; subst;
    try (destruct Hsym as (k & Hsps & Hk); [simpl; tauto|]).
  - destruct (generateAM_returns this Hn k0) as (sig & k1 & -> & ? & _ & ?). eauto.
  - destruct (generateFM_returns this Hn k0) as (sig & k1 & -> & ? & _ & ?). eauto.
  - destruct (generateBPSK_returns this Hn Hsps Hk k0) as (sig & k1 & pts & -> & ? & _ & ? & _).
    exists sig, k1. split; [reflexivity|]. split; [assumption|]. cbn. eauto.
  - destruct (generateQPSK_returns this Hn Hsps Hk k0) as (sig & k1 & pts & -> & ? & ? & _).
    exists sig, k1. split; [reflexivity|]. split; [assumption|]. cbn. eauto.
  - destruct (generateFSK_returns this Hn Hsps Hk k0) as (sig & k1 & pts & -> & ? & _ & ? & _).
    exists sig, k1. split; [reflexivity|]. split; [assumption|]. cbn. eauto.
  - destruct (generateLSB_returns this Hn k0) as (sig & k1 & -> & ? & ?). eauto.
  - destruct (generateUSB_returns this Hn k0) as (sig & k1 & -> & ? & ?). eauto.
  - destruct (generateSSB_returns this Hn false k0) as (sig & k1 & -> & ? & ?). eauto.
  - destruct (generateAM_returns this Hn k0) as (sig & k1 & -> & ? & _ & ?).
    exists sig, k1. split; [reflexivity|]. split; [assumption|].
    replace (includes digitalModulations modulationType) with false; [assumption|].
    symmetry. unfold includes, digitalModulations. cbn [existsb].
    repeat match goal with
           | Hne : modulationType <> _ |- _ =>
               apply String.eqb_neq in Hne; rewrite ?Hne; clear Hne
           end.
    reflexivity.
Qed.

(** X27: the two places that show or hide the constellation panel agree.
    For a valid parameter set, once [updateModulationControls] has run for
    the selected type, [updateConstellationChart] on the constellation
    that [generateSignal] returns for this type leaves every [display] of
    the page as it is: the signal has a constellation exactly for
    ['bpsk'], ['qpsk'] and ['fsk']; for the other kinds the points of an
    earlier signal stay in the chart. *)
Theorem constellation_panel_agrees `{Engine} (this : SignalGenerator) (n : nat)
    (modulationType : string) (k0 : nat) (visualizer : SignalVisualizer)
    (document : list Element) :
  validFor modulationType this n ->
  (exists el, In el document /\ selects ["digital-modulation"%string] el = true) ->
  exists sig k1 visualizer',
    generateSignal this modulationType k0 = (Returns sig, k1)
    /\ updateConstellationChart visualizer
         (updateModulationControls modulationType document) (constellation sig)
       = Returns (visualizer', updateModulationControls modulationType document)
    /\ (includes digitalModulations modulationType = false ->
        constellation sig = None /\ visualizer' = visualizer)
    /\ (includes digitalModulations modulationType = true ->
        exists pts, constellation sig = Some pts
                    /\ constellationChart visualizer' = pts).
Proof.
  intros Hvalid Hpanel.
  destruct (generateSignal_constellation k0 Hvalid) as (sig & k1 & Hret & _ & Hc).
  pose proof (@updateModulationControls_selects modulationType document Hpanel) as Hpanel'.
  pose proof (fun el Hin Hsel =>
                @updateModulationControls_digital modulationType document el Hin Hsel)
    as Hdisplay.
  exists sig, k1.
  destruct (includes digitalModulations modulationType).
  - destruct Hc as [pts Hc]. rewrite Hc. unfold updateConstellationChart.
    rewrite (setFirstDisplay_same _ _ Hdisplay Hpanel').
    eexists. split; [exact Hret|]. split; [reflexivity|].
    split; [discriminate|]. intros _. exists pts. split; [reflexivity|].
    cbn [constellationChart]. rewrite <- (map_id pts) at 2. apply map_ext.
    now intros [px py].
  - rewrite Hc. unfold updateConstellationChart.
    rewrite (setFirstDisplay_same _ _ Hdisplay Hpanel').
    exists visualizer. split; [exact Hret|]. split; [reflexivity|].
    split; [auto | discriminate].
Qed.

Lemma samplePage_panel :
  exists el, In el samplePage /\ selects ["digital-modulation"%string] el = true.
Proof. eexists. split; [right; left; reflexivity | reflexivity]. Qed.

Lemma constellation_panel_agrees_witness :
  validFor "fsk" constructor (Z.to_nat 44100)
  /\ (exists el, In el samplePage /\ selects ["digital-modulation"%string] el = true)
  /\ exists sig k1 visualizer',
       @generateSignal flatEngine constructor "fsk" 0 = (Returns sig, k1)
       /\ updateConstellationChart initializeCharts
            (updateModulationControls "fsk" samplePage) (constellation sig)
          = Returns (visualizer', updateModulationControls "fsk" samplePage)
       /\ (includes digitalModulations "fsk" = false ->
           constellation sig = None /\ visualizer' = initializeCharts)
       /\ (includes digitalModulations "fsk" = true ->
           exists pts, constellation sig = Some pts
                       /\ constellationChart visualizer' = pts).
Proof.
  split; [exact (validFor_constructor "fsk")|]. split; [exact samplePage_panel|].
  exact (@constellation_panel_agrees flatEngine constructor (Z.to_nat 44100) "fsk" 0
           initializeCharts samplePage (validFor_constructor "fsk") samplePage_panel).
Defined.

(** ** updateCharts *)

Lemma setFirstDisplay_none (selector : list string) (v : string) (document : list Element) :
  (forall el, In el document -> selects selector el = false) ->
  setFirstDisplay selector v document = Throws TypeError.
Proof.
  induction document as [|el document IH]; intros Hnone; [reflexivity|].
  cbn [setFirstDisplay]. rewrite (Hnone el (or_introl eq_refl)).
  rewrite IH; [reflexivity|]. intros el' Hin. apply Hnone. now right.
Qed.

(** X28: the order of the four updates shows when the page has no
    element of class [digital-modulation].  [updateCharts] then raises a
    [TypeError] in [updateConstellationChart], after the time and
    frequency charts were updated and before the waterfall is: no line is
    added and the page is unchanged. *)
Theorem updateCharts_without_panel `{Engine} (this : SignalVisualizer)
    (document : list Element) (signal : Signal) (fftData : Spectrum) :
  (forall el, In el document -> selects ["digital-modulation"%string] el = false) ->
  exists this',
    updateCharts this document signal fftData = Some (this', document, Some TypeError)
    /\ length (frequencyChart this') = length (magnitude fftData)
    /\ (length (timeChart this') <= 1999)%nat
    /\ constellationChart this' = constellationChart this
    /\ waterfallData this' = waterfallData this.
Proof.
  intros Hnone. unfold updateCharts.
  destruct (updateTimeChart_returns this signal) as (this1 & -> & _ & Hlen & _ & Hc & Hw).
  assert (Hthrow : forall v c,
            updateConstellationChart v document c = Throws TypeError).
  { intros v [c|]; unfold updateConstellationChart;
      now rewrite setFirstDisplay_none by exact Hnone. }
  rewrite Hthrow. eexists. split; [reflexivity|].
  unfold updateFrequencyChart.
  cbn [frequencyChart timeChart constellationChart waterfallData].
  rewrite length_mapi. auto.
Qed.

Lemma barePage_no_panel :
  forall el, In el barePage -> selects ["digital-modulation"%string] el = false.
Proof. intros el [<-|[]]. reflexivity. Qed.

Lemma updateCharts_without_panel_witness :
  (forall el, In el barePage -> selects ["digital-modulation"%string] el = false)
  /\ exists this',
       @updateCharts flatEngine initializeCharts barePage
         {| time := [0; 1]%float; realSignal := [1; 2]%float; imagSignal := [];
            constellation := None |}
         {| magnitude := [0; 1]%float; frequencies := [0; 43]%float |}
       = Some (this', barePage, Some TypeError)
       /\ length (frequencyChart this')
          = length (magnitude {| magnitude := [0; 1]%float; frequencies := [0; 43]%float |})
       /\ (length (timeChart this') <= 1999)%nat
       /\ constellationChart this' = constellationChart initializeCharts
       /\ waterfallData this' = waterfallData initializeCharts.
Proof.
  split; [exact barePage_no_panel|].
  exact (@updateCharts_without_panel flatEngine initializeCharts barePage
           {| time := [0; 1]%float; realSignal := [1; 2]%float; imagSignal := [];
              constellation := None |}
           {| magnitude := [0; 1]%float; frequencies := [0; 43]%float |}
           barePage_no_panel).
Defined.

(** ** The handler of the Generate button *)

Lemma setFirstDisplay_returns (selector : list string) (v : string) (document : list Element) :
  (exists el, In el document /\ selects selector el = true) ->
  exists document',
    setFirstDisplay selector v document = Returns document'
    /\ map classes document' = map classes document.
Proof.
  induction document as [|el document IH]; intros (el0 & Hin & Hsel); [contradiction|].
  cbn [setFirstDisplay]. destruct (selects selector el) eqn:Hel.
  - eexists. split; reflexivity.
  - destruct IH as (document' & -> & Hcl).
    + destruct Hin as [<- | Hin]; [congruence|]. now exists el0.
    + eexists. split; [reflexivity|]. cbn [map]. now rewrite Hcl.
Qed.

Lemma updateCharts_returns `{Engine} (this : SignalVisualizer) (document : list Element)
    (signal : Signal) (fftData : Spectrum) :
  (exists el, In el document /\ selects ["digital-modulation"%string] el = true) ->
  let len := length (time signal) in
  let f := Nat.max 1 (len / 1000) in
  exists this' document',
    updateCharts this document signal fftData = Some (this', document', None)
    /\ map classes document' = map classes document
    /\ length (timeChart this') = ((len + f - 1) / f)%nat
    /\ length (frequencyChart this') = length (magnitude fftData)
    /\ length (waterfallData this') = Nat.min (S (length (waterfallData this))) 20.
Proof.
  intros Hpanel len f. unfold updateCharts.
  destruct (updateTimeChart_returns this signal) as (this1 & -> & Htime & _ & _ & _ & Hw).
  fold len in Htime. fold f in Htime.
  unfold updateConstellationChart.
  destruct (constellation signal) as [pts|].
  - destruct (@setFirstDisplay_returns _ "block"%string _ Hpanel) as (document' & -> & Hcl).
    eexists; eexists. split; [reflexivity|]. split; [exact Hcl|].
    rewrite updateWaterfallChart_length.
    unfold updateWaterfallChart, updateFrequencyChart.
    cbn [timeChart frequencyChart waterfallData].
    rewrite Htime, length_map, length_seq, length_mapi, Hw. auto.
  - destruct (@setFirstDisplay_returns _ "none"%string _ Hpanel) as (document' & -> & Hcl).
    eexists; eexists. split; [reflexivity|]. split; [exact Hcl|].
    rewrite updateWaterfallChart_length.
    unfold updateWaterfallChart, updateFrequencyChart.
    cbn [timeChart frequencyChart waterfallData].
    rewrite Htime, length_map, length_seq, length_mapi, Hw. auto.
Qed.

(** X29: one click on Generate with a valid parameter set, on a page
    that has the constellation panel.  The generator takes the truthy
    values of the controls, and the signal it generates is charted and
    analysed: a time chart of [ceil(n / f)] points for
    [f = max(1, floor(n / 1000))], a frequency chart of 512 points, one
    more waterfall line (20 at most), and result texts computed from the
    signal and its spectrum; no exception is raised. *)
Theorem generateAndDisplaySignal_displays `{Engine} (Number_toString : float -> string)
    (Number_toFixed1 : float -> string) (page : Page) (controls : Controls) (n k0 : nat) :
  let generator := updateParameters (signalGenerator page) (paramsOf controls) in
  let f := Nat.max 1 (n / 1000) in
  validFor (modulation_type controls) generator n ->
  (exists el, In el (elements page) /\ selects ["digital-modulation"%string] el = true) ->
  exists page' k1 signal,
    generateAndDisplaySignal Number_toString Number_toFixed1 page controls k0
    = (Some (page', None), k1)
    /\ generateSignal generator (modulation_type controls) k0 = (Returns signal, k1)
    /\ signalGenerator page' = generator
    /\ length (timeChart (visualizer page')) = ((n + f - 1) / f)%nat
    /\ length (frequencyChart (visualizer page')) = 512%nat
    /\ length (waterfallData (visualizer page'))
       = Nat.min (S (length (waterfallData (visualizer page)))) 20
    /\ map classes (elements page') = map classes (elements page)
    /\ results page'
       = analysisResults Number_toString Number_toFixed1 signal
           (computeFFT generator (realSignal signal)) controls.
Proof.
  intros generator f Hvalid Hpanel.
  destruct (generateSignal_constellation k0 Hvalid) as (signal & k1 & Hret & Hwf & _).
  destruct (@updateCharts_returns _ (visualizer page) (elements page) signal
              (computeFFT generator (realSignal signal)) Hpanel)
    as (visualizer' & elements' & Hcharts & Hcl & Htime & Hfreq & Hwater).
  destruct Hwf as (Hlen & _). rewrite Hlen in Htime.
  rewrite (proj1 (computeFFT_lengths generator (realSignal signal))) in Hfreq.
  unfold generateAndDisplaySignal. fold generator. rewrite Hret, Hcharts.
  eexists; exists k1, signal. split; [reflexivity|].
  cbn [signalGenerator visualizer elements results]. auto 10.
Qed.

(** X30: a failure sticks.  When the symbol rate read from the controls
    leaves less than one sample per symbol, the click ends in a
    [RangeError] for ['bpsk'], ['qpsk'] and ['fsk']: the generator has
    taken the new rate, while the charts, the page and the result texts
    are as before.  A second click with the symbol rate field emptied
    (or 0) fails in the same way, since a falsy rate is ignored and the
    generator keeps the rate that failed. *)
Theorem generateAndDisplaySignal_failure_sticks `{Engine}
    (Number_toString : float -> string) (Number_toFixed1 : float -> string)
    (page : Page) (controls retry : Controls) (n k0 k0' : nat) :
  let generator := updateParameters (signalGenerator page) (paramsOf controls) in
  arrayLength (numSamples generator) = Returns n -> (0 < n)%nat ->
  samplesPerSymbol generator = JZ 0 ->
  In (modulation_type controls) symbolKinds ->
  In (modulation_type retry) symbolKinds ->
  truthy (symbol_rate retry) = false ->
  exists page1 page2,
    generateAndDisplaySignal Number_toString Number_toFixed1 page controls k0
    = (Some (page1, Some RangeError), k0)
    /\ signalGenerator page1 = generator
    /\ visualizer page1 = visualizer page
    /\ elements page1 = elements page
    /\ results page1 = results page
    /\ generateAndDisplaySignal Number_toString Number_toFixed1 page1 retry k0'
       = (Some (page2, Some RangeError), k0')
    /\ symbolRate (signalGenerator page2) = symbolRate generator
    /\ visualizer page2 = visualizer page
    /\ elements page2 = elements page
    /\ results page2 = results page.
Proof.
  intros generator Hn Hpos Hsps Hkind Hkind' Hfalsy.
  pose proof (symbol_generators_throw generator Hn k0 Hpos Hsps) as Hthrow.
  assert (Hsignal : forall g kind k,
            arrayLength (numSamples g) = Returns n -> samplesPerSymbol g = JZ 0 ->
            In kind symbolKinds -> generateSignal g kind k = (Throws RangeError, k)).
  { intros g kind k Hgn Hgs Hin.
    destruct (symbol_generators_throw g Hgn k Hpos Hgs) as (Hb & Hq & Hf).
    simpl in Hin. destruct Hin as [<-|[<-|[<-|[]]]]; assumption. }
  eexists; eexists. split.
  { unfold generateAndDisplaySignal. fold generator.
    rewrite (Hsignal generator _ k0 Hn Hsps Hkind). reflexivity. }
  cbn [signalGenerator visualizer elements results].
  do 4 (split; [reflexivity|]).
  assert (Hsame : symbolRate (updateParameters generator (paramsOf retry))
                  = symbolRate generator).
  { cbn [updateParameters symbolRate paramsOf p_symbolRate orElse]. now rewrite Hfalsy. }
  split.
  { unfold generateAndDisplaySignal. cbn [signalGenerator].
    rewrite (Hsignal (updateParameters generator (paramsOf retry)) _ k0').
    - reflexivity.
    - exact Hn.
    - unfold samplesPerSymbol in *. rewrite Hsame. exact Hsps.
    - exact Hkind'. }
  cbn [signalGenerator visualizer elements results]. auto.
Qed.

Lemma validFor_controlsAM :
  validFor (modulation_type controlsAM)
           (updateParameters (signalGenerator loadedPage) (paramsOf controlsAM))
           (Z.to_nat 44100).
Proof.
  split; [reflexivity|]. split; [exact arrayLength_44100|].
  intros Hin. exfalso. simpl in Hin.
  repeat (destruct Hin as [Hin|Hin]; [discriminate Hin|]). exact Hin.
Qed.

Lemma generateAndDisplaySignal_displays_witness :
  let generator := updateParameters (signalGenerator loadedPage) (paramsOf controlsAM) in
  let f := Nat.max 1 (Z.to_nat 44100 / 1000) in
  validFor (modulation_type controlsAM) generator (Z.to_nat 44100)
  /\ (exists el, In el (elements loadedPage)
                 /\ selects ["digital-modulation"%string] el = true)
  /\ exists page' k1 signal,
       @generateAndDisplaySignal flatEngine (fun _ => "0"%string) (fun _ => "0.0"%string)
         loadedPage controlsAM 0
       = (Some (page', None), k1)
       /\ @generateSignal flatEngine generator (modulation_type controlsAM) 0
          = (Returns signal, k1)
       /\ signalGenerator page' = generator
       /\ length (timeChart (visualizer page')) = ((Z.to_nat 44100 + f - 1) / f)%nat
       /\ length (frequencyChart (visualizer page')) = 512%nat
       /\ length (waterfallData (visualizer page'))
          = Nat.min (S (length (waterfallData (visualizer loadedPage)))) 20
       /\ map classes (elements page') = map classes (elements loadedPage)
       /\ results page'
          = @analysisResults flatEngine (fun _ => "0"%string) (fun _ => "0.0"%string) signal
              (@computeFFT flatEngine generator (realSignal signal)) controlsAM.
Proof.
  split; [exact validFor_controlsAM|]. split; [exact samplePage_panel|].
  exact (@generateAndDisplaySignal_displays flatEngine (fun _ => "0"%string)
           (fun _ => "0.0"%string) loadedPage controlsAM (Z.to_nat 44100) 0
           validFor_controlsAM samplePage_panel).
Defined.

Lemma samplesPerSymbol_controlsFast :
  samplesPerSymbol (updateParameters (signalGenerator loadedPage) (paramsOf controlsFast))
  = JZ 0.
Proof. vm_compute. reflexivity. Qed.

Lemma bpsk_symbol_kind : In "bpsk"%string symbolKinds.
Proof. simpl. auto. Qed.

Lemma generateAndDisplaySignal_failure_sticks_witness :
  let generator := updateParameters (signalGenerator loadedPage) (paramsOf controlsFast) in
  arrayLength (numSamples generator) = Returns (Z.to_nat 44100)
  /\ (0 < Z.to_nat 44100)%nat
  /\ samplesPerSymbol generator = JZ 0
  /\ In (modulation_type controlsFast) symbolKinds
  /\ In (modulation_type controlsBlank) symbolKinds
  /\ truthy (symbol_rate controlsBlank) = false
  /\ exists page1 page2,
       @generateAndDisplaySignal flatEngine (fun _ => "0"%string) (fun _ => "0.0"%string)
         loadedPage controlsFast 0
       = (Some (page1, Some RangeError), 0%nat)
       /\ signalGenerator page1 = generator
       /\ visualizer page1 = visualizer loadedPage
       /\ elements page1 = elements loadedPage
       /\ results page1 = results loadedPage
       /\ @generateAndDisplaySignal flatEngine (fun _ => "0"%string) (fun _ => "0.0"%string)
            page1 controlsBlank 7
          = (Some (page2, Some RangeError), 7%nat)
       /\ symbolRate (signalGenerator page2) = symbolRate generator
       /\ visualizer page2 = visualizer loadedPage
       /\ elements page2 = elements loadedPage
       /\ results page2 = results loadedPage.
Proof.
  split; [exact arrayLength_44100|]. split; [exact positive_44100|].
  split; [exact samplesPerSymbol_controlsFast|].
  split; [exact bpsk_symbol_kind|]. split; [exact bpsk_symbol_kind|].
  split; [reflexivity|].
  exact (@generateAndDisplaySignal_failure_sticks flatEngine (fun _ => "0"%string)
           (fun _ => "0.0"%string) loadedPage controlsFast controlsBlank (Z.to_nat 44100) 0 7
           arrayLength_44100 positive_44100 samplesPerSymbol_controlsFast
           bpsk_symbol_kind bpsk_symbol_kind eq_refl).
Defined.
